(** * aws-streaming-poc: catalog cache manager and streaming proxy

    A shallow embedding of [server/services/content-service.ts] and of the
    [/api/content/stream/:key] route of the server's route table, together
    with the JavaScript built-ins they rely on ([decodeURIComponent],
    [encodeURIComponent], [parseInt], [Array.prototype.find], [Map]).

    Conventions.
    - A JavaScript string is represented by the bytes of its UTF-8
      encoding, as a [string] of the standard library.  Strings of the
      program are well formed (no lone surrogate), which on this
      representation reads [wellFormed s = true].
    - An exception is a value of [Exn]; a computation that may throw
      returns a [Res].
    - [async] functions are run to completion: an [await] is a sequencing
      point of the state-and-exception monad [M].  Interleavings of several
      requests are outside this model.
    - Everything outside the two source files (object storage, record
      store, URL signers, HTTP client, clock, random numbers, process
      environment) is a field of an environment record acting on an
      abstract world [W]. *)

From Stdlib Require Import ZArith NArith List String Ascii Bool Lia DecimalString.
Import ListNotations.
Local Open Scope string_scope.
Local Open Scope Z_scope.

Set Implicit Arguments.

(* ================================================================== *)
(** * Results and exceptions *)

Inductive Exn : Type :=
| Error (message : string)          (* [new Error(message)] *)
| URIError                          (* thrown by [decodeURIComponent] *)
| Failure (name message : string).  (* an error object of another class,
                                       thrown by a collaborator *)

Inductive Res (A : Type) : Type :=
| OK (a : A)
| Throw (e : Exn).
Arguments Throw {A} e.

Definition isOK {A} (r : Res A) : bool :=
  match r with OK _ => true | Throw _ => false end.

(** [Error.prototype.toString]: the name and the message, joined by a
    colon when neither is empty. *)
Definition errorToString (name message : string) : string :=
  if String.eqb name "" then message
  else if String.eqb message "" then name
  else name ++ ": " ++ message.

(** [String(error)] *)
Definition exnString (e : Exn) : string :=
  match e with
  | Error message => errorToString "Error" message
  | URIError => errorToString "URIError" "URI malformed"
  | Failure name message => errorToString name message
  end.

Definition resBind {A B} (r : Res A) (k : A -> Res B) : Res B :=
  match r with OK a => k a | Throw e => Throw e end.

(* ================================================================== *)
(** * JavaScript built-ins on strings *)

Module JS.

(** [s.includes(needle)] *)
Fixpoint includes (needle s : string) : bool :=
  if String.prefix needle s then true
  else match s with
       | EmptyString => false
       | String _ r => includes needle r
       end.

(** ** Percent-encoding: [encodeURIComponent]

    The unreserved set of [encodeURIComponent] is the ASCII letters and
    digits and the marks [- _ . ! ~ * ' ( )].  Every other code point is
    replaced by the escapes of the octets of its UTF-8 encoding, which on
    the byte representation is one escape per byte. *)

Definition isAsciiDigit (c : ascii) : bool :=
  let n := N_of_ascii c in ((48 <=? n) && (n <=? 57))%N.

Definition isAsciiUpper (c : ascii) : bool :=
  let n := N_of_ascii c in ((65 <=? n) && (n <=? 90))%N.

Definition isAsciiLower (c : ascii) : bool :=
  let n := N_of_ascii c in ((97 <=? n) && (n <=? 122))%N.

Definition isUriMark (c : ascii) : bool :=
  existsb (Ascii.eqb c)
    ["-"; "_"; "."; "!"; "~"; "*"; "'"; "("; ")"]%char.

Definition isUnreserved (c : ascii) : bool :=
  isAsciiDigit c || isAsciiUpper c || isAsciiLower c || isUriMark c.

(** Upper-case hexadecimal digit of a value below 16. *)
Definition hexDigit (n : N) : ascii :=
  if (n <? 10)%N then ascii_of_N (48 + n) else ascii_of_N (55 + n).

(** Value of a hexadecimal digit, either case. *)
Definition hexVal (c : ascii) : option N :=
  let n := N_of_ascii c in
  if isAsciiDigit c then Some (n - 48)%N
  else if ((65 <=? n) && (n <=? 70))%N then Some (n - 55)%N
  else if ((97 <=? n) && (n <=? 102))%N then Some (n - 87)%N
  else None.

Definition percentEscape (c : ascii) : string :=
  let n := N_of_ascii c in
  String "%" (String (hexDigit (n / 16)) (String (hexDigit (n mod 16)) EmptyString)).

Fixpoint encodeURIComponent (s : string) : string :=
  match s with
  | EmptyString => EmptyString
  | String c r =>
      if isUnreserved c then String c (encodeURIComponent r)
      else percentEscape c ++ encodeURIComponent r
  end.

(** ** UTF-8 sequences (Unicode, table 3-7) *)

Definition inRange (lo hi n : N) : bool := ((lo <=? n) && (n <=? hi))%N.

Definition isContinuation (n : N) : bool := inRange 128 191 n.

(** Number of leading one bits of an octet above 127, as far as the
    decoder distinguishes them: 1 for a continuation octet, 2 to 4 for a
    lead octet, 5 for anything longer. *)
Definition leadingOnes (b : N) : nat :=
  if (b <? 192)%N then 1%nat
  else if (b <? 224)%N then 2%nat
  else if (b <? 240)%N then 3%nat
  else if (b <? 248)%N then 4%nat
  else 5%nat.

Definition validSeq2 (b b1 : N) : bool :=
  inRange 194 223 b && isContinuation b1.

Definition validSeq3 (b b1 b2 : N) : bool :=
  ((b =? 224)%N && inRange 160 191 b1 && isContinuation b2)
  || (inRange 225 236 b && isContinuation b1 && isContinuation b2)
  || ((b =? 237)%N && inRange 128 159 b1 && isContinuation b2)
  || (inRange 238 239 b && isContinuation b1 && isContinuation b2).

Definition validSeq4 (b b1 b2 b3 : N) : bool :=
  ((b =? 240)%N && inRange 144 191 b1 && isContinuation b2 && isContinuation b3)
  || (inRange 241 243 b && isContinuation b1 && isContinuation b2 && isContinuation b3)
  || ((b =? 244)%N && inRange 128 143 b1 && isContinuation b2 && isContinuation b3).

(** A string of the program: its bytes are a sequence of valid UTF-8
    encodings. *)
Fixpoint wellFormed (s : string) : bool :=
  match s with
  | EmptyString => true
  | String c r =>
      let b := N_of_ascii c in
      if (b <? 128)%N then wellFormed r
      else
        match leadingOnes b, r with
        | 2%nat, String c1 r1 =>
            validSeq2 b (N_of_ascii c1) && wellFormed r1
        | 3%nat, String c1 (String c2 r2) =>
            validSeq3 b (N_of_ascii c1) (N_of_ascii c2) && wellFormed r2
        | 4%nat, String c1 (String c2 (String c3 r3)) =>
            validSeq4 b (N_of_ascii c1) (N_of_ascii c2) (N_of_ascii c3)
            && wellFormed r3
        | _, _ => false
        end
  end.

(** ** Percent-decoding: [decodeURIComponent]

    The algorithm of the language definition scans the string once; a
    ["%"] must be followed by two hexadecimal digits, an octet below 128
    is emitted as it is, and an octet above starts a UTF-8 sequence whose
    remaining octets must be escapes too and which must be valid.  Every
    failure throws [URIError], so the scan is written in two steps: cut
    the string in literal characters and escapes, then assemble. *)

Inductive Token : Type :=
| Lit (c : ascii)
| Esc (b : N).

Fixpoint tokens (s : string) : option (list Token) :=
  match s with
  | EmptyString => Some []
  | String c r =>
      if Ascii.eqb c "%" then
        match r with
        | String h1 (String h2 r') =>
            match hexVal h1, hexVal h2 with
            | Some a, Some b =>
                option_map (cons (Esc (16 * a + b))) (tokens r')
            | _, _ => None
            end
        | _ => None
        end
      else option_map (cons (Lit c)) (tokens r)
  end.

Definition emit (bs : list N) (k : option string) : option string :=
  option_map (fun r => fold_right (fun b acc => String (ascii_of_N b) acc) r bs) k.

Fixpoint assemble (ts : list Token) : option string :=
  match ts with
  | [] => Some EmptyString
  | Lit c :: r => option_map (String c) (assemble r)
  | Esc b :: r =>
      if (b <? 128)%N then emit [b] (assemble r)
      else
        match leadingOnes b, r with
        | 2%nat, Esc b1 :: r1 =>
            if validSeq2 b b1 then emit [b; b1] (assemble r1) else None
        | 3%nat, Esc b1 :: Esc b2 :: r2 =>
            if validSeq3 b b1 b2 then emit [b; b1; b2] (assemble r2) else None
        | 4%nat, Esc b1 :: Esc b2 :: Esc b3 :: r3 =>
            if validSeq4 b b1 b2 b3 then emit [b; b1; b2; b3] (assemble r3)
            else None
        | _, _ => None
        end
  end.

Definition decodeURIComponent (s : string) : Res string :=
  match tokens s with
  | None => Throw URIError
  | Some ts =>
      match assemble ts with
      | None => Throw URIError
      | Some r => OK r
      end
  end.

(** ** [s.split(sep).pop()] and [toLowerCase]

    [split] on a one-character separator never returns an empty array, so
    [pop] always yields a string: the part after the last separator. *)

Fixpoint split (sep : ascii) (s : string) : list string :=
  match s with
  | EmptyString => [EmptyString]
  | String c r =>
      if Ascii.eqb c sep then EmptyString :: split sep r
      else match split sep r with
           | h :: t => String c h :: t
           | [] => [String c EmptyString]
           end
  end.

Definition pop (l : list string) : string := last l EmptyString.

Definition lowerChar (c : ascii) : ascii :=
  if isAsciiUpper c then ascii_of_N (N_of_ascii c + 32) else c.

Fixpoint asciiLowerCase (s : string) : string :=
  match s with
  | EmptyString => EmptyString
  | String c r => String (lowerChar c) (asciiLowerCase r)
  end.

(** Every byte is below 128: the string has ASCII characters only. *)
Fixpoint isAscii (s : string) : bool :=
  match s with
  | EmptyString => true
  | String c r => (N_of_ascii c <? 128)%N && isAscii r
  end.

(** [s.toLowerCase()].  On a string of ASCII characters the result is
    computed here.  On any other string it is the engine's: the case
    mapping of Unicode, with its tables and its rules of context, is the
    function [unicode], which the model leaves open. *)
Definition toLowerCase (unicode : string -> string) (s : string) : string :=
  if isAscii s then asciiLowerCase s else unicode s.

(** ** Numbers

    The numbers of the program that matter here are integers or [NaN].
    [Num z] is the double whose value is the integer [z] (both zeros are
    [Num 0]: [===] does not tell them apart). *)

Inductive Number : Type :=
| NaN
| Num (z : Z)
| Infinity (negative : bool).

(** [a === b] on numbers. *)
Definition strictEq (a b : Number) : bool :=
  match a, b with
  | Num x, Num y => x =? y
  | Infinity s, Infinity t => Bool.eqb s t
  | _, _ => false
  end.

(** The double nearest to a natural number, ties to even. *)
Definition roundToDouble (m : Z) : option Z :=
  let bits := if m =? 0 then 0 else Z.log2 m + 1 in
  if bits <=? 53 then Some m
  else
    let e := bits - 53 in
    let q := Z.shiftr m e in
    let r := m - Z.shiftl q e in
    let half := Z.shiftl 1 (e - 1) in
    let q' := if (half <? r) || ((r =? half) && Z.odd q) then q + 1 else q in
    let v := Z.shiftl q' e in
    if 2 ^ 1024 <=? v then None else Some v.

Definition toNumber (negative : bool) (m : Z) : Number :=
  match roundToDouble m with
  | Some v => Num (if negative then - v else v)
  | None => Infinity negative
  end.

(** ** [parseInt(s)] with no radix *)

Definition isAsciiSpace (n : N) : bool :=
  inRange 9 13 n || (n =? 32)%N.

(** Leading white space and line terminators.  Beyond ASCII these are
    U+00A0, U+1680, U+2000 to U+200A, U+2028, U+2029, U+202F, U+205F,
    U+3000 and U+FEFF, here by their UTF-8 bytes. *)
Fixpoint trimStart (s : string) : string :=
  match s with
  | EmptyString => EmptyString
  | String c r =>
      let n := N_of_ascii c in
      if isAsciiSpace n then trimStart r
      else
        match r with
        | String c1 r1 =>
            let n1 := N_of_ascii c1 in
            if ((n =? 194) && (n1 =? 160))%N then trimStart r1
            else
              match r1 with
              | String c2 r2 =>
                  let n2 := N_of_ascii c2 in
                  if ((n =? 225) && (n1 =? 154) && (n2 =? 128))%N
                     || ((n =? 226) && (n1 =? 128)
                         && (inRange 128 138 n2 || inRange 168 169 n2
                             || (n2 =? 175)))%N
                     || ((n =? 226) && (n1 =? 129) && (n2 =? 159))%N
                     || ((n =? 227) && (n1 =? 128) && (n2 =? 128))%N
                     || ((n =? 239) && (n1 =? 187) && (n2 =? 191))%N
                  then trimStart r2
                  else s
              | EmptyString => s
              end
        | EmptyString => s
        end
  end.

Definition digitVal (radix : N) (c : ascii) : option N :=
  match hexVal c with
  | Some v => if (v <? radix)%N then Some v else None
  | None => None
  end.

(** Value of the longest prefix of digits, [None] when it is empty. *)
Fixpoint digits (radix : N) (s : string) (acc : option N) : option N :=
  match s with
  | EmptyString => acc
  | String c r =>
      match digitVal radix c with
      | Some v =>
          digits radix r
            (Some (match acc with Some a => a * radix + v | None => v end)%N)
      | None => acc
      end
  end.

Definition stripSign (s : string) : bool * string :=
  match s with
  | String "-" r => (true, r)
  | String "+" r => (false, r)
  | _ => (false, s)
  end.

Definition stripHexPrefix (s : string) : N * string :=
  match s with
  | String "0" (String "x" r) => (16%N, r)
  | String "0" (String "X" r) => (16%N, r)
  | _ => (10%N, s)
  end.

Definition parseInt (s : string) : Number :=
  let (negative, s1) := stripSign (trimStart s) in
  let (radix, s2) := stripHexPrefix s1 in
  match digits radix s2 None with
  | None => NaN
  | Some m => toNumber negative (Z.of_N m)
  end.

(** [n.toString()] for a natural number. *)
Definition numberToString (n : N) : string :=
  DecimalString.NilZero.string_of_uint (N.to_uint n).

(** ** Truthiness: [x || d] and [x ? a : b] on optional values *)

Definition truthyString (x : option string) : option string :=
  match x with
  | Some s => if String.eqb s EmptyString then None else Some s
  | None => None
  end.

Definition orString (x : option string) (d : string) : string :=
  match truthyString x with Some s => s | None => d end.

Definition orNumber (x : option Z) (d : Z) : Z :=
  match x with
  | Some z => if z =? 0 then d else z
  | None => d
  end.

Definition orBool (x : option bool) (d : bool) : bool :=
  match x with
  | Some true => true
  | _ => d
  end.

(** ** [Map] with string keys: entries in insertion order *)

Section JSMap.
Variable V : Type.

Definition JSMap := list (string * V).

Definition has (k : string) (m : JSMap) : bool :=
  existsb (fun e => String.eqb (fst e) k) m.

Fixpoint get (k : string) (m : JSMap) : option V :=
  match m with
  | [] => None
  | (k', v) :: r => if String.eqb k' k then Some v else get k r
  end.

(** [m.set(k, v)]: an existing key keeps its place. *)
Fixpoint set (k : string) (v : V) (m : JSMap) : JSMap :=
  match m with
  | [] => [(k, v)]
  | (k', v') :: r =>
      if String.eqb k' k then (k, v) :: r else (k', v') :: set k v r
  end.

(** A mutation of the object stored under [k], as in
    [m.get(k).files.push(x)]; nothing happens for a missing key, where
    the optional call [m.get(k)?.push(x)] does nothing either. *)
Fixpoint mutate (k : string) (f : V -> V) (m : JSMap) : JSMap :=
  match m with
  | [] => []
  | (k', v) :: r =>
      if String.eqb k' k then (k', f v) :: r else (k', v) :: mutate k f r
  end.

Definition values (m : JSMap) : list V := map snd m.
Definition entries (m : JSMap) : list (string * V) := m.
End JSMap.

End JS.

(* ================================================================== *)
(** * The state-and-exception monad

    A computation takes a state and returns a result or an exception
    together with the state it leaves behind: what was written before a
    [throw] stays written. *)

Definition M (S A : Type) : Type := S -> Res A * S.

Definition ret {S A} (a : A) : M S A := fun s => (OK a, s).

Definition bind {S A B} (m : M S A) (k : A -> M S B) : M S B :=
  fun s =>
    match m s with
    | (OK a, s') => k a s'
    | (Throw e, s') => (Throw e, s')
    end.

Definition throw {S A} (e : Exn) : M S A := fun s => (Throw e, s).

(** [try { m } catch (e) { h e }] *)
Definition tryCatch {S A} (m : M S A) (h : Exn -> M S A) : M S A :=
  fun s =>
    match m s with
    | (OK a, s') => (OK a, s')
    | (Throw e, s') => h e s'
    end.

Definition gets {S A} (f : S -> A) : M S A := fun s => (OK (f s), s).

Definition modify {S} (f : S -> S) : M S unit := fun s => (OK tt, f s).

Declare Scope monad_scope.
Delimit Scope monad_scope with monad.
Notation "x <- m ;; k" := (bind m (fun x => k))
  (at level 61, m at next level, right associativity) : monad_scope.
Notation "m ;; k" := (bind m (fun _ => k))
  (at level 61, right associativity) : monad_scope.
Local Open Scope monad_scope.

(** [for (const x of xs) { acc = body(x, acc) }] *)
Fixpoint forOf {S A B} (xs : list A) (body : A -> B -> M S B) (acc : B) : M S B :=
  match xs with
  | [] => ret acc
  | x :: r => acc' <- body x acc ;; forOf r body acc'
  end.

(* ================================================================== *)
(** * Data of the content service *)

(** A [Date]: built from the clock, or parsed from a stored string. *)
Inductive JSDate : Type :=
| DateOfClock (ms : Z)
| DateOfString (s : string).

(** [ProcessedVideo] *)
Record ProcessedVideo : Type := {
  id : string;
  title : string;
  description : string;
  thumbnailUrl : option string;
  videoUrl : option string;
  hlsUrl : string;
  duration : Z;
  releaseYear : Z;
  genre : string;
  rating : string;
  featured : bool;
  category : string;
  createdAt : JSDate
}.

(** [Video] of the shared schema, as the service fills it. *)
Record Video : Type := {
  v_id : JS.Number;
  v_title : string;
  v_description : string;
  v_thumbnailUrl : string;
  v_videoUrl : string;
  v_hlsUrl : string;
  v_duration : Z;
  v_releaseYear : Z;
  v_genre : string;
  v_rating : string;
  v_featured : bool;
  v_category : string;
  v_createdAt : JSDate
}.

Record VideoWithMatch : Type := { vm_video : Video; vm_match : Z }.

Record FeaturedContent : Type := { fc_video : Video; fc_match : Z }.

Record CategoryWithVideos : Type := {
  c_id : Z;
  c_title : string;
  c_videos : list VideoWithMatch
}.

(** An entry of the object listing. *)
Record S3File : Type := { f_key : option string; f_url : option string }.

(** What [extractMovieInfo] reads in a key. *)
Record MovieInfo : Type := {
  mi_id : string;
  mi_title : string;
  mi_genre : string;
  mi_fileType : string
}.

Record MovieFile : Type := {
  mf_type : string;
  mf_key : option string;
  mf_url : option string
}.

(** A group of the listing: the files that share one id. *)
Record Movie : Type := {
  m_id : string;
  m_title : string;
  m_genre : string;
  m_files : list MovieFile
}.

(** A row of the [StreamingVideos] table as [getAllVideos] returns it;
    every attribute but the key may be missing. *)
Record DynamoVideo : Type := {
  dv_id : string;
  dv_title : option string;
  dv_description : option string;
  dv_thumbnailKey : option string;
  dv_videoKey : option string;
  dv_duration : option Z;
  dv_releaseYear : option Z;
  dv_genre : option string;
  dv_rating : option string;
  dv_featured : option bool;
  dv_createdAt : option string
}.

(** The item written to [StreamingVideos]; [it_createdAt] is the clock
    value whose ISO string is stored. *)
Record VideoItem : Type := {
  it_id : string;
  it_title : string;
  it_description : string;
  it_thumbnailKey : string;
  it_videoKey : string;
  it_genre : string;
  it_releaseYear : Z;
  it_duration : Z;
  it_rating : string;
  it_createdAt : Z
}.

(** What [requestTranscodeJob] returns. *)
Record TranscodeResult : Type := {
  tr_success : bool;
  tr_dev : bool;
  tr_message : string;
  tr_videoId : option string
}.

(** The item written to [Watchlist] or [WatchHistory]: the numbers whose
    strings are stored, the clock value whose ISO string is stored, and
    the starting progress of a history entry. *)
Record WatchItem : Type := {
  wi_userId : Z;
  wi_videoId : Z;
  wi_at : Z;
  wi_progress : option Z
}.

(** ** The collaborators

    Calls to the two stores and to the signers are recorded, in order. *)
Inductive Call : Type :=
| ListVideos (prefix : string)
| GetAllVideos
| GetSignedVideoUrl (key : string)
| PutItem (table : string) (item : VideoItem)
| PutWatchItem (table : string) (item : WatchItem)
| CloudFrontGetSignedUrl (key : string)
| Fetch (url : string) (range : option string).

(** [listVideos], [extractMovieInfo] and [getSignedVideoUrl] of
    [./s3], [getAllVideos] and [putItem] of [./dynamodb], the clock, the
    random numbers, the case mapping of the engine and the process
    environment. *)
Record Services (W : Type) : Type := {
  Date_now : W -> Z * W;
  (** [String.prototype.toLowerCase] on a string that has a character
      outside ASCII. *)
  String_toLowerCase : string -> string;
  (** [Math.floor(Math.random() * n)] *)
  Math_floor_random : N -> W -> N * W;
  (** [process.env.NODE_ENV] *)
  NODE_ENV : option string;
  extractMovieInfo : string -> option MovieInfo;
  listVideos : string -> W -> Res (list S3File) * W;
  getDynamoVideos : W -> Res (option (list DynamoVideo)) * W;
  getSignedVideoUrl : string -> W -> Res (option string) * W;
  putItem : string -> VideoItem -> W -> Res unit * W
}.

(** The world with the record of the calls made on it. *)
Record IO (W : Type) : Type := { world : W; calls : list Call }.

(** The module state of the content service on top of it. *)
Record Service (W : Type) : Type := {
  io : IO W;
  videosCache : list ProcessedVideo;
  lastCacheRefresh : Z
}.

(* ================================================================== *)
(** * server/services/content-service.ts *)

Section ContentService.
Context {W : Type} (env : Services W).

(** ** Calls to the collaborators *)

Definition external {A} (c : Call) (op : W -> Res A * W) : M (IO W) A :=
  fun s =>
    let (r, w) := op (world s) in
    (r, {| world := w; calls := (calls s ++ [c])%list |}).

Definition now : M (IO W) Z :=
  fun s =>
    let (t, w) := Date_now env (world s) in
    (OK t, {| world := w; calls := calls s |}).

Definition floorRandom (n : N) : M (IO W) N :=
  fun s =>
    let (x, w) := Math_floor_random env n (world s) in
    (OK x, {| world := w; calls := calls s |}).

Definition callListVideos (prefix : string) : M (IO W) (list S3File) :=
  external (ListVideos prefix) (listVideos env prefix).

Definition callGetDynamoVideos : M (IO W) (option (list DynamoVideo)) :=
  external GetAllVideos (getDynamoVideos env).

Definition callGetSignedVideoUrl (key : string) : M (IO W) (option string) :=
  external (GetSignedVideoUrl key) (getSignedVideoUrl env key).

Definition callPutItem (table : string) (item : VideoItem) : M (IO W) unit :=
  external (PutItem table item) (putItem env table item).

(** [process.env.NODE_ENV !== 'development'] *)
Definition notDevelopment : bool :=
  match NODE_ENV env with
  | Some v => negb (String.eqb v "development")
  | None => true
  end.

(** A computation on the world, run inside the service: it neither
    reads nor writes the module variables. *)
Definition liftIO {A} (m : M (IO W) A) : M (Service W) A :=
  fun s =>
    let (r, i) := m (io s) in
    (r, {| io := i;
           videosCache := videosCache s;
           lastCacheRefresh := lastCacheRefresh s |}).

Definition CACHE_TTL : Z := 60 * 1000.

(** ** [refreshCache]: grouping the listing (lines 52-73) *)

Definition groupFile (movieMap : JS.JSMap Movie) (file : S3File) : JS.JSMap Movie :=
  match extractMovieInfo env (JS.orString (f_key file) "") with
  | None => movieMap
  | Some movieInfo =>
      let movieId := mi_id movieInfo in
      let movieMap :=
        if negb (JS.has movieId movieMap) then
          JS.set movieId
            {| m_id := movieId;
               m_title := mi_title movieInfo;
               m_genre := mi_genre movieInfo;
               m_files := [] |}
            movieMap
        else movieMap in
      JS.mutate movieId
        (fun movie =>
           {| m_id := m_id movie;
              m_title := m_title movie;
              m_genre := m_genre movie;
              m_files := (m_files movie
                          ++ [{| mf_type := mi_fileType movieInfo;
                                 mf_key := f_key file;
                                 mf_url := f_url file |}])%list |})
        movieMap
  end.

Definition groupFiles (s3Videos : list S3File) : JS.JSMap Movie :=
  fold_left groupFile s3Videos [].

(** ** [refreshCache]: one asset per group with a video (lines 76-126) *)

Definition thumbnailOf (movie : Movie) : option MovieFile :=
  find (fun f => String.eqb (mf_type f) "png") (m_files movie).

Definition videoOf (movie : Movie) : option MovieFile :=
  find (fun f => String.eqb (mf_type f) "mp4") (m_files movie).

Definition s3Processed (movie : Movie) (thumbnailFile : option MovieFile)
    (videoFile : MovieFile) (videoUrl : option string) (created : Z)
    : ProcessedVideo :=
  {| id := m_id movie;
     title := JS.orString (Some (m_title movie)) "Untitled";
     description := m_genre movie ++ " movie: " ++ m_title movie;
     thumbnailUrl := match thumbnailFile with
                     | Some t => mf_key t
                     | None => None
                     end;
     videoUrl := videoUrl;
     hlsUrl := JS.orString (mf_key videoFile) "";
     duration := 120;
     releaseYear := 2023;
     genre := JS.orString (Some (m_genre movie)) "Unknown";
     rating := "PG-13";
     featured := String.eqb (m_id movie) "1";
     category := JS.orString (Some (m_genre movie)) "General";
     createdAt := DateOfClock created |}.

Definition s3Item (movie : Movie) (thumbnailFile : option MovieFile)
    (videoFile : MovieFile) (processedVideo : ProcessedVideo) (created : Z)
    : VideoItem :=
  {| it_id := m_id movie;
     it_title := title processedVideo;
     it_description := description processedVideo;
     it_thumbnailKey :=
       JS.orString (match thumbnailFile with
                    | Some t => mf_key t
                    | None => None
                    end) "";
     it_videoKey := JS.orString (mf_key videoFile) "";
     it_genre := genre processedVideo;
     it_releaseYear := releaseYear processedVideo;
     it_duration := duration processedVideo;
     it_rating := rating processedVideo;
     it_createdAt := created |}.

Definition processMovie (movie : Movie) (processedVideos : list ProcessedVideo)
    : M (IO W) (list ProcessedVideo) :=
  let thumbnailFile := thumbnailOf movie in
  match videoOf movie with
  | Some videoFile =>
      videoUrl <- match JS.truthyString (mf_key videoFile) with
                  | Some key => callGetSignedVideoUrl key
                  | None => ret None
                  end ;;
      created <- now ;;
      let processedVideo :=
        s3Processed movie thumbnailFile videoFile videoUrl created in
      let processedVideos := (processedVideos ++ [processedVideo])%list in
      tryCatch
        (if notDevelopment then
           stamp <- now ;;
           callPutItem "StreamingVideos"
             (s3Item movie thumbnailFile videoFile processedVideo stamp)
         else ret tt)
        (fun _ => ret tt) ;;
      ret processedVideos
  | None => ret processedVideos
  end.

(** ** [refreshCache]: merging the records (lines 129-156) *)

Definition dynamoProcessed (dynamoVideo : DynamoVideo)
    (videoUrl : option string) (created : JSDate) : ProcessedVideo :=
  {| id := dv_id dynamoVideo;
     title := JS.orString (dv_title dynamoVideo) "Untitled";
     description := JS.orString (dv_description dynamoVideo) "No description";
     thumbnailUrl := JS.truthyString (dv_thumbnailKey dynamoVideo);
     videoUrl := videoUrl;
     hlsUrl := JS.orString (dv_videoKey dynamoVideo) "";
     duration := JS.orNumber (dv_duration dynamoVideo) 0;
     releaseYear := JS.orNumber (dv_releaseYear dynamoVideo) 2023;
     genre := JS.orString (dv_genre dynamoVideo) "Unknown";
     rating := JS.orString (dv_rating dynamoVideo) "PG-13";
     featured := JS.orBool (dv_featured dynamoVideo) false;
     category := JS.orString (dv_genre dynamoVideo) "General";
     createdAt := created |}.

Definition mergeDynamo (dynamoVideo : DynamoVideo)
    (processedVideos : list ProcessedVideo) : M (IO W) (list ProcessedVideo) :=
  if existsb (fun v => String.eqb (id v) (dv_id dynamoVideo)) processedVideos
  then ret processedVideos
  else
    videoUrl <- match JS.truthyString (dv_videoKey dynamoVideo) with
                | Some key => callGetSignedVideoUrl key
                | None => ret None
                end ;;
    created <- match JS.truthyString (dv_createdAt dynamoVideo) with
               | Some s => ret (DateOfString s)
               | None => t <- now ;; ret (DateOfClock t)
               end ;;
    ret (processedVideos ++ [dynamoProcessed dynamoVideo videoUrl created])%list.

(** ** [refreshCache]: the pass (lines 45-156) and the gate *)

Definition buildCatalog : M (IO W) (list ProcessedVideo) :=
  s3Videos <- callListVideos "movies/" ;;
  dynamoVideos <- callGetDynamoVideos ;;
  let movieMap := groupFiles s3Videos in
  processedVideos <- forOf (JS.values movieMap) processMovie [] ;;
  match dynamoVideos with
  | Some (d :: ds) => forOf (d :: ds) mergeDynamo processedVideos
  | _ => ret processedVideos
  end.

Definition refreshCache : M (Service W) unit :=
  t <- liftIO now ;;
  cache <- gets (@videosCache W) ;;
  last <- gets (@lastCacheRefresh W) ;;
  if (t - last <? CACHE_TTL) && (0 <? Z.of_nat (List.length cache)) then ret tt
  else
    tryCatch
      (processedVideos <- liftIO buildCatalog ;;
       modify (fun s => {| io := io s;
                           videosCache := processedVideos;
                           lastCacheRefresh := t |}))
      (fun _ => ret tt).

(** ** The queries (lines 169-311) *)

Definition toVideo (video : ProcessedVideo) : Video :=
  {| v_id := JS.parseInt (id video);
     v_title := title video;
     v_description := description video;
     v_thumbnailUrl := JS.orString (thumbnailUrl video) "";
     v_videoUrl := JS.orString (videoUrl video) "";
     v_hlsUrl := hlsUrl video;
     v_duration := duration video;
     v_releaseYear := releaseYear video;
     v_genre := genre video;
     v_rating := rating video;
     v_featured := featured video;
     v_category := category video;
     v_createdAt := createdAt video |}.

Definition getFeaturedContent (userId : Z) : M (Service W) FeaturedContent :=
  refreshCache ;;
  cache <- gets (@videosCache W) ;;
  let featuredVideo :=
    match find featured cache with
    | Some v => Some v
    | None => nth_error cache 0
    end in
  match featuredVideo with
  | None => throw (Error "No videos available")
  | Some featuredVideo =>
      ret {| fc_video := toVideo featuredVideo; fc_match := 95 |}
  end.

Definition addMatch (video : ProcessedVideo) : M (IO W) VideoWithMatch :=
  r <- floorRandom 30 ;;
  ret {| vm_video := toVideo video; vm_match := Z.of_N r + 70 |}.

Definition categorize (video : ProcessedVideo)
    (categoriesMap : JS.JSMap (list VideoWithMatch))
    : M (IO W) (JS.JSMap (list VideoWithMatch)) :=
  let category := category video in
  let categoriesMap :=
    if negb (JS.has category categoriesMap)
    then JS.set category [] categoriesMap
    else categoriesMap in
  entry <- addMatch video ;;
  ret (JS.mutate category (fun videos => (videos ++ [entry])%list) categoriesMap).

Fixpoint numberCategories (categoryId : Z)
    (es : list (string * list VideoWithMatch)) : list CategoryWithVideos :=
  match es with
  | [] => []
  | (categoryName, videos) :: r =>
      {| c_id := categoryId; c_title := categoryName; c_videos := videos |}
      :: numberCategories (categoryId + 1) r
  end.

Definition getContentCategories (userId : Z)
    : M (Service W) (list CategoryWithVideos) :=
  refreshCache ;;
  cache <- gets (@videosCache W) ;;
  categoriesMap <- liftIO (forOf cache categorize []) ;;
  ret (numberCategories 1 (JS.entries categoriesMap)).

Definition getVideoById (videoId : JS.Number) : M (Service W) (option Video) :=
  refreshCache ;;
  cache <- gets (@videosCache W) ;;
  match find (fun v => JS.strictEq (JS.parseInt (id v)) videoId) cache with
  | None => ret None
  | Some video => ret (Some (toVideo video))
  end.

Definition getRecommendedVideos (userId : Z)
    : M (Service W) (list VideoWithMatch) :=
  refreshCache ;;
  cache <- gets (@videosCache W) ;;
  liftIO (forOf cache (fun video acc => e <- addMatch video ;; ret (acc ++ [e])%list) []).

(** ** [requestTranscodeJob] (lines 379-441) *)

(** Line 386: the id read in the key, or a random one. *)
Definition chooseId (movieInfo : option MovieInfo) : M (IO W) string :=
  match JS.truthyString (option_map mi_id movieInfo) with
  | Some i => ret i
  | None => r <- floorRandom 10000 ;; ret (JS.numberToString r)
  end.

Definition uploadedVideo (movieInfo : option MovieInfo)
    (id title description s3Key : string) (videoUrl : option string)
    (created : Z) : ProcessedVideo :=
  {| id := id;
     title := title;
     description := description;
     thumbnailUrl := None;
     videoUrl := videoUrl;
     hlsUrl := s3Key;
     duration := 0;
     releaseYear := 2023;
     genre := JS.orString (option_map mi_genre movieInfo) "Unknown";
     rating := "NR";
     featured := false;
     category := JS.orString (option_map mi_genre movieInfo) "Uploads";
     createdAt := DateOfClock created |}.

Definition uploadedItem (movieInfo : option MovieInfo)
    (id title description s3Key : string) (stamp : Z) : VideoItem :=
  {| it_id := id;
     it_title := title;
     it_description := description;
     it_thumbnailKey := "";
     it_videoKey := s3Key;
     it_genre := JS.orString (option_map mi_genre movieInfo) "Unknown";
     it_releaseYear := 2023;
     it_duration := 0;
     it_rating := "NR";
     it_createdAt := stamp |}.

Definition processed (id : string) : TranscodeResult :=
  {| tr_success := true;
     tr_dev := false;
     tr_message := "Video processed successfully";
     tr_videoId := Some id |}.

Definition processedInDevelopment : TranscodeResult :=
  {| tr_success := true;
     tr_dev := true;
     tr_message := "Video processed in development mode";
     tr_videoId := None |}.

Definition requestTranscodeJob (title description s3Key : string)
    : M (Service W) TranscodeResult :=
  tryCatch
    (let movieInfo := extractMovieInfo env s3Key in
     id <- liftIO (chooseId movieInfo) ;;
     videoUrl <- liftIO (callGetSignedVideoUrl s3Key) ;;
     created <- liftIO now ;;
     let newVideo :=
       uploadedVideo movieInfo id title description s3Key videoUrl created in
     modify (fun s => {| io := io s;
                         videosCache := (videosCache s ++ [newVideo])%list;
                         lastCacheRefresh := lastCacheRefresh s |}) ;;
     (if notDevelopment then
        stamp <- liftIO now ;;
        liftIO (callPutItem "StreamingVideos"
                  (uploadedItem movieInfo id title description s3Key stamp))
      else ret tt) ;;
     ret (processed id))
    (fun error =>
       if negb notDevelopment then ret processedInDevelopment
       else throw error).

End ContentService.

(* ================================================================== *)
(** * The streaming route: [app.get('/api/content/stream/:key')] *)

(** What [node-fetch] resolves to, as far as the route reads it.
    [r_text] is the outcome of [await response.text()], which reads the
    body and can reject. *)
Record FetchResponse : Type := {
  r_status : Z;
  r_contentType : option string;
  r_contentRange : option string;
  r_contentLength : option string;
  r_body : option string;
  r_text : Res string
}.

(** [response.ok] *)
Definition r_ok (r : FetchResponse) : bool :=
  (200 <=? r_status r) && (r_status r <=? 299).

(** How the handler hands the body over: an object given to [res.json],
    or a stream piped into the response. *)
Inductive Body : Type :=
| Json (message : string) (detail : option string)
| Piped (stream : string).

(** What the handler does to the response object of the web framework:
    the code it sets with [res.status], the headers it sets with
    [res.setHeader] and the body it hands over.  The framework is not
    part of the program: what [res.json] adds when it serialises the
    object (the content type with its character set, the length, the
    entity tag) is not recorded. *)
Record Response : Type := {
  statusCode : Z;
  headers : list (string * string);
  sent : option Body
}.

Definition freshResponse : Response :=
  {| statusCode := 200; headers := []; sent := None |}.

(** The edge signer ([cloudFrontService] of [./aws] with
    [process.env.AWS_CLOUDFRONT_DOMAIN]) and the HTTP client. *)
Record Network (W : Type) : Type := {
  cloudFrontService : option (string -> W -> Res string * W);
  AWS_CLOUDFRONT_DOMAIN : option string;
  fetch : string -> option string -> W -> Res FetchResponse * W
}.

Record Handler (W : Type) : Type := { h_io : IO W; res : Response }.

Section StreamRoute.
Context {W : Type} (env : Services W) (net : Network W).

Definition liftH {A} (m : M (IO W) A) : M (Handler W) A :=
  fun s =>
    let (r, i) := m (h_io s) in
    (r, {| h_io := i; res := res s |}).

Definition liftRes {A} (r : Res A) : M (Handler W) A :=
  fun s => (r, s).

(** [res.status(code)] *)
Definition status (code : Z) : M (Handler W) unit :=
  modify (fun s =>
    {| h_io := h_io s;
       res := {| statusCode := code;
                 headers := headers (res s);
                 sent := sent (res s) |} |}).

(** [res.setHeader(name, value)] *)
Definition setHeader (name value : string) : M (Handler W) unit :=
  modify (fun s =>
    {| h_io := h_io s;
       res := {| statusCode := statusCode (res s);
                 headers := JS.set name value (headers (res s));
                 sent := sent (res s) |} |}).

Definition send (b : Body) : M (Handler W) unit :=
  modify (fun s =>
    {| h_io := h_io s;
       res := {| statusCode := statusCode (res s);
                 headers := headers (res s);
                 sent := Some b |} |}).

(** [res.json(body)] *)
Definition json (message : string) (detail : option string) : M (Handler W) unit :=
  send (Json message detail).

Definition setCors : M (Handler W) unit :=
  setHeader "Access-Control-Allow-Origin" "*" ;;
  setHeader "Access-Control-Allow-Methods" "GET, OPTIONS" ;;
  setHeader "Access-Control-Allow-Headers" "Range, Content-Type".

Definition setContentType (response : FetchResponse) (contentType : string)
    : M (Handler W) unit :=
  match JS.truthyString (r_contentType response) with
  | Some contentTypeHeader => setHeader "Content-Type" contentTypeHeader
  | None => setHeader "Content-Type" contentType
  end.

Definition copyHeader (name : string) (value : option string) : M (Handler W) unit :=
  match JS.truthyString value with
  | Some v => setHeader name v
  | None => ret tt
  end.

Definition pipeOr (response : FetchResponse) (message : string) : M (Handler W) unit :=
  match r_body response with
  | Some stream => send (Piped stream)
  | None => status 500 ;; json message None
  end.

Definition callFetch (url : string) (range : option string) : M (Handler W) FetchResponse :=
  liftH (external (Fetch url range) (fetch net url range)).

(** Lines 370-374. *)
Definition decodeKey (key : string) : Res string :=
  resBind (JS.decodeURIComponent key) (fun decodedKey =>
    if JS.includes "%" decodedKey then JS.decodeURIComponent decodedKey
    else OK decodedKey).

(** Lines 378-385. *)
Definition extensionOf (finalKey : string) : string :=
  JS.toLowerCase (String_toLowerCase env) (JS.pop (JS.split "." finalKey)).

Definition contentTypeOf (fileExtension : string) : string :=
  if String.eqb fileExtension "png" then "image/png"
  else if String.eqb fileExtension "jpg" || String.eqb fileExtension "jpeg"
  then "image/jpeg"
  else if String.eqb fileExtension "mp4" then "video/mp4"
  else if String.eqb fileExtension "m3u8" then "application/vnd.apple.mpegurl"
  else if String.eqb fileExtension "ts" then "video/mp2t"
  else "application/octet-stream".

(** Lines 388-425, the body of the inner [try]: [true] when the route
    has answered and returns. *)
Definition cloudFrontTier (finalKey fileExtension contentType : string)
    : M (Handler W) bool :=
  match cloudFrontService net, JS.truthyString (AWS_CLOUDFRONT_DOMAIN net) with
  | Some getSignedUrl, Some _ =>
      if String.eqb fileExtension "m3u8" || String.eqb fileExtension "ts"
         || String.eqb fileExtension "mp4"
      then
        signedUrl <- liftH (external (CloudFrontGetSignedUrl finalKey)
                              (getSignedUrl finalKey)) ;;
        response <- callFetch signedUrl None ;;
        status (r_status response) ;;
        setCors ;;
        setContentType response contentType ;;
        pipeOr response "No response body from CloudFront" ;;
        ret true
      else ret false
  | _, _ => ret false
  end.

(** Lines 432-488. *)
Definition rangeTier (finalKey contentType range : string) : M (Handler W) unit :=
  signedUrl <- liftH (callGetSignedVideoUrl env finalKey) ;;
  match JS.truthyString signedUrl with
  | None => status 404 ;; json "Content not found" None
  | Some signedUrl =>
      tryCatch
        (response <- callFetch signedUrl (Some range) ;;
         status (r_status response) ;;
         setCors ;;
         copyHeader "Content-Range" (r_contentRange response) ;;
         copyHeader "Content-Length" (r_contentLength response) ;;
         setContentType response contentType ;;
         setHeader "Accept-Ranges" "bytes" ;;
         pipeOr response "No response body from S3")
        (fun _ => status 500 ;; json "Error streaming video content" None)
  end.

(** Lines 491-544. *)
Definition fullTier (finalKey contentType : string) : M (Handler W) unit :=
  signedUrl <- liftH (callGetSignedVideoUrl env finalKey) ;;
  match JS.truthyString signedUrl with
  | None => status 404 ;; json "Content not found" None
  | Some signedUrl =>
      tryCatch
        (response <- callFetch signedUrl None ;;
         if negb (r_ok response) then
           status (r_status response) ;;
           details <- liftRes (r_text response) ;;
           json ("S3 returned status "
                 ++ JS.numberToString (Z.to_N (r_status response)))
                (Some details)
         else
           status (r_status response) ;;
           setCors ;;
           copyHeader "Content-Length" (r_contentLength response) ;;
           setContentType response contentType ;;
           setHeader "Cache-Control" "public, max-age=31536000" ;;
           pipeOr response "No response body from S3")
        (fun error =>
           status 500 ;;
           json "Error streaming content" (Some (exnString error)))
  end.

(** The tiers behind the edge tier. *)
Definition originTiers (finalKey fileExtension contentType : string)
    (range : option string) : M (Handler W) unit :=
  match JS.truthyString range with
  | Some r =>
      if String.eqb fileExtension "mp4" || String.eqb fileExtension "webm"
      then rangeTier finalKey contentType r
      else fullTier finalKey contentType
  | None => fullTier finalKey contentType
  end.

(** The outer [catch] of the route. *)
Definition failed (error : Exn) : M (Handler W) unit :=
  status 500 ;; json "Failed to stream content" (Some (exnString error)).

Definition streamContent (key : string) (range : option string) : M (Handler W) unit :=
  tryCatch
    (if String.eqb key "" then status 400 ;; json "Content key is required" None
     else
       finalKey <- liftRes (decodeKey key) ;;
       let fileExtension := extensionOf finalKey in
       let contentType := contentTypeOf fileExtension in
       answered <- tryCatch (cloudFrontTier finalKey fileExtension contentType)
                     (fun _ => ret false) ;;
       if answered then ret tt
       else originTiers finalKey fileExtension contentType range)
    failed.

End StreamRoute.

(* ================================================================== *)
(** * Vocabulary of the statements *)

Section Runs.
Context {W : Type} (env : Services W).

(** The clock value a call reads first, and the world it leaves. *)
Definition clockOf (i : IO W) : Z := fst (Date_now env (world i)).

Definition ticked (i : IO W) : IO W :=
  {| world := snd (Date_now env (world i)); calls := calls i |}.

(** [true] when the gate of [refreshCache] lets the call return at once. *)
Definition fresh (s : Service W) : bool :=
  (clockOf (io s) - lastCacheRefresh s <? CACHE_TTL)
  && (0 <? Z.of_nat (List.length (videosCache s))).

Definition withIO (s : Service W) (i : IO W) : Service W :=
  {| io := i;
     videosCache := videosCache s;
     lastCacheRefresh := lastCacheRefresh s |}.

(** The state [refreshCache] leaves (lemma [refreshCache_run]). *)
Definition refreshed (s : Service W) : Service W :=
  if fresh s then withIO s (ticked (io s))
  else
    match buildCatalog env (ticked (io s)) with
    | (OK processedVideos, i) =>
        {| io := i;
           videosCache := processedVideos;
           lastCacheRefresh := clockOf (io s) |}
    | (Throw _, i) => withIO s i
    end.

(** What [getFeaturedContent] picks in a snapshot. *)
Definition pickFeatured (cache : list ProcessedVideo) : option ProcessedVideo :=
  match find featured cache with
  | Some v => Some v
  | None => nth_error cache 0
  end.

(** [video] has, field by field, what the queries copy from the asset
    [v] (lines 180-194). *)
Definition presents (v : ProcessedVideo) (video : Video) : Prop :=
  v_id video = JS.parseInt (id v)
  /\ v_title video = title v
  /\ v_description video = description v
  /\ v_thumbnailUrl video = JS.orString (thumbnailUrl v) ""
  /\ v_videoUrl video = JS.orString (videoUrl v) ""
  /\ v_hlsUrl video = hlsUrl v
  /\ v_duration video = duration v
  /\ v_releaseYear video = releaseYear v
  /\ v_genre video = genre v
  /\ v_rating video = rating v
  /\ v_featured video = featured v
  /\ v_category video = category v
  /\ v_createdAt video = createdAt v.

Definition hasVideo (movie : Movie) : bool :=
  match videoOf movie with Some _ => true | None => false end.

(** [v] is the asset the pass builds for the group [movie]. *)
Definition builtFrom (movie : Movie) (v : ProcessedVideo) : Prop :=
  exists videoFile videoUrl created,
    videoOf movie = Some videoFile
    /\ v = s3Processed movie (thumbnailOf movie) videoFile videoUrl created.

(** [v] is the asset the pass builds for the record [dynamoVideo]; no
    URL is signed for a record without a video key. *)
Definition mergedFrom (dynamoVideo : DynamoVideo) (v : ProcessedVideo) : Prop :=
  exists videoUrl created,
    v = dynamoProcessed dynamoVideo videoUrl created
    /\ (JS.truthyString (dv_videoKey dynamoVideo) = None -> videoUrl = None).

Definition recordsOf (dynamoVideos : option (list DynamoVideo)) : list DynamoVideo :=
  match dynamoVideos with Some l => l | None => [] end.

(** Every group is stored under its own id. *)
Definition keyed (m : JS.JSMap Movie) : Prop :=
  Forall (fun e => m_id (snd e) = fst e) m.

(** [m] lists the asset [v] under its category. *)
Definition listed (m : JS.JSMap (list VideoWithMatch)) (v : ProcessedVideo) : Prop :=
  exists videos e,
    In (category v, videos) m /\ In e videos /\ vm_video e = toVideo v.

(** The ids of the listing, in the order the pass meets them. *)
Definition listedIds (s3Videos : list S3File) : list string :=
  flat_map
    (fun file =>
       match extractMovieInfo env (JS.orString (f_key file) "") with
       | Some movieInfo => [mi_id movieInfo]
       | None => []
       end)
    s3Videos.

(** The route once the edge tier is behind it. *)
Definition behindEdge (net : Network W) (finalKey : string)
    (range : option string) : M (Handler W) unit :=
  tryCatch
    (originTiers env net finalKey (extensionOf env finalKey)
       (contentTypeOf (extensionOf env finalKey)) range)
    (failed (W := W)).

(** The extensions the edge tier serves. *)
Definition edgeServed (fileExtension : string) : bool :=
  String.eqb fileExtension "m3u8" || String.eqb fileExtension "ts"
  || String.eqb fileExtension "mp4".
End Runs.

(** The tokens [encodeURIComponent] produces, one per byte. *)
Definition tok (c : ascii) : JS.Token :=
  if JS.isUnreserved c then JS.Lit c else JS.Esc (N_of_ascii c).

Fixpoint toks (s : string) : list JS.Token :=
  match s with
  | EmptyString => []
  | String c r => tok c :: toks r
  end.

(* ================================================================== *)
(** * A scripted world for concrete runs

    The world is a clock that advances by one at every reading; the
    collaborators answer from a script.  [sc_keys] is the naming
    convention: what [extractMovieInfo] reads in each key. *)

Record Script : Type := {
  sc_keys : list (string * MovieInfo);
  sc_listing : Res (list S3File);
  sc_records : Res (option (list DynamoVideo));
  sc_sign : string -> Res (option string);
  sc_put : Res unit;
  sc_node_env : option string
}.

Definition scripted (sc : Script) : Services Z :=
  {| Date_now := fun w => (w, w + 1);
     String_toLowerCase := fun s => s;
     Math_floor_random := fun n w => (N.modulo (Z.to_N w) n, w);
     NODE_ENV := sc_node_env sc;
     extractMovieInfo := fun key => JS.get key (sc_keys sc);
     listVideos := fun _ w => (sc_listing sc, w);
     getDynamoVideos := fun w => (sc_records sc, w);
     getSignedVideoUrl := fun key w => (sc_sign sc key, w);
     putItem := fun _ _ w => (sc_put sc, w) |}.

Definition info (i t g ty : string) : MovieInfo :=
  {| mi_id := i; mi_title := t; mi_genre := g; mi_fileType := ty |}.

Definition sampleKeys : list (string * MovieInfo) :=
  [ ("movies/1/poster.png", info "1" "One" "Drama" "png");
    ("movies/1/film.mp4", info "1" "One" "Drama" "mp4");
    ("movies/2/film.mp4", info "2" "Two" "Comedy" "mp4");
    ("movies/3/film.mp4", info "3" "Three" "Drama" "mp4") ].

Definition file (key : string) : S3File :=
  {| f_key := Some key; f_url := Some ("https://bucket/" ++ key) |}.

Definition signer (key : string) : Res (option string) :=
  OK (Some ("https://signed/" ++ key)).

Definition record (i : string) (videoKey : option string) (feat : option bool)
    : DynamoVideo :=
  {| dv_id := i;
     dv_title := Some ("Record " ++ i);
     dv_description := None;
     dv_thumbnailKey := None;
     dv_videoKey := videoKey;
     dv_duration := None;
     dv_releaseYear := None;
     dv_genre := None;
     dv_rating := None;
     dv_featured := feat;
     dv_createdAt := Some "2024-01-01T00:00:00.000Z" |}.

Definition script (listing : Res (list S3File))
    (records : Res (option (list DynamoVideo))) (put : Res unit)
    (nodeEnv : string) : Script :=
  {| sc_keys := sampleKeys;
     sc_listing := listing;
     sc_records := records;
     sc_sign := signer;
     sc_put := put;
     sc_node_env := Some nodeEnv |}.

(** A service that has never refreshed, at clock value [100000]. *)
Definition cold : Service Z :=
  {| io := {| world := 100000; calls := [] |};
     videosCache := [];
     lastCacheRefresh := 0 |}.

(** A service refreshed one second ago with the snapshot [cache]. *)
Definition warm (cache : list ProcessedVideo) : Service Z :=
  {| io := {| world := 100000; calls := [] |};
     videosCache := cache;
     lastCacheRefresh := 99000 |}.

Definition asset (i : string) (feat : bool) : ProcessedVideo :=
  {| id := i;
     title := "Asset " ++ i;
     description := "No description";
     thumbnailUrl := None;
     videoUrl := Some ("https://signed/" ++ i);
     hlsUrl := "movies/" ++ i ++ "/film.mp4";
     duration := 120;
     releaseYear := 2023;
     genre := "Drama";
     rating := "PG-13";
     featured := feat;
     category := "Drama";
     createdAt := DateOfClock 0 |}.

(** Both stores are down. *)
Definition outage : Script :=
  script (Throw (Error "listing unavailable"))
         (Throw (Error "table unavailable")) (OK tt) "production".

(** The listing has only the poster of movie 1; the table has a record
    with the same id. *)
Definition posterOnly : Script :=
  script (OK [file "movies/1/poster.png"])
         (OK (Some [record "1" (Some "uploads/one.mp4") None]))
         (OK tt) "production".

(** The listing has movies 2 and 3 and no movie 1. *)
Definition withoutMovieOne : Script :=
  script (OK [file "movies/2/film.mp4"; file "movies/3/film.mp4"])
         (OK None) (OK tt) "production".

(** The table has a record without a video key. *)
Definition keylessRecord : Script :=
  script (OK []) (OK (Some [record "9" None (Some true)])) (OK tt) "production".

(** Both sources answer; movie 1 is in both. *)
Definition bothSources : Script :=
  script (OK [file "movies/1/film.mp4"; file "movies/1/poster.png";
              file "movies/2/film.mp4"])
         (OK (Some [record "1" (Some "uploads/one.mp4") None;
                    record "movie-3" (Some "uploads/three.mp4") None]))
         (OK tt) "production".

(** The mirror write fails. *)
Definition mirrorDown (nodeEnv : string) : Script :=
  script (OK []) (OK None) (Throw (Error "table unavailable")) nodeEnv.

(** An edge whose signer, transport or upstream answers as scripted. *)
Definition edge (sign : string -> Res string) (answer : Res FetchResponse)
    : Network Z :=
  {| cloudFrontService := Some (fun key w => (sign key, w));
     AWS_CLOUDFRONT_DOMAIN := Some "cdn.example.net";
     fetch := fun url range w =>
                (if String.prefix "https://cdn.example.net/" url then answer
                 else OK {| r_status := 200;
                            r_contentType := Some "video/mp4";
                            r_contentRange := None;
                            r_contentLength := Some "5";
                            r_body := Some "bytes";
                            r_text := OK "bytes" |}, w) |}.

Definition edgeSigner (key : string) : Res string :=
  OK ("https://cdn.example.net/" ++ key).

Definition denied : FetchResponse :=
  {| r_status := 403;
     r_contentType := Some "application/xml";
     r_contentRange := None;
     r_contentLength := None;
     r_body := Some "AccessDenied";
     r_text := OK "AccessDenied" |}.

Definition request : Handler Z :=
  {| h_io := {| world := 0; calls := [] |}; res := freshResponse |}.

(** A service whose snapshot [cache] is older than the time to live. *)
Definition stale (cache : list ProcessedVideo) : Service Z :=
  {| io := {| world := 100000; calls := [] |};
     videosCache := cache;
     lastCacheRefresh := 0 |}.

Definition shelf : list ProcessedVideo := [asset "2" false; asset "1" true].

(** What the pass builds from [bothSources], and the world it leaves. *)
Definition bothSourcesCatalog : list ProcessedVideo :=
  Eval vm_compute in
    match fst (buildCatalog (scripted bothSources)
                 (ticked (scripted bothSources) (io cold))) with
    | OK l => l
    | Throw _ => []
    end.

Definition bothSourcesIO : IO Z :=
  Eval vm_compute in
    snd (buildCatalog (scripted bothSources)
           (ticked (scripted bothSources) (io cold))).

(** An edge signer without its private key. *)
Definition brokenSigner (key : string) : Res string :=
  Throw (Error "private key missing").

(* ================================================================== *)
(** * content-service.ts: watch list and history (lines 313-376) *)

(** [putItem] of [./dynamodb] on these tables. *)
Record WatchStore (W : Type) : Type := {
  putWatchItem : string -> WatchItem -> W -> Res unit * W
}.

(** [{ success: true }] and [{ success: true, dev: true }] *)
Record WatchResult : Type := { wr_success : bool; wr_dev : bool }.

Section Watch.
Context {W : Type} (env : Services W) (store : WatchStore W).

Definition callPutWatchItem (table : string) (item : WatchItem) : M (IO W) unit :=
  external (PutWatchItem table item) (putWatchItem store table item).

Definition watchFailed (error : Exn) : M (IO W) WatchResult :=
  if negb (notDevelopment env)
  then ret {| wr_success := true; wr_dev := true |}
  else throw error.

Definition addToWatchlist (userId videoId : Z) : M (IO W) WatchResult :=
  tryCatch
    ((if notDevelopment env then
        stamp <- now env ;;
        callPutWatchItem "Watchlist"
          {| wi_userId := userId;
             wi_videoId := videoId;
             wi_at := stamp;
             wi_progress := None |}
      else ret tt) ;;
     ret {| wr_success := true; wr_dev := false |})
    watchFailed.

Definition removeFromWatchlist (userId videoId : Z) : M (IO W) WatchResult :=
  tryCatch (ret {| wr_success := true; wr_dev := false |}) watchFailed.

Definition updateWatchHistory (userId videoId : Z) : M (IO W) WatchResult :=
  tryCatch
    ((if notDevelopment env then
        stamp <- now env ;;
        callPutWatchItem "WatchHistory"
          {| wi_userId := userId;
             wi_videoId := videoId;
             wi_at := stamp;
             wi_progress := Some 0 |}
      else ret tt) ;;
     ret {| wr_success := true; wr_dev := false |})
    watchFailed.

End Watch.

(* ================================================================== *)
(** * The content routes behind the authentication middleware

    [app.get('/api/content/featured')], [app.get('/api/content/video/:id')]
    and [app.post('/api/content/transcode')], from the point where
    [requireAuth] has called [next]. *)

Inductive ApiBody : Type :=
| ApiMessage (message : string)
| ApiVideo (video : Video)
| ApiFeatured (featuredContent : FeaturedContent)
| ApiTranscode (job : TranscodeResult).

Record ApiResponse : Type := { api_status : Z; api_body : option ApiBody }.

Definition freshApiResponse : ApiResponse :=
  {| api_status := 200; api_body := None |}.

Record Api (W : Type) : Type := { a_service : Service W; a_res : ApiResponse }.

Section ApiRoutes.
Context {W : Type} (env : Services W).

Definition liftS {A} (m : M (Service W) A) : M (Api W) A :=
  fun s =>
    let (r, v) := m (a_service s) in
    (r, {| a_service := v; a_res := a_res s |}).

(** [res.json(body)] *)
Definition apiJson (body : ApiBody) : M (Api W) unit :=
  modify (fun s =>
    {| a_service := a_service s;
       a_res := {| api_status := api_status (a_res s); api_body := Some body |} |}).

(** [res.status(code).json({ message })] *)
Definition apiError (code : Z) (message : string) : M (Api W) unit :=
  modify (fun s =>
    {| a_service := a_service s;
       a_res := {| api_status := code; api_body := Some (ApiMessage message) |} |}).

(** [isNaN(n)] *)
Definition isNaN (n : JS.Number) : bool :=
  match n with JS.NaN => true | _ => false end.


(** Lines 118-137. *)
Definition videoRoute (idParam : string) : M (Api W) unit :=
  tryCatch
    (let videoId := JS.parseInt idParam in
     if isNaN videoId then apiError 400 "Invalid video ID"
     else
       video <- liftS (getVideoById env videoId) ;;
       match video with
       | None => apiError 404 "Video not found"
       | Some video => apiJson (ApiVideo video)
       end)
    (fun _ => apiError 500 "Failed to retrieve video").

(** Lines 228-242; a field of the body is a string or is missing. *)
Definition transcodeRoute (title description s3Key : option string) : M (Api W) unit :=
  tryCatch
    (match JS.truthyString title, JS.truthyString description,
           JS.truthyString s3Key with
     | Some title, Some description, Some s3Key =>
         transcodeJob <- liftS (requestTranscodeJob env title description s3Key) ;;
         apiJson (ApiTranscode transcodeJob)
     | _, _, _ => apiError 400 "Title, description, and S3 key are required"
     end)
    (fun _ => apiError 500 "Failed to start transcode job").

End ApiRoutes.

(* ================================================================== *)
(** * The player: [getVideoType] of the video player component *)

Section Player.
(** The case mapping of the browser's engine on strings that have a
    character outside ASCII. *)
Variable unicodeLowerCase : string -> string.

Definition getVideoType (url : string) : string :=
  if String.eqb url "" then "video/mp4"
  else
    let extension :=
      JS.toLowerCase unicodeLowerCase
        (JS.pop (JS.split "." (hd EmptyString (JS.split "?" url)))) in
    if String.eqb extension "m3u8" then "application/x-mpegURL"
    else if String.eqb extension "mp4" then "video/mp4"
    else if String.eqb extension "webm" then "video/webm"
    else if String.eqb extension "ogv" then "video/ogg"
    else if JS.includes ".m3u8" url then "application/x-mpegURL"
    else if JS.includes ".mp4" url then "video/mp4"
    else if JS.includes ".webm" url then "video/webm"
    else if JS.includes ".ogv" url then "video/ogg"
    else if JS.includes "/api/content/stream/" url then "video/mp4"
    else "video/mp4".

End Player.

(* ================================================================== *)
(** * More vocabulary *)

Section MoreRuns.
Context {W : Type} (env : Services W).

(** The edge tier declines: no signer, no domain, or an extension it
    does not serve. *)
Definition edgeSkipped (net : Network W) (fileExtension : string) : bool :=
  match cloudFrontService net, JS.truthyString (AWS_CLOUDFRONT_DOMAIN net) with
  | Some _, Some _ => negb (edgeServed fileExtension)
  | _, _ => true
  end.

Definition isPutItem (c : Call) : bool :=
  match c with PutItem _ _ => true | _ => false end.

(** The calls a pass may make after the listing. *)
Definition isScanOrSign (c : Call) : bool :=
  match c with
  | GetAllVideos | GetSignedVideoUrl _ => true
  | _ => false
  end.

(** The calls a pass may add once the listing is called. *)
Definition passCall (c : Call) : Prop :=
  isScanOrSign c = true
  \/ (notDevelopment env = true /\ exists item, c = PutItem "StreamingVideos" item).

(** The file entry [groupFile] stores for a listed file. *)
Definition movieFileOf (movieInfo : MovieInfo) (file : S3File) : MovieFile :=
  {| mf_type := mi_fileType movieInfo;
     mf_key := f_key file;
     mf_url := f_url file |}.

(** The listed files [extractMovieInfo] reads with the id [k], as the
    entries [groupFile] stores, in listing order. *)
Definition filesWithId (k : string) (s3Videos : list S3File) : list MovieFile :=
  flat_map
    (fun file =>
       match extractMovieInfo env (JS.orString (f_key file) "") with
       | Some movieInfo =>
           if String.eqb (mi_id movieInfo) k then [movieFileOf movieInfo file]
           else []
       | None => []
       end)
    s3Videos.

(** The groups hold, under each id, the listed files of that id. *)
Definition grouped (m : JS.JSMap Movie) (done : list S3File) : Prop :=
  forall k,
    match JS.get k m with
    | Some movie =>
        m_id movie = k
        /\ m_files movie = filesWithId k done
        /\ m_files movie <> []
    | None => filesWithId k done = []
    end.

(** The categories of a snapshot in the order they are first met. *)
Fixpoint firstSeen (seen : list string) (cache : list ProcessedVideo) : list string :=
  match cache with
  | [] => []
  | v :: r =>
      if existsb (String.eqb (category v)) seen then firstSeen seen r
      else category v :: firstSeen (category v :: seen) r
  end.

Definition inCategory (k : string) (cache : list ProcessedVideo) : list ProcessedVideo :=
  filter (fun v => String.eqb (category v) k) cache.

(** The map of categories after the videos [done]. *)
Definition categorized (m : JS.JSMap (list VideoWithMatch))
    (done : list ProcessedVideo) : Prop :=
  NoDup (map fst m)
  /\ map fst m = firstSeen [] done
  /\ forall k,
       match JS.get k m with
       | Some videos =>
           videos <> []
           /\ map (@vm_video) videos = map toVideo (inCategory k done)
       | None => inCategory k done = []
       end.

(** [n], [n + 1], ... *)
Fixpoint countFrom (n : Z) (len : nat) : list Z :=
  match len with
  | O => []
  | S len' => n :: countFrom (n + 1) len'
  end.
End MoreRuns.

(** [c] does not occur in [s]. *)
Fixpoint lacks (c : ascii) (s : string) : bool :=
  match s with
  | EmptyString => true
  | String a r => negb (Ascii.eqb a c) && lacks c r
  end.

(** The types [getVideoType] gives to the extensions it knows. *)
Definition knownType (extension : string) : option string :=
  if String.eqb extension "m3u8" then Some "application/x-mpegURL"
  else if String.eqb extension "mp4" then Some "video/mp4"
  else if String.eqb extension "webm" then Some "video/webm"
  else if String.eqb extension "ogv" then Some "video/ogg"
  else None.

(** The route takes the range tier. *)
Definition ranged (fileExtension : string) (range : option string) : option string :=
  match JS.truthyString range with
  | Some r =>
      if String.eqb fileExtension "mp4" || String.eqb fileExtension "webm"
      then Some r else None
  | None => None
  end.

(** [m] returns normally and has sent a body. *)
Definition Sends {W} (m : M (Handler W) unit) : Prop :=
  forall s, exists s', m s = (OK tt, s') /\ sent (res s') <> None.

(** When [m] returns normally a body has been sent. *)
Definition Answers {W A} (m : M (Handler W) A) : Prop :=
  forall s,
    match m s with
    | (OK _, s') => sent (res s') <> None
    | (Throw _, _) => True
    end.

(** When [m] returns [true] a body has been sent. *)
Definition AnswersTrue {W} (m : M (Handler W) bool) : Prop :=
  forall s,
    match m s with
    | (OK true, s') => sent (res s') <> None
    | _ => True
    end.

(** [m] makes no call and leaves the world as it is. *)
Definition Quiet {W A} (m : M (Handler W) A) : Prop :=
  forall s, h_io (snd (m s)) = h_io s.

(** The calls of the edge tier on a key: none, the edge signer alone, or
    the edge signer and one fetch, which carries no range. *)
Definition edgeLog (finalKey : string) (l : list Call) : Prop :=
  l = []
  \/ l = [CloudFrontGetSignedUrl finalKey]
  \/ exists url, l = [CloudFrontGetSignedUrl finalKey; Fetch url None].

(** The calls of the origin tiers on a key: none, the origin signer
    alone, or the origin signer and one fetch, which carries [forwarded]. *)
Definition originLog (finalKey : string) (forwarded : option string)
    (l : list Call) : Prop :=
  l = []
  \/ l = [GetSignedVideoUrl finalKey]
  \/ exists url, l = [GetSignedVideoUrl finalKey; Fetch url forwarded].

(** A table that throws and a table that accepts. *)
Definition watchDown : WatchStore Z :=
  {| putWatchItem := fun _ _ w => (Throw (Error "table unavailable"), w) |}.

Definition watchUp : WatchStore Z :=
  {| putWatchItem := fun _ _ w => (OK tt, w) |}.

(** A signer that throws on the film of movie 2 and signs every other
    key. *)
Definition oneKeyDown : Script :=
  {| sc_keys := sampleKeys;
     sc_listing := OK [file "movies/1/film.mp4"; file "movies/2/film.mp4";
                       file "movies/3/film.mp4"];
     sc_records := OK None;
     sc_sign := fun key =>
                  if String.eqb key "movies/2/film.mp4"
                  then Throw (Failure "AccessDenied" "not allowed to sign")
                  else signer key;
     sc_put := OK tt;
     sc_node_env := Some "production" |}.

(** An upstream answer whose body cannot be read. *)
Definition unreadable : FetchResponse :=
  {| r_status := 503;
     r_contentType := None;
     r_contentRange := None;
     r_contentLength := None;
     r_body := Some "";
     r_text := Throw (Failure "FetchError" "Premature close") |}.

(** A signer that throws. *)
Definition signerDown : Script :=
  {| sc_keys := sampleKeys;
     sc_listing := OK [file "movies/1/poster.png"; file "movies/1/film.mp4"];
     sc_records := OK None;
     sc_sign := fun _ => Throw (Error "signer unavailable");
     sc_put := OK tt;
     sc_node_env := Some "production" |}.

(** Both sources answer and the mirror write fails. *)
Definition mirrorDownListing : Script :=
  script (OK [file "movies/1/film.mp4"; file "movies/2/film.mp4"])
         (OK None) (Throw (Error "table unavailable")) "production".

Definition developmentListing : Script :=
  script (OK [file "movies/1/film.mp4"; file "movies/2/film.mp4"])
         (OK (Some [record "movie-3" (Some "uploads/three.mp4") None]))
         (OK tt) "development".

(** No edge. *)
Definition noEdge (answer : Res FetchResponse) : Network Z :=
  {| cloudFrontService := None;
     AWS_CLOUDFRONT_DOMAIN := None;
     fetch := fun _ _ w => (answer, w) |}.

Definition partial : FetchResponse :=
  {| r_status := 206;
     r_contentType := None;
     r_contentRange := Some "bytes 0-99/1000";
     r_contentLength := Some "100";
     r_body := Some "first hundred bytes";
     r_text := OK "first hundred bytes" |}.

Definition api (s : Service Z) : Api Z :=
  {| a_service := s; a_res := freshApiResponse |}.

(* ================================================================== *)
(** * The built-ins on examples *)

Example parseInt_plain : JS.parseInt "42" = JS.Num 42.
Proof. reflexivity. Qed.

Example parseInt_suffix : JS.parseInt "12abc" = JS.Num 12.
Proof. reflexivity. Qed.

Example parseInt_name : JS.parseInt "movie-3" = JS.NaN.
Proof. reflexivity. Qed.

Example parseInt_hex : JS.parseInt "0x1A" = JS.Num 26.
Proof. reflexivity. Qed.

Example parseInt_signed : JS.parseInt "  -7" = JS.Num (-7).
Proof. reflexivity. Qed.

Example parseInt_big : JS.parseInt "9007199254740993" = JS.Num 9007199254740992.
Proof. reflexivity. Qed.

Example extension_of :
  forall unicode,
    JS.toLowerCase unicode (JS.pop (JS.split "." "movies/1/a.b.MP4")) = "mp4".
Proof. reflexivity. Qed.

Example number_string : JS.numberToString 4071 = "4071".
Proof. reflexivity. Qed.

Example decode_once : JS.decodeURIComponent "movies%2F1%20a.mp4" = OK "movies/1 a.mp4".
Proof. reflexivity. Qed.

Example encode_once : JS.encodeURIComponent "movies/1 a.mp4" = "movies%2F1%20a.mp4".
Proof. reflexivity. Qed.

Example decode_bad : JS.decodeURIComponent "50%.mp4" = Throw URIError.
Proof. reflexivity. Qed.

(* ================================================================== *)
(** * Facts: percent-encoding *)

Section URIFacts.
Import JS.

Ltac boolp H :=
unfold validSeq2, validSeq3, validSeq4, isContinuation, inRange in H;
repeat rewrite ?andb_true_iff, ?orb_true_iff, ?N.leb_le, ?N.eqb_eq,
  ?N.ltb_lt, ?N.ltb_ge in H.

Lemma N_of_ascii_bound c : (N_of_ascii c < 256)%N.
Proof. destruct c as [[] [] [] [] [] [] [] []]; vm_compute; reflexivity. Qed.

Lemma hexVal_hexDigit n : (n < 16)%N -> hexVal (hexDigit n) = Some n.
Proof.
intros H.
assert (E : exists k, (k < 16)%nat /\ n = N.of_nat k).
{ exists (N.to_nat n). split; [lia | now rewrite N2Nat.id]. }
destruct E as (k & Hk & ->).
do 16 (destruct k as [|k]; [reflexivity|]). lia.
Qed.

Lemma unreserved_ascii c : isUnreserved c = true -> (N_of_ascii c < 128)%N.
Proof.
destruct c as [[] [] [] [] [] [] [] []]; vm_compute; intros H;
  first [reflexivity | discriminate H].
Qed.

Lemma unreserved_not_percent c : isUnreserved c = true -> Ascii.eqb c "%" = false.
Proof.
intros H. destruct (Ascii.eqb_spec c "%"%char) as [->|]; [discriminate H | reflexivity].
Qed.

Lemma tokens_percentEscape c r :
tokens (percentEscape c ++ r) = option_map (cons (Esc (N_of_ascii c))) (tokens r).
Proof.
unfold percentEscape. cbn [append tokens]. 
change (Ascii.eqb "%" "%") with true. cbv iota.
pose proof (N_of_ascii_bound c) as Hb.
rewrite !hexVal_hexDigit.
- f_equal. f_equal. f_equal. symmetry. apply N.div_mod'.
- apply N.mod_lt. discriminate.
- apply N.Div0.div_lt_upper_bound. exact Hb.
Qed.

Lemma tokens_encode s : tokens (encodeURIComponent s) = Some (toks s).
Proof.
induction s as [|c r IH]; [reflexivity|].
cbn [encodeURIComponent toks]. unfold tok.
destruct (isUnreserved c) eqn:U.
- cbn [tokens]. rewrite (unreserved_not_percent _ U), IH. reflexivity.
- rewrite tokens_percentEscape, IH. reflexivity.
Qed.

Lemma tok_high c : (128 <= N_of_ascii c)%N -> tok c = Esc (N_of_ascii c).
Proof.
intros H. unfold tok. destruct (isUnreserved c) eqn:U; [|reflexivity].
apply unreserved_ascii in U. lia.
Qed.

Lemma assemble_tok c r :
(N_of_ascii c < 128)%N ->
assemble (tok c :: r) = option_map (String c) (assemble r).
Proof.
intros H. unfold tok. destruct (isUnreserved c); [reflexivity|].
cbn [assemble]. apply N.ltb_lt in H. rewrite H.
unfold emit. cbn [fold_right]. rewrite ascii_N_embedding. reflexivity.
Qed.

Lemma assemble_toks_bounded n :
forall s, (String.length s <= n)%nat -> wellFormed s = true ->
          assemble (toks s) = Some s.
Proof.
induction n as [|n IH]; intros s Hn Hw.
- destruct s; [reflexivity | cbn in Hn; lia].
- destruct s as [|c r]; [reflexivity|].
  cbn [String.length] in Hn. cbn [wellFormed] in Hw. cbn [toks].
  destruct (N_of_ascii c <? 128)%N eqn:Hc.
  + apply N.ltb_lt in Hc. rewrite (assemble_tok _ _ Hc), IH; [reflexivity | lia | exact Hw].
  + apply N.ltb_ge in Hc. rewrite (tok_high _ Hc).
    cbn [assemble]. apply N.ltb_ge in Hc. rewrite Hc.
    destruct (leadingOnes (N_of_ascii c)) as [|[|[|[|[|k]]]]]; try discriminate Hw.
    * destruct r as [|c1 r1]; [discriminate Hw|].
      apply andb_true_iff in Hw. destruct Hw as [Hv Hw].
      cbn [toks String.length] in *.
      assert (H1 : (128 <= N_of_ascii c1)%N) by (boolp Hv; lia).
      rewrite (tok_high _ H1), Hv, IH by (lia || assumption).
      unfold emit. cbn. rewrite !ascii_N_embedding. reflexivity.
    * destruct r as [|c1 [|c2 r2]]; try discriminate Hw.
      apply andb_true_iff in Hw. destruct Hw as [Hv Hw].
      cbn [toks String.length] in *.
      assert (H1 : (128 <= N_of_ascii c1)%N /\ (128 <= N_of_ascii c2)%N)
        by (boolp Hv; lia).
      destruct H1 as [H1 H2].
      rewrite (tok_high _ H1), (tok_high _ H2), Hv, IH by (lia || assumption).
      unfold emit. cbn. rewrite !ascii_N_embedding. reflexivity.
    * destruct r as [|c1 [|c2 [|c3 r3]]]; try discriminate Hw.
      apply andb_true_iff in Hw. destruct Hw as [Hv Hw].
      cbn [toks String.length] in *.
      assert (H1 : (128 <= N_of_ascii c1)%N /\ (128 <= N_of_ascii c2)%N
                   /\ (128 <= N_of_ascii c3)%N)
        by (boolp Hv; lia).
      destruct H1 as (H1 & H2 & H3).
      rewrite (tok_high _ H1), (tok_high _ H2), (tok_high _ H3), Hv, IH
        by (lia || assumption).
      unfold emit. cbn. rewrite !ascii_N_embedding. reflexivity.
Qed.

(** [decodeURIComponent] undoes [encodeURIComponent]. *)
Lemma decode_encode s :
wellFormed s = true -> decodeURIComponent (encodeURIComponent s) = OK s.
Proof.
intros Hw. unfold decodeURIComponent.
rewrite tokens_encode, (@assemble_toks_bounded (String.length s)); auto.
Qed.


Lemma includes_percent c r :
includes "%" (String c r) = Ascii.eqb c "%" || includes "%" r.
Proof.
cbn [includes String.prefix].
destruct (ascii_dec "%" c) as [<-|Hn].
- destruct r; reflexivity.
- destruct (Ascii.eqb_spec c "%"%char) as [->|_]; [congruence | reflexivity].
Qed.

Lemma includes_percentEscape c r : includes "%" (percentEscape c ++ r) = true.
Proof. unfold percentEscape. cbn [append]. rewrite includes_percent. reflexivity. Qed.

(** An encoded key without ["%"] had nothing to escape. *)
Lemma encode_without_percent s :
includes "%" (encodeURIComponent s) = false -> encodeURIComponent s = s.
Proof.
induction s as [|c r IH]; [reflexivity|].
cbn [encodeURIComponent]. destruct (isUnreserved c).
- rewrite includes_percent. intros H. apply orb_false_iff in H.
  now rewrite IH.
- rewrite includes_percentEscape. discriminate.
Qed.

Lemma hexDigit_ascii n : (n < 16)%N -> (N_of_ascii (hexDigit n) < 128)%N.
Proof.
intros H.
assert (E : exists k, (k < 16)%nat /\ n = N.of_nat k).
{ exists (N.to_nat n). split; [lia | now rewrite N2Nat.id]. }
destruct E as (k & Hk & ->).
do 16 (destruct k as [|k]; [vm_compute; reflexivity|]). lia.
Qed.

(** The encoding is ASCII, hence a well-formed string. *)
Lemma encode_wellFormed s : wellFormed (encodeURIComponent s) = true.
Proof.
induction s as [|c r IH]; [reflexivity|].
cbn [encodeURIComponent]. destruct (isUnreserved c) eqn:U.
- cbn [wellFormed]. apply unreserved_ascii in U. apply N.ltb_lt in U.
  now rewrite U.
- unfold percentEscape. cbn [append wellFormed].
  pose proof (N_of_ascii_bound c) as Hb.
  assert (H1 : (N_of_ascii (hexDigit (N_of_ascii c / 16)) <? 128)%N = true).
  { apply N.ltb_lt, hexDigit_ascii, N.Div0.div_lt_upper_bound. exact Hb. }
  assert (H2 : (N_of_ascii (hexDigit (N_of_ascii c mod 16)) <? 128)%N = true).
  { apply N.ltb_lt, hexDigit_ascii, N.mod_lt. discriminate. }
  change (N_of_ascii "%" <? 128)%N with true. cbv iota.
  now rewrite H1, H2.
Qed.

Lemma decodeKey_twice_encoded k :
wellFormed k = true ->
decodeKey (encodeURIComponent (encodeURIComponent k)) = OK k.
Proof.
intros Hw. unfold decodeKey.
rewrite (decode_encode _ (encode_wellFormed k)). cbn [resBind].
destruct (includes "%" (encodeURIComponent k)) eqn:I.
- apply decode_encode, Hw.
- now rewrite (encode_without_percent _ I).
Qed.

Lemma decodeKey_once_encoded k :
wellFormed k = true -> includes "%" k = false ->
decodeKey (encodeURIComponent k) = OK k.
Proof.
intros Hw I. unfold decodeKey. rewrite (decode_encode _ Hw). cbn [resBind].
now rewrite I.
Qed.

Lemma encode_changed_has_percent k :
encodeURIComponent k <> k -> includes "%" (encodeURIComponent k) = true.
Proof.
intros H. destruct (includes "%" (encodeURIComponent k)) eqn:I; [reflexivity|].
now apply encode_without_percent in I.
Qed.

(** C7 (amended): the key decoding of the streaming route runs
  [decodeURIComponent] once or twice and nothing else.  For every
  well-formed key [k], the twice-encoded key decodes to [k], with a
  second pass whenever encoding changes [k]; the once-encoded key decodes
  to [k] when [k] contains no ["%"], the first pass then giving [k] and
  the second being skipped. *)
Theorem decodeKey_two_passes (k : string) :
wellFormed k = true ->
(forall key,
    decodeKey key = decodeURIComponent key
    \/ decodeKey key = resBind (decodeURIComponent key) decodeURIComponent)
/\ decodeKey (encodeURIComponent (encodeURIComponent k)) = OK k
/\ (encodeURIComponent k <> k ->
    decodeURIComponent (encodeURIComponent (encodeURIComponent k))
    = OK (encodeURIComponent k)
    /\ includes "%" (encodeURIComponent k) = true)
/\ (includes "%" k = false ->
    decodeURIComponent (encodeURIComponent k) = OK k
    /\ decodeKey (encodeURIComponent k) = OK k).
Proof.
intros Hw. repeat split.
- intros key. unfold decodeKey.
  destruct (decodeURIComponent key) as [d|e]; cbn [resBind]; [|now left].
  destruct (includes "%" d); [now right | now left].
- apply decodeKey_twice_encoded, Hw.
- apply decode_encode, encode_wellFormed.
- now apply encode_changed_has_percent.
- apply decode_encode, Hw.
- now apply decodeKey_once_encoded.
Qed.

Lemma decodeKey_two_passes_witness :
wellFormed "movies/1 a.mp4" = true
/\ decodeKey "movies%252F1%2520a.mp4" = OK "movies/1 a.mp4"
/\ decodeKey "movies%2F1%20a.mp4" = OK "movies/1 a.mp4".
Proof.
split; [reflexivity|].
destruct (decodeKey_two_passes "movies/1 a.mp4" eq_refl) as (_ & H2 & _ & H4).
split; [exact H2 | apply H4; reflexivity].
Defined.

(** C7, as stated, fails: a key that contains ["%"], encoded once, is
  given back by the first pass and then changed by the second. *)
Lemma once_encoded_key_changed_by_second_pass :
wellFormed "a%20b.mp4" = true
/\ encodeURIComponent "a%20b.mp4" = "a%2520b.mp4"
/\ decodeURIComponent "a%2520b.mp4" = OK "a%20b.mp4"
/\ decodeKey "a%2520b.mp4" = OK "a b.mp4"
/\ "a b.mp4" <> "a%20b.mp4".
Proof. repeat split; try reflexivity. discriminate. Qed.

(** Three encodings are one too many for the route. *)
Example decodeKey_thrice_encoded :
decodeKey (encodeURIComponent (encodeURIComponent (encodeURIComponent "a b")))
= OK "a%20b".
Proof. reflexivity. Qed.

(** A key that ends in a bare ["%"] makes the second pass throw. *)
Example decodeKey_bare_percent :
decodeKey (encodeURIComponent "50%.mp4") = Throw URIError.
Proof. reflexivity. Qed.

End URIFacts.

(* ================================================================== *)
(** * Facts: the content service *)

Section ContentServiceFacts.
Context {W : Type} (env : Services W).

Lemma now_run (i : IO W) : now env i = (OK (clockOf env i), ticked env i).
Proof. unfold now, clockOf, ticked. destruct (Date_now env (world i)); reflexivity. Qed.

Lemma refreshCache_run (s : Service W) :
  refreshCache env s = (OK tt, refreshed env s).
Proof.
  unfold refreshCache, refreshed, fresh, bind, liftIO, gets, tryCatch, modify, ret.
  rewrite now_run. cbn [io videosCache lastCacheRefresh].
  destruct ((clockOf env (io s) - lastCacheRefresh s <? CACHE_TTL)
            && (0 <? Z.of_nat (List.length (videosCache s)))); [reflexivity|].
  cbn [io]. destruct (buildCatalog env (ticked env (io s))) as [[p|e] i]; reflexivity.
Qed.

Lemma getFeaturedContent_run (userId : Z) (s : Service W) :
  getFeaturedContent env userId s =
  (match pickFeatured (videosCache (refreshed env s)) with
   | Some v => OK {| fc_video := toVideo v; fc_match := 95 |}
   | None => Throw (Error "No videos available")
   end, refreshed env s).
Proof.
  unfold getFeaturedContent, bind. rewrite refreshCache_run.
  unfold gets, pickFeatured.
  destruct (find featured (videosCache (refreshed env s))); [reflexivity|].
  destruct (nth_error (videosCache (refreshed env s)) 0); reflexivity.
Qed.

Lemma getVideoById_run (videoId : JS.Number) (s : Service W) :
  getVideoById env videoId s =
  (OK (option_map toVideo
         (find (fun v => JS.strictEq (JS.parseInt (id v)) videoId)
               (videosCache (refreshed env s)))),
   refreshed env s).
Proof.
  unfold getVideoById, bind. rewrite refreshCache_run. unfold gets.
  destruct (find _ (videosCache (refreshed env s))); reflexivity.
Qed.

Lemma NoDup_snoc {A} (l : list A) (x : A) :
  NoDup l -> ~ In x l -> NoDup (l ++ [x]).
Proof.
  intros Hl Hx. apply NoDup_app; [exact Hl | repeat constructor; intros [] |].
  intros a Ha [<-|[]]. exact (Hx Ha).
Qed.

(** *** The map of groups *)

Lemma has_In {V} k (m : JS.JSMap V) : JS.has k m = true <-> In k (map fst m).
Proof.
  unfold JS.has. rewrite existsb_exists, in_map_iff. split.
  - intros (e & He & Hk). apply String.eqb_eq in Hk. eauto.
  - intros (e & Hk & He). exists e. split; [exact He | apply String.eqb_eq; exact Hk].
Qed.

Lemma set_new {V} k (v : V) (m : JS.JSMap V) :
  JS.has k m = false -> JS.set k v m = (m ++ [(k, v)])%list.
Proof.
  induction m as [|[k' v'] r IH]; intros H; [reflexivity|].
  cbn in H |- *. apply orb_false_iff in H. destruct H as [H1 H2].
  rewrite H1, IH by exact H2. reflexivity.
Qed.

Lemma mutate_keys {V} k f (m : JS.JSMap V) :
  map fst (JS.mutate k f m) = map fst m.
Proof.
  induction m as [|[k' v'] r IH]; [reflexivity|].
  cbn. destruct (String.eqb k' k); cbn; [reflexivity | now rewrite IH].
Qed.

Lemma mutate_keyed k f (m : JS.JSMap Movie) :
  (forall v, m_id (f v) = m_id v) -> keyed m -> keyed (JS.mutate k f m).
Proof.
  intros Hf. induction m as [|[k' v'] r IH]; intros H; [constructor|].
  inversion H as [|? ? H1 H2]; subst. cbn [JS.mutate].
  destruct (String.eqb k' k); constructor; cbn [fst snd] in *.
  - rewrite Hf. exact H1.
  - exact H2.
  - exact H1.
  - apply IH, H2.
Qed.

Lemma groupFile_inv m file :
  NoDup (map fst m) /\ keyed m ->
  NoDup (map fst (groupFile env m file)) /\ keyed (groupFile env m file).
Proof.
  intros [Hn Hk]. unfold groupFile.
  destruct (extractMovieInfo env (JS.orString (f_key file) "")) as [info|]; [|auto].
  rewrite mutate_keys. split.
  - destruct (JS.has (mi_id info) m) eqn:H; cbn [negb]; [exact Hn|].
    rewrite set_new by exact H. rewrite map_app. cbn.
    apply NoDup_snoc; [exact Hn|].
    intros Hin. apply has_In in Hin. congruence.
  - apply mutate_keyed; [reflexivity|].
    destruct (JS.has (mi_id info) m) eqn:H; cbn [negb]; [exact Hk|].
    rewrite set_new by exact H. apply Forall_app. split; [exact Hk|].
    constructor; [reflexivity | constructor].
Qed.

Lemma groupFiles_inv_from files : forall m,
  NoDup (map fst m) /\ keyed m ->
  NoDup (map fst (fold_left (groupFile env) files m))
  /\ keyed (fold_left (groupFile env) files m).
Proof.
  induction files as [|f r IH]; intros m H; [exact H|].
  cbn. apply IH, groupFile_inv, H.
Qed.

Lemma groupFiles_ids s3Videos :
  NoDup (map m_id (JS.values (groupFiles env s3Videos))).
Proof.
  assert (H0 : NoDup (map fst (@nil (string * Movie))) /\ keyed [])
    by (split; constructor).
  destruct (@groupFiles_inv_from s3Videos [] H0) as [Hn Hk].
  fold (groupFiles env s3Videos) in Hn, Hk.
  unfold JS.values. rewrite map_map.
  erewrite map_ext_in; [exact Hn|].
  intros e He. unfold keyed in Hk. rewrite Forall_forall in Hk. auto.
Qed.

(** *** The two loops *)

Lemma mirror_run (b : bool) (m : M (IO W) unit) (i : IO W) :
  exists i', tryCatch (if b then m else ret tt) (fun _ => ret tt) i = (OK tt, i').
Proof.
  unfold tryCatch, ret. destruct b.
  - destruct (m i) as [[[]|e] i']; eauto.
  - eauto.
Qed.

Lemma processMovie_ok movie acc i acc' i' :
  processMovie env movie acc i = (OK acc', i') ->
  (hasVideo movie = false /\ acc' = acc)
  \/ (exists v, builtFrom movie v /\ acc' = (acc ++ [v])%list).
Proof.
  unfold processMovie, hasVideo, builtFrom.
  destruct (videoOf movie) as [videoFile|].
  - intros H. right. unfold bind in H.
    destruct (match JS.truthyString (mf_key videoFile) with
              | Some key => callGetSignedVideoUrl env key
              | None => ret None
              end i) as [[videoUrl|e] i1]; [|discriminate H].
    unfold now in H at 1.
    destruct (Date_now env (world i1)) as [created w1].
    match type of H with
    | context [tryCatch (if ?b then ?m else _) _ ?j] =>
        destruct (mirror_run b m j) as [i2 E]; rewrite E in H
    end.
    unfold ret in H. inversion H; subst.
    eexists. split; [|reflexivity].
    exists videoFile, videoUrl, created. split; reflexivity.
  - intros H. left. unfold ret in H. inversion H. auto.
Qed.

Lemma build_loop movies : forall acc i acc' i',
  forOf movies (processMovie env) acc i = (OK acc', i') ->
  exists built,
    acc' = (acc ++ built)%list
    /\ Forall2 builtFrom (filter hasVideo movies) built.
Proof.
  induction movies as [|movie r IH]; intros acc i acc' i' H.
  - cbn in H. unfold ret in H. inversion H; subst.
    exists []. rewrite app_nil_r. split; [reflexivity | constructor].
  - cbn [forOf] in H. unfold bind in H.
    destruct (processMovie env movie acc i) as [[acc1|e] i1] eqn:E; [|discriminate H].
    apply IH in H. destruct H as (built & -> & HB).
    apply processMovie_ok in E. cbn [filter].
    destruct E as [[Hv ->]|(v & Hb & ->)].
    + rewrite Hv. eauto.
    + assert (Hv : hasVideo movie = true).
      { destruct Hb as (vf & _ & _ & Hvf & _). unfold hasVideo. now rewrite Hvf. }
      rewrite Hv. exists (v :: built). rewrite <- app_assoc. split; [reflexivity|].
      constructor; assumption.
Qed.

Lemma mergeDynamo_ok dynamoVideo acc i acc' i' :
  mergeDynamo env dynamoVideo acc i = (OK acc', i') ->
  (In (dv_id dynamoVideo) (map id acc) /\ acc' = acc)
  \/ (~ In (dv_id dynamoVideo) (map id acc)
      /\ exists v, mergedFrom dynamoVideo v /\ acc' = (acc ++ [v])%list).
Proof.
  unfold mergeDynamo, mergedFrom.
  destruct (existsb (fun v => String.eqb (id v) (dv_id dynamoVideo)) acc) eqn:X.
  - intros H. left. unfold ret in H. inversion H; subst. split; [|reflexivity].
    apply existsb_exists in X. destruct X as (v & Hin & Hv).
    apply String.eqb_eq in Hv. rewrite <- Hv. apply in_map, Hin.
  - intros H. right. split.
    + intros Hin. apply in_map_iff in Hin. destruct Hin as (v & Hv & Hin).
      assert (T : existsb (fun v => String.eqb (id v) (dv_id dynamoVideo)) acc = true).
      { apply existsb_exists. exists v. split; [exact Hin | now apply String.eqb_eq]. }
      congruence.
    + unfold bind in H.
      destruct (match JS.truthyString (dv_videoKey dynamoVideo) with
                | Some key => callGetSignedVideoUrl env key
                | None => ret None
                end i) as [[videoUrl|e] i1] eqn:S; [|discriminate H].
      assert (Hu : JS.truthyString (dv_videoKey dynamoVideo) = None -> videoUrl = None).
      { intros K. rewrite K in S. unfold ret in S. now inversion S. }
      destruct (JS.truthyString (dv_createdAt dynamoVideo)).
      * unfold ret in H. inversion H; subst. eauto 6.
      * unfold bind, now, ret in H.
        destruct (Date_now env (world i1)). inversion H; subst. eauto 6.
Qed.

Lemma merge_loop dynamoVideos : forall acc i acc' i',
  forOf dynamoVideos (mergeDynamo env) acc i = (OK acc', i') ->
  exists added,
    acc' = (acc ++ added)%list
    /\ Forall (fun v => exists dv, In dv dynamoVideos /\ mergedFrom dv v) added
    /\ (NoDup (map id acc) -> NoDup (map id acc'))
    /\ (forall dv, In dv dynamoVideos -> In (dv_id dv) (map id acc')).
Proof.
  induction dynamoVideos as [|d r IH]; intros acc i acc' i' H.
  - cbn in H. unfold ret in H. inversion H; subst.
    exists []. rewrite app_nil_r. repeat split; auto. intros dv [].
  - cbn [forOf] in H. unfold bind in H.
    destruct (mergeDynamo env d acc i) as [[acc1|e] i1] eqn:E; [|discriminate H].
    apply IH in H. destruct H as (added & -> & HF & HN & HI).
    apply mergeDynamo_ok in E.
    destruct E as [[Hin ->]|(Hnin & v & Hv & ->)].
    + exists added. repeat split.
      * eapply Forall_impl; [|exact HF]. intros v (dv & Hdv & Hm).
        exists dv. split; [right; exact Hdv | exact Hm].
      * exact HN.
      * intros dv [<-|Hdv]; [|auto].
        rewrite map_app. apply in_or_app. left. exact Hin.
    + exists (v :: added). rewrite <- app_assoc. repeat split.
      * constructor.
        -- exists d. split; [left; reflexivity | exact Hv].
        -- eapply Forall_impl; [|exact HF]. intros v' (dv & Hdv & Hm).
           exists dv. split; [right; exact Hdv | exact Hm].
      * intros Hn. rewrite app_assoc. apply HN.
        rewrite map_app. cbn. apply NoDup_snoc; [exact Hn|].
        destruct Hv as (u & c & -> & _). exact Hnin.
      * intros dv [<-|Hdv].
        -- rewrite !map_app. apply in_or_app. right. left.
           destruct Hv as (u & c & -> & _). reflexivity.
        -- rewrite app_assoc. auto.
Qed.

Lemma kept_groups_distinct (keep : Movie -> bool) (movies : list Movie) :
  NoDup (map m_id movies) -> NoDup (map m_id (filter keep movies)).
Proof.
  intros Hn. induction movies as [|movie r IH]; [constructor|].
  cbn in Hn |- *. inversion Hn as [|? ? Hm Hr]; subst.
  destruct (keep movie); [|auto]. cbn. constructor; [|auto].
  intros Hin. apply Hm. apply in_map_iff in Hin. destruct Hin as (x & Hx & Hin).
  apply filter_In in Hin. rewrite <- Hx. apply in_map, Hin.
Qed.

Lemma built_ids movies built :
  Forall2 builtFrom movies built -> map id built = map m_id movies.
Proof.
  induction 1 as [|m v ms vs (vf & u & c & _ & ->) _ IH]; [reflexivity|].
  cbn. now rewrite IH.
Qed.

(** *** The pass *)

Lemma buildCatalog_shape (i : IO W) processedVideos i' :
  buildCatalog env i = (OK processedVideos, i') ->
  exists s3Videos w1 dynamoVideos w2 built added,
    listVideos env "movies/" (world i) = (OK s3Videos, w1)
    /\ getDynamoVideos env w1 = (OK dynamoVideos, w2)
    /\ processedVideos = (built ++ added)%list
    /\ Forall2 builtFrom
         (filter hasVideo (JS.values (groupFiles env s3Videos))) built
    /\ Forall (fun v => exists dv, In dv (recordsOf dynamoVideos) /\ mergedFrom dv v)
         added
    /\ NoDup (map id processedVideos)
    /\ (forall dv, In dv (recordsOf dynamoVideos) ->
                   In (dv_id dv) (map id processedVideos)).
Proof.
  unfold buildCatalog, bind, callListVideos, callGetDynamoVideos, external.
  destruct (listVideos env "movies/" (world i)) as [[s3Videos|e] w1] eqn:EL;
    [|discriminate].
  cbn [world].
  destruct (getDynamoVideos env w1) as [[dynamoVideos|e] w2] eqn:ED; [|discriminate].
  intros H.
  match type of H with
  | context [forOf ?l (processMovie env) [] ?j] =>
      destruct (forOf l (processMovie env) [] j) as [[acc|e] i1] eqn:E;
        [|discriminate H]
  end.
  apply build_loop in E. destruct E as (built & -> & HB). cbn [app] in H.
  assert (Hn : NoDup (map id built)).
  { pose proof HB as Hids. apply built_ids in Hids. rewrite Hids.
    apply kept_groups_distinct, groupFiles_ids. }
  exists s3Videos, w1, dynamoVideos, w2, built.
  assert (Hnone : ret built i1 = (OK processedVideos, i') ->
                  recordsOf dynamoVideos = [] ->
                  exists added : list ProcessedVideo,
                    processedVideos = (built ++ added)%list
                    /\ Forall (fun v => exists dv, In dv (recordsOf dynamoVideos)
                                                   /\ mergedFrom dv v) added
                    /\ NoDup (map id processedVideos)
                    /\ (forall dv, In dv (recordsOf dynamoVideos) ->
                                   In (dv_id dv) (map id processedVideos))).
  { intros H0 Hr. unfold ret in H0. inversion H0; subst. exists [].
    rewrite app_nil_r, Hr. repeat split; auto. intros dv []. }
  assert (Hex : exists added : list ProcessedVideo,
                    processedVideos = (built ++ added)%list
                    /\ Forall (fun v => exists dv, In dv (recordsOf dynamoVideos)
                                                   /\ mergedFrom dv v) added
                    /\ NoDup (map id processedVideos)
                    /\ (forall dv, In dv (recordsOf dynamoVideos) ->
                                   In (dv_id dv) (map id processedVideos))).
  { destruct dynamoVideos as [[|d ds]|]; [now apply Hnone | | now apply Hnone].
    apply merge_loop in H. destruct H as (added & -> & HF & HN & HI).
    exists added. repeat split; auto. }
  destruct Hex as (added & Hp & HF & HN & HI).
  exists added. repeat split; auto.
Qed.


(** *** Lists *)

Lemma find_first {A} (p : A -> bool) before v after :
  p v = true -> (forall x, In x before -> p x = false) ->
  find p (before ++ v :: after) = Some v.
Proof.
  intros Hv. induction before as [|a r IH]; intros Hb; cbn.
  - now rewrite Hv.
  - rewrite (Hb a (or_introl eq_refl)). apply IH. intros x Hx. apply Hb. now right.
Qed.

Lemma find_none_iff {A} (p : A -> bool) l :
  find p l = None <-> forall x, In x l -> p x = false.
Proof.
  split; [apply find_none|].
  induction l as [|a r IH]; intros H; [reflexivity|]. cbn.
  rewrite (H a (or_introl eq_refl)). apply IH. intros x Hx. apply H. now right.
Qed.

Lemma NoDup_map_eq {A B} (f : A -> B) l a b :
  NoDup (map f l) -> In a l -> In b l -> f a = f b -> a = b.
Proof.
  induction l as [|x r IH]; intros Hn Ha Hb E; [destruct Ha|].
  cbn in Hn. inversion Hn as [|? ? Hx Hr]; subst.
  destruct Ha as [->|Ha], Hb as [->|Hb]; auto.
  - exfalso. apply Hx. rewrite E. now apply in_map.
  - exfalso. apply Hx. rewrite <- E. now apply in_map.
Qed.

(** *** The listings *)

Lemma addMatch_run video (i : IO W) :
  exists e i', addMatch env video i = (OK e, i') /\ vm_video e = toVideo video.
Proof.
  unfold addMatch, bind, floorRandom, ret.
  destruct (Math_floor_random env 30 (world i)) as [r w]. eauto.
Qed.

Lemma recommend_loop cache : forall acc (i : IO W),
  exists out i',
    forOf cache (fun video acc => e <- addMatch env video ;; ret (acc ++ [e])%list)
      acc i = (OK (acc ++ out)%list, i')
    /\ map (@vm_video) out = map toVideo cache.
Proof.
  induction cache as [|v r IH]; intros acc i.
  - exists [], i. cbn. rewrite app_nil_r. split; reflexivity.
  - cbn [forOf]. unfold bind at 1. unfold bind at 1.
    destruct (addMatch_run v i) as (e & i1 & E & Hv). rewrite E. unfold ret at 1.
    destruct (IH (acc ++ [e])%list i1) as (out & i' & R & Hm).
    exists (e :: out), i'. rewrite R, <- app_assoc. split; [reflexivity|].
    cbn. now rewrite Hv, Hm.
Qed.

Lemma mutate_hit {V} k (f : V -> V) (m : JS.JSMap V) :
  JS.has k m = true -> exists x, In (k, f x) (JS.mutate k f m).
Proof.
  induction m as [|[k' v] r IH]; intros H; [discriminate|].
  cbn in H |- *. destruct (String.eqb_spec k' k) as [->|Hn].
  - exists v. now left.
  - cbn in H. destruct (IH H) as (x & Hx). exists x. now right.
Qed.

Lemma mutate_keeps {V} k (f : V -> V) (m : JS.JSMap V) k' x :
  In (k', x) m -> In (k', x) (JS.mutate k f m) \/ In (k', f x) (JS.mutate k f m).
Proof.
  induction m as [|[k0 v] r IH]; intros H; [destruct H|].
  cbn. destruct H as [E|H].
  - inversion E; subst. destruct (String.eqb k' k); [right | left]; now left.
  - destruct (String.eqb k0 k).
    + left. now right.
    + destruct (IH H); [left | right]; now right.
Qed.

Lemma has_set {V} k (v : V) (m : JS.JSMap V) : JS.has k (JS.set k v m) = true.
Proof.
  induction m as [|[k' v'] r IH]; cbn.
  - now rewrite String.eqb_refl.
  - destruct (String.eqb k' k) eqn:E; cbn.
    + now rewrite String.eqb_refl.
    + now rewrite E.
Qed.

Lemma categorize_run video m (i : IO W) :
  exists m' i',
    categorize env video m i = (OK m', i')
    /\ listed m' video
    /\ forall v, listed m v -> listed m' v.
Proof.
  unfold categorize, bind, ret.
  destruct (addMatch_run video i) as (e & i1 & E & Hv). rewrite E.
  set (m0 := if negb (JS.has (category video) m)
             then JS.set (category video) [] m else m).
  assert (H0 : JS.has (category video) m0 = true).
  { unfold m0. destruct (JS.has (category video) m) eqn:H; cbn [negb];
      [exact H | apply has_set]. }
  assert (Hk : forall k x, In (k, x) m -> In (k, x) m0).
  { unfold m0. intros k x Hin.
    destruct (JS.has (category video) m) eqn:H; cbn [negb]; [exact Hin|].
    rewrite set_new by exact H. apply in_or_app. now left. }
  eexists. exists i1. split; [reflexivity|]. split.
  - destruct (mutate_hit (category video) (fun videos => (videos ++ [e])%list) m0 H0)
      as (x & Hx).
    exists (x ++ [e])%list, e. repeat split; auto.
    apply in_or_app. right. now left.
  - intros v (videos & e' & Hin & He & Hv').
    apply Hk in Hin.
    destruct (mutate_keeps (category video) (fun videos => (videos ++ [e])%list)
                m0 _ _ Hin) as [H|H].
    + exists videos, e'. auto.
    + exists (videos ++ [e])%list, e'. repeat split; auto.
      apply in_or_app. now left.
Qed.

Lemma categorize_loop cache : forall m (i : IO W),
  exists m' i',
    forOf cache (categorize env) m i = (OK m', i')
    /\ (forall v, In v cache -> listed m' v)
    /\ (forall v, listed m v -> listed m' v).
Proof.
  induction cache as [|video r IH]; intros m i.
  - exists m, i. repeat split; auto. intros v [].
  - cbn [forOf]. unfold bind at 1.
    destruct (categorize_run video m i) as (m1 & i1 & E & Hn & Hk). rewrite E.
    destruct (IH m1 i1) as (m' & i' & R & Hc & Hk').
    exists m', i'. split; [exact R|]. split.
    + intros v [<-|Hv]; auto.
    + auto.
Qed.

Lemma numberCategories_In (es : list (string * list VideoWithMatch)) :
  forall start name videos,
    In (name, videos) es ->
    exists n, In {| c_id := n; c_title := name; c_videos := videos |}
                 (numberCategories start es).
Proof.
  induction es as [|[k vs] r IH]; intros start name videos H; [destruct H|].
  cbn [numberCategories]. destruct H as [E|H].
  - inversion E; subst. exists start. now left.
  - destruct (IH (start + 1) _ _ H) as (n & Hn). exists n. now right.
Qed.

Lemma getRecommendedVideos_lists (userId : Z) (s : Service W) :
  exists out,
    fst (getRecommendedVideos env userId s) = OK out
    /\ map (@vm_video) out = map toVideo (videosCache (refreshed env s)).
Proof.
  unfold getRecommendedVideos. unfold bind at 1. rewrite refreshCache_run.
  unfold bind at 1. unfold gets, liftIO.
  destruct (recommend_loop (videosCache (refreshed env s)) [] (io (refreshed env s)))
    as (out & i' & R & Hm).
  rewrite R. exists out. split; [reflexivity | exact Hm].
Qed.

Lemma getContentCategories_lists (userId : Z) (s : Service W) :
  exists categories,
    fst (getContentCategories env userId s) = OK categories
    /\ forall v, In v (videosCache (refreshed env s)) ->
         exists c e,
           In c categories /\ c_title c = category v
           /\ In e (c_videos c) /\ vm_video e = toVideo v.
Proof.
  unfold getContentCategories, bind. rewrite refreshCache_run.
  unfold gets, liftIO, ret.
  destruct (categorize_loop (videosCache (refreshed env s)) [] (io (refreshed env s)))
    as (m' & i' & R & Hc & _).
  rewrite R. eexists. split; [reflexivity|].
  intros v Hv. destruct (Hc v Hv) as (videos & e & Hin & He & Hve).
  destruct (numberCategories_In _ 1 _ _ Hin) as (n & Hn).
  eexists. exists e. split; [exact Hn|]. cbn. auto.
Qed.

(** *** The gate and the failed pass *)

(** C3: when less than the 60 seconds of [CACHE_TTL] have passed since
    the last refresh and the snapshot is not empty, [refreshCache]
    returns at once: it reads the clock and calls neither store, nor
    anything else that is recorded, and leaves snapshot and time stamp
    as they were. *)
Theorem refresh_gate_no_source_call (s : Service W) :
  clockOf env (io s) - lastCacheRefresh s < 60 * 1000 ->
  videosCache s <> [] ->
  refreshCache env s = (OK tt, withIO s (ticked env (io s)))
  /\ calls (io (snd (refreshCache env s))) = calls (io s)
  /\ videosCache (snd (refreshCache env s)) = videosCache s
  /\ lastCacheRefresh (snd (refreshCache env s)) = lastCacheRefresh s.
Proof.
  intros Ht Hc. rewrite refreshCache_run. unfold refreshed.
  assert (F : fresh env s = true).
  { unfold fresh, CACHE_TTL. apply andb_true_iff. split.
    - apply Z.ltb_lt. exact Ht.
    - apply Z.ltb_lt. destruct (videosCache s); [congruence | cbn; lia]. }
  rewrite F. cbn. auto.
Qed.

(** C1: when the gate lets the call through and the pass throws, at
    either fetch or later, [refreshCache] returns normally with the
    snapshot and the time stamp it found; the reads made by that call are
    answered from the old snapshot. *)
Theorem failed_refresh_keeps_snapshot (s : Service W) (e : Exn) (i : IO W) :
  fresh env s = false ->
  buildCatalog env (ticked env (io s)) = (Throw e, i) ->
  refreshCache env s = (OK tt, withIO s i)
  /\ videosCache (snd (refreshCache env s)) = videosCache s
  /\ lastCacheRefresh (snd (refreshCache env s)) = lastCacheRefresh s
  /\ (forall userId v,
        find featured (videosCache s) = Some v ->
        fst (getFeaturedContent env userId s)
        = OK {| fc_video := toVideo v; fc_match := 95 |})
  /\ (forall userId v rest,
        find featured (videosCache s) = None -> videosCache s = v :: rest ->
        fst (getFeaturedContent env userId s)
        = OK {| fc_video := toVideo v; fc_match := 95 |})
  /\ (forall videoId,
        fst (getVideoById env videoId s)
        = OK (option_map toVideo
                (find (fun v => JS.strictEq (JS.parseInt (id v)) videoId)
                      (videosCache s))))
  /\ (forall userId,
        exists out,
          fst (getRecommendedVideos env userId s) = OK out
          /\ map (@vm_video) out = map toVideo (videosCache s)).
Proof.
  intros F H.
  assert (R : refreshed env s = withIO s i).
  { unfold refreshed. rewrite F, H. reflexivity. }
  rewrite refreshCache_run, R. cbn [snd fst withIO videosCache lastCacheRefresh].
  split; [reflexivity|]. split; [reflexivity|]. split; [reflexivity|].
  split; [|split; [|split]].
  - intros u v Hv. rewrite getFeaturedContent_run, R. cbn [fst withIO videosCache].
    unfold pickFeatured. rewrite Hv. reflexivity.
  - intros u v rest Hn Hc. rewrite getFeaturedContent_run, R.
    cbn [fst withIO videosCache]. unfold pickFeatured. rewrite Hn, Hc. reflexivity.
  - intros vid. rewrite getVideoById_run, R. reflexivity.
  - intros u. destruct (getRecommendedVideos_lists u s) as (out & Ho & Hm).
    exists out. split; [exact Ho|]. rewrite Hm, R. reflexivity.
Qed.

(** A failed fetch is a failed pass. *)
Lemma buildCatalog_listing_down (i : IO W) e w :
  listVideos env "movies/" (world i) = (Throw e, w) ->
  fst (buildCatalog env i) = Throw e.
Proof.
  intros H. unfold buildCatalog, bind, callListVideos, external. now rewrite H.
Qed.

Lemma buildCatalog_records_down (i : IO W) s3Videos w1 e w2 :
  listVideos env "movies/" (world i) = (OK s3Videos, w1) ->
  getDynamoVideos env w1 = (Throw e, w2) ->
  fst (buildCatalog env i) = Throw e.
Proof.
  intros H1 H2.
  unfold buildCatalog, bind, callListVideos, callGetDynamoVideos, external.
  rewrite H1. cbn [world]. now rewrite H2.
Qed.

(** *** [getFeaturedContent] *)

Lemma toVideo_presents (v : ProcessedVideo) : presents v (toVideo v).
Proof. unfold presents. repeat split. Qed.


(** *** The snapshot of a successful pass *)

Lemma refresh_stores (s : Service W) processedVideos i :
  fresh env s = false ->
  buildCatalog env (ticked env (io s)) = (OK processedVideos, i) ->
  videosCache (snd (refreshCache env s)) = processedVideos
  /\ lastCacheRefresh (snd (refreshCache env s)) = clockOf env (io s).
Proof.
  intros F H. rewrite refreshCache_run. unfold refreshed. rewrite F, H.
  split; reflexivity.
Qed.

Lemma built_In movies built v :
  Forall2 builtFrom movies built -> In v built ->
  exists movie, In movie movies /\ builtFrom movie v.
Proof.
  induction 1 as [|m x ms xs Hm _ IH]; intros Hv; [destruct Hv|].
  destruct Hv as [<-|Hv].
  - exists m. split; [now left | exact Hm].
  - destruct (IH Hv) as (movie & Hin & Hb). exists movie. split; [now right | exact Hb].
Qed.

Lemma built_of movies built movie :
  Forall2 builtFrom movies built -> In movie movies ->
  exists v, In v built /\ builtFrom movie v.
Proof.
  induction 1 as [|m x ms xs Hm _ IH]; intros Hv; [destruct Hv|].
  destruct Hv as [<-|Hv].
  - exists x. split; [now left | exact Hm].
  - destruct (IH Hv) as (v & Hin & Hb). exists v. split; [now right | exact Hb].
Qed.

Lemma builtFrom_id movie v : builtFrom movie v -> id v = m_id movie.
Proof. intros (vf & u & c & _ & ->). reflexivity. Qed.

Lemma mergedFrom_id dv v : mergedFrom dv v -> id v = dv_id dv.
Proof. intros (u & c & -> & _). reflexivity. Qed.

(** C2: in the snapshot of a successful pass no two assets share an
    id, and for every id the listing surfaces as an asset (its group has
    a video file) the only asset with that id is the one built from the
    listing, whatever the records say: a record with that id is never
    the entry. *)
Theorem listing_takes_precedence (s : Service W) processedVideos i :
  fresh env s = false ->
  buildCatalog env (ticked env (io s)) = (OK processedVideos, i) ->
  exists s3Videos w1 dynamoVideos w2,
    listVideos env "movies/" (world (ticked env (io s))) = (OK s3Videos, w1)
    /\ getDynamoVideos env w1 = (OK dynamoVideos, w2)
    /\ videosCache (snd (refreshCache env s)) = processedVideos
    /\ NoDup (map id processedVideos)
    /\ forall movie,
         In movie (JS.values (groupFiles env s3Videos)) ->
         hasVideo movie = true ->
         exists v,
           builtFrom movie v
           /\ In v processedVideos
           /\ forall x, In x processedVideos -> (id x = m_id movie <-> x = v).
Proof.
  intros F H. destruct (@refresh_stores _ _ _ F H) as [Hc _].
  apply buildCatalog_shape in H.
  destruct H as (s3Videos & w1 & dynamoVideos & w2 & built & added
                 & HL & HD & -> & HB & HA & HN & HI).
  exists s3Videos, w1, dynamoVideos, w2. repeat split; auto.
  intros movie Hm Hv.
  assert (Hf : In movie (filter hasVideo (JS.values (groupFiles env s3Videos))))
    by (apply filter_In; auto).
  destruct (@built_of _ _ _ HB Hf) as (v & Hin & Hb).
  exists v. split; [exact Hb|].
  split; [apply in_or_app; now left|].
  intros x Hx. split.
  - intros E. apply NoDup_map_eq with (f := id) (l := (built ++ added)%list); auto.
    + apply in_or_app. now left.
    + rewrite E. symmetry. now apply builtFrom_id.
  - intros ->. now apply builtFrom_id.
Qed.

(** How the pass sets [featured]: an asset built from the listing is
    featured exactly when its id is the string ["1"], so at most one of
    them is; an asset appended from a record is featured exactly when
    the record says so. *)
Theorem featured_policy (s : Service W) processedVideos i :
  fresh env s = false ->
  buildCatalog env (ticked env (io s)) = (OK processedVideos, i) ->
  exists s3Videos w1 dynamoVideos w2 built added,
    listVideos env "movies/" (world (ticked env (io s))) = (OK s3Videos, w1)
    /\ getDynamoVideos env w1 = (OK dynamoVideos, w2)
    /\ videosCache (snd (refreshCache env s)) = (built ++ added)%list
    /\ Forall2 builtFrom
         (filter hasVideo (JS.values (groupFiles env s3Videos))) built
    /\ Forall (fun v => featured v = String.eqb (id v) "1") built
    /\ (forall v1 v2, In v1 built -> In v2 built ->
          featured v1 = true -> featured v2 = true -> v1 = v2)
    /\ Forall (fun v => exists dv,
                 In dv (recordsOf dynamoVideos)
                 /\ mergedFrom dv v
                 /\ featured v = JS.orBool (dv_featured dv) false) added.
Proof.
  intros F H. destruct (@refresh_stores _ _ _ F H) as [Hc _].
  apply buildCatalog_shape in H.
  destruct H as (s3Videos & w1 & dynamoVideos & w2 & built & added
                 & HL & HD & -> & HB & HA & HN & HI).
  exists s3Videos, w1, dynamoVideos, w2, built, added.
  assert (HFeat : Forall (fun v => featured v = String.eqb (id v) "1") built).
  { apply Forall_forall. intros v Hv.
    destruct (@built_In _ _ _ HB Hv) as (movie & _ & (vf & u & c & _ & ->)). reflexivity. }
  repeat split; auto.
  - intros v1 v2 H1 H2 F1 F2.
    rewrite Forall_forall in HFeat.
    rewrite (HFeat _ H1) in F1. rewrite (HFeat _ H2) in F2.
    apply String.eqb_eq in F1, F2.
    rewrite map_app in HN. apply NoDup_app_remove_r in HN.
    apply NoDup_map_eq with (f := id) (l := built); auto. congruence.
  - eapply Forall_impl; [|exact HA].
    intros v (dv & Hdv & Hm). exists dv. repeat split; auto.
    destruct Hm as (u & c & -> & _). reflexivity.
Qed.

(** C5 (amended): in the snapshot of a successful pass, every asset
    built from the listing comes from a group with an [mp4] file, whose
    key is its playback key, and a group without one builds no asset;
    the records are appended without any such condition: the id of
    every record is in the snapshot, and the playback key of an appended
    asset is the video key of its record, or empty. *)
Theorem listing_assets_have_video (s : Service W) processedVideos i :
  fresh env s = false ->
  buildCatalog env (ticked env (io s)) = (OK processedVideos, i) ->
  exists s3Videos w1 dynamoVideos w2 built added,
    listVideos env "movies/" (world (ticked env (io s))) = (OK s3Videos, w1)
    /\ getDynamoVideos env w1 = (OK dynamoVideos, w2)
    /\ videosCache (snd (refreshCache env s)) = (built ++ added)%list
    /\ Forall (fun v => exists movie videoFile,
                 In movie (JS.values (groupFiles env s3Videos))
                 /\ In videoFile (m_files movie)
                 /\ mf_type videoFile = "mp4"
                 /\ id v = m_id movie
                 /\ hlsUrl v = JS.orString (mf_key videoFile) "") built
    /\ (forall movie,
          In movie (JS.values (groupFiles env s3Videos)) ->
          hasVideo movie = false -> ~ In (m_id movie) (map id built))
    /\ Forall (fun v => exists dv,
                 In dv (recordsOf dynamoVideos)
                 /\ mergedFrom dv v
                 /\ hlsUrl v = JS.orString (dv_videoKey dv) ""
                 /\ (JS.truthyString (dv_videoKey dv) = None ->
                     hlsUrl v = "" /\ videoUrl v = None)) added
    /\ (forall dv, In dv (recordsOf dynamoVideos) ->
          In (dv_id dv) (map id (built ++ added)%list)).
Proof.
  intros F H. destruct (@refresh_stores _ _ _ F H) as [Hc _].
  apply buildCatalog_shape in H.
  destruct H as (s3Videos & w1 & dynamoVideos & w2 & built & added
                 & HL & HD & -> & HB & HA & HN & HI).
  exists s3Videos, w1, dynamoVideos, w2, built, added.
  repeat split; auto.
  - apply Forall_forall. intros v Hv.
    destruct (@built_In _ _ _ HB Hv) as (movie & Hm & (vf & u & c & Hvf & ->)).
    apply filter_In in Hm. destruct Hm as [Hm _].
    unfold videoOf in Hvf. apply find_some in Hvf. destruct Hvf as [Hin Ht].
    apply String.eqb_eq in Ht.
    exists movie, vf. repeat split; auto.
  - intros movie Hm Hv Hin.
    pose proof HB as Hids. apply built_ids in Hids. rewrite Hids in Hin.
    apply in_map_iff in Hin. destruct Hin as (movie' & E & Hin').
    apply filter_In in Hin'. destruct Hin' as [Hm' Hv'].
    assert (movie' = movie).
    { apply NoDup_map_eq with (f := m_id)
                               (l := JS.values (groupFiles env s3Videos)); auto.
      apply groupFiles_ids. }
    congruence.
  - eapply Forall_impl; [|exact HA].
    intros v (dv & Hdv & Hm). exists dv.
    split; [exact Hdv|]. split; [exact Hm|].
    destruct Hm as (u & c & -> & Hu). split; [reflexivity|].
    intros K. split; [|exact (Hu K)].
    cbn [hlsUrl dynamoProcessed]. unfold JS.orString. now rewrite K.
Qed.

(** *** [requestTranscodeJob] *)

Lemma chooseId_run movieInfo (i : IO W) :
  exists newId i', chooseId env movieInfo i = (OK newId, i') /\ calls i' = calls i.
Proof.
  unfold chooseId. destruct (JS.truthyString (option_map mi_id movieInfo)).
  - exists s, i. split; reflexivity.
  - unfold bind, floorRandom, ret.
    destruct (Math_floor_random env 10000 (world i)) as [r w]. eauto.
Qed.

(** C8 (amended): once the id is chosen and the playback URL is signed,
    [requestTranscodeJob] appends exactly one asset, with that id, to the
    snapshot it finds, whatever the time stamp of the last refresh, which
    it leaves untouched; it calls neither the listing nor the table scan.
    In development mode no mirror write is made and the id is returned.
    Otherwise the mirror write follows the append: when it succeeds the
    id is returned, and when it throws the call throws the same error,
    the asset staying appended. *)
Theorem ingest_appends_one (title description s3Key : string) (s : Service W)
    (newId : string) (i1 : IO W) (videoUrl : option string) (i2 : IO W) :
  chooseId env (extractMovieInfo env s3Key) (io s) = (OK newId, i1) ->
  callGetSignedVideoUrl env s3Key i1 = (OK videoUrl, i2) ->
  let movieInfo := extractMovieInfo env s3Key in
  let newVideo :=
    uploadedVideo movieInfo newId title description s3Key videoUrl
      (clockOf env i2) in
  let item :=
    uploadedItem movieInfo newId title description s3Key
      (clockOf env (ticked env i2)) in
  let run := requestTranscodeJob env title description s3Key s in
  videosCache (snd run) = (videosCache s ++ [newVideo])%list
  /\ lastCacheRefresh (snd run) = lastCacheRefresh s
  /\ id newVideo = newId
  /\ (notDevelopment env = false ->
      fst run = OK (processed newId)
      /\ calls (io (snd run)) = (calls (io s) ++ [GetSignedVideoUrl s3Key])%list)
  /\ (notDevelopment env = true ->
      forall r w,
        putItem env "StreamingVideos" item
          (world (ticked env (ticked env i2))) = (r, w) ->
        fst run = match r with
                  | OK _ => OK (processed newId)
                  | Throw error => Throw error
                  end
        /\ calls (io (snd run))
           = (calls (io s)
              ++ [GetSignedVideoUrl s3Key; PutItem "StreamingVideos" item])%list).
Proof.
  intros HI HS. cbv zeta.
  assert (C1 : calls i1 = calls (io s)).
  { destruct (chooseId_run (extractMovieInfo env s3Key) (io s))
      as (n & j & E & C). rewrite HI in E. now inversion E; subst. }
  assert (C2 : calls i2 = (calls (io s) ++ [GetSignedVideoUrl s3Key])%list).
  { unfold callGetSignedVideoUrl, external in HS.
    destruct (getSignedVideoUrl env s3Key (world i1)). inversion HS; subst.
    cbn. now rewrite C1. }
  unfold requestTranscodeJob, tryCatch, bind, liftIO, modify, ret, throw.
  cbn [io]. rewrite HI. cbn [io]. rewrite HS. cbn [io]. rewrite now_run.
  cbn [io videosCache lastCacheRefresh].
  destruct (notDevelopment env) eqn:ND.
  - rewrite now_run. cbn [io videosCache lastCacheRefresh negb].
    unfold callPutItem, external.
    destruct (putItem env "StreamingVideos"
                (uploadedItem (extractMovieInfo env s3Key) newId title description
                   s3Key (clockOf env (ticked env i2)))
                (world (ticked env (ticked env i2)))) as [r w] eqn:P.
    split; [destruct r; reflexivity|].
    split; [destruct r; reflexivity|].
    split; [reflexivity|].
    split; [discriminate|].
    intros _ r' w' E. inversion E; subst.
    split; destruct r'; cbn; try reflexivity; now rewrite C2, <- app_assoc.
  - cbn. split; [reflexivity|]. split; [reflexivity|]. split; [reflexivity|].
    split; [intros _; split; [reflexivity | exact C2] | discriminate].
Qed.

(** *** [getVideoById] *)

(** C10 (amended): for every integer [videoId] (and for [NaN] and the
    infinities), [getVideoById] never throws; it answers with the first
    asset of the snapshot whose id [parseInt] reads as [videoId], the
    video of the answer having the fields of that asset, and with [null]
    exactly when there is none.  An asset whose id [parseInt] reads as
    [NaN] is never the answer, whatever [videoId], while the
    recommendations list it and the categories list it under its
    category. *)
Theorem getVideoById_first_parsed (videoId : JS.Number) (userId : Z) (s : Service W) :
  let cache := videosCache (snd (refreshCache env s)) in
  let hit v := JS.strictEq (JS.parseInt (id v)) videoId in
  let answer := fst (getVideoById env videoId s) in
  (forall before v after,
      cache = (before ++ v :: after)%list -> hit v = true ->
      (forall x, In x before -> hit x = false) ->
      exists video, answer = OK (Some video) /\ presents v video)
  /\ ((forall x, In x cache -> hit x = false) <-> answer = OK None)
  /\ (forall v, In v cache -> JS.parseInt (id v) = JS.NaN ->
        answer <> OK (Some (toVideo v))
        /\ (exists out e,
              fst (getRecommendedVideos env userId s) = OK out
              /\ In e out /\ vm_video e = toVideo v)
        /\ (exists categories c e,
              fst (getContentCategories env userId s) = OK categories
              /\ In c categories /\ c_title c = category v
              /\ In e (c_videos c) /\ vm_video e = toVideo v)).
Proof.
  cbv zeta. rewrite getVideoById_run, refreshCache_run. cbn [fst snd].
  set (cache := videosCache (refreshed env s)).
  split; [|split].
  - intros before v after -> Hv Hb. rewrite find_first by assumption.
    exists (toVideo v). split; [reflexivity | apply toVideo_presents].
  - rewrite <- find_none_iff.
    destruct (find _ cache); split; intros H; try reflexivity; discriminate H.
  - intros v Hv Hnan. split; [|split].
    + destruct (find _ cache) as [x|] eqn:F; [|discriminate].
      cbn [option_map]. intros E. apply find_some in F. destruct F as [_ F].
      assert (P : JS.parseInt (id x) = JS.NaN).
      { rewrite <- Hnan. change (v_id (toVideo x) = v_id (toVideo v)).
        congruence. }
      rewrite P in F. discriminate F.
    + destruct (getRecommendedVideos_lists userId s) as (out & R & Hm).
      assert (Hin : In (toVideo v) (map (@vm_video) out)).
      { rewrite Hm. now apply in_map. }
      apply in_map_iff in Hin. destruct Hin as (e & He & Hin).
      exists out, e. auto.
    + destruct (getContentCategories_lists userId s) as (cats & R & Hc).
      destruct (Hc v Hv) as (c & e & H1 & H2 & H3 & H4).
      exists cats, c, e. auto.
Qed.

End ContentServiceFacts.

(* ================================================================== *)
(** * Concrete runs of the content service *)

Lemma refresh_gate_no_source_call_witness :
  (clockOf (scripted bothSources) (io (warm shelf))
   - lastCacheRefresh (warm shelf) < 60 * 1000
   /\ videosCache (warm shelf) <> [])
  /\ calls (io (snd (refreshCache (scripted bothSources) (warm shelf)))) = []
  /\ videosCache (snd (refreshCache (scripted bothSources) (warm shelf))) = shelf.
Proof.
  assert (H1 : clockOf (scripted bothSources) (io (warm shelf))
               - lastCacheRefresh (warm shelf) < 60 * 1000) by (vm_compute; reflexivity).
  assert (H2 : videosCache (warm shelf) <> []) by discriminate.
  split; [split; assumption|].
  destruct (refresh_gate_no_source_call (scripted bothSources) (warm shelf) H1 H2)
    as (_ & Hc & Hv & _).
  split; [exact Hc | exact Hv].
Defined.

Lemma failed_refresh_keeps_snapshot_witness :
  (fresh (scripted outage) (stale shelf) = false
   /\ buildCatalog (scripted outage) (ticked (scripted outage) (io (stale shelf)))
      = (Throw (Error "listing unavailable"),
         {| world := 100001; calls := [ListVideos "movies/"] |}))
  /\ videosCache (snd (refreshCache (scripted outage) (stale shelf))) = shelf
  /\ lastCacheRefresh (snd (refreshCache (scripted outage) (stale shelf))) = 0
  /\ fst (getFeaturedContent (scripted outage) 7 (stale shelf))
     = OK {| fc_video := toVideo (asset "1" true); fc_match := 95 |}.
Proof.
  assert (H1 : fresh (scripted outage) (stale shelf) = false) by reflexivity.
  assert (H2 : buildCatalog (scripted outage)
                 (ticked (scripted outage) (io (stale shelf)))
               = (Throw (Error "listing unavailable"),
                  {| world := 100001; calls := [ListVideos "movies/"] |}))
    by reflexivity.
  split; [split; assumption|].
  destruct (@failed_refresh_keeps_snapshot Z (scripted outage) (stale shelf) _ _ H1 H2)
    as (_ & Hv & Hl & Hf & _).
  split; [exact Hv|]. split; [exact Hl|].
  apply Hf. reflexivity.
Defined.


Lemma listing_takes_precedence_witness :
  (fresh (scripted bothSources) cold = false
   /\ buildCatalog (scripted bothSources) (ticked (scripted bothSources) (io cold))
      = (OK bothSourcesCatalog, bothSourcesIO))
  /\ map id (videosCache (snd (refreshCache (scripted bothSources) cold)))
     = ["1"; "2"; "movie-3"]
  /\ NoDup (map id bothSourcesCatalog).
Proof.
  assert (H1 : fresh (scripted bothSources) cold = false) by reflexivity.
  assert (H2 : buildCatalog (scripted bothSources)
                 (ticked (scripted bothSources) (io cold))
               = (OK bothSourcesCatalog, bothSourcesIO)) by reflexivity.
  split; [split; assumption|].
  destruct (listing_takes_precedence (scripted bothSources) cold H1 H2)
    as (l & w1 & d & w2 & _ & _ & Hc & Hn & _).
  split; [rewrite Hc; reflexivity | exact Hn].
Defined.

Lemma featured_policy_witness :
  (fresh (scripted bothSources) cold = false
   /\ buildCatalog (scripted bothSources) (ticked (scripted bothSources) (io cold))
      = (OK bothSourcesCatalog, bothSourcesIO))
  /\ exists built added,
       videosCache (snd (refreshCache (scripted bothSources) cold))
       = (built ++ added)%list
       /\ Forall (fun v => featured v = String.eqb (id v) "1") built.
Proof.
  assert (H1 : fresh (scripted bothSources) cold = false) by reflexivity.
  assert (H2 : buildCatalog (scripted bothSources)
                 (ticked (scripted bothSources) (io cold))
               = (OK bothSourcesCatalog, bothSourcesIO)) by reflexivity.
  split; [split; assumption|].
  destruct (featured_policy (scripted bothSources) cold H1 H2)
    as (l & w1 & d & w2 & built & added & _ & _ & Hc & _ & Hf & _).
  exists built, added. split; [exact Hc | exact Hf].
Defined.

Lemma listing_assets_have_video_witness :
  (fresh (scripted bothSources) cold = false
   /\ buildCatalog (scripted bothSources) (ticked (scripted bothSources) (io cold))
      = (OK bothSourcesCatalog, bothSourcesIO))
  /\ exists built added,
       videosCache (snd (refreshCache (scripted bothSources) cold))
       = (built ++ added)%list
       /\ In "movie-3" (map id (built ++ added)%list).
Proof.
  assert (H1 : fresh (scripted bothSources) cold = false) by reflexivity.
  assert (H2 : buildCatalog (scripted bothSources)
                 (ticked (scripted bothSources) (io cold))
               = (OK bothSourcesCatalog, bothSourcesIO)) by reflexivity.
  split; [split; assumption|].
  destruct (listing_assets_have_video (scripted bothSources) cold H1 H2)
    as (l & w1 & d & w2 & built & added & _ & HD & Hc & _ & _ & _ & Hi).
  exists built, added. split; [exact Hc|].
  apply (Hi (record "movie-3" (Some "uploads/three.mp4") None)).
  cbn in HD. inversion HD; subst. right. left. reflexivity.
Defined.

Lemma ingest_appends_one_witness :
  (chooseId (scripted bothSources)
     (extractMovieInfo (scripted bothSources) "movies/2/film.mp4") (io (warm shelf))
   = (OK "2", io (warm shelf))
   /\ callGetSignedVideoUrl (scripted bothSources) "movies/2/film.mp4" (io (warm shelf))
      = (OK (Some "https://signed/movies/2/film.mp4"),
         {| world := 100000; calls := [GetSignedVideoUrl "movies/2/film.mp4"] |}))
  /\ List.length
       (videosCache
          (snd (requestTranscodeJob (scripted bothSources) "Two" "Again"
                  "movies/2/film.mp4" (warm shelf)))) = 3%nat
  /\ fst (requestTranscodeJob (scripted bothSources) "Two" "Again"
            "movies/2/film.mp4" (warm shelf)) = OK (processed "2").
Proof.
  assert (H1 : chooseId (scripted bothSources)
                 (extractMovieInfo (scripted bothSources) "movies/2/film.mp4")
                 (io (warm shelf)) = (OK "2", io (warm shelf))) by reflexivity.
  assert (H2 : callGetSignedVideoUrl (scripted bothSources) "movies/2/film.mp4"
                 (io (warm shelf))
               = (OK (Some "https://signed/movies/2/film.mp4"),
                  {| world := 100000;
                     calls := [GetSignedVideoUrl "movies/2/film.mp4"] |}))
    by reflexivity.
  split; [split; assumption|].
  destruct (@ingest_appends_one Z (scripted bothSources) "Two" "Again"
              "movies/2/film.mp4" (warm shelf) _ _ _ _ H1 H2)
    as (Hc & _ & _ & _ & Hp).
  split; [rewrite Hc; reflexivity|].
  exact (proj1 (Hp eq_refl (OK tt) 100002 eq_refl)).
Defined.

Lemma getVideoById_first_parsed_witness :
  fst (getVideoById (scripted bothSources) (JS.Num 7)
         (warm [asset "movie-3" false; asset "7" false; asset "07" true]))
  = OK (Some {| v_id := JS.Num 7;
                v_title := "Asset 7";
                v_description := "No description";
                v_thumbnailUrl := "";
                v_videoUrl := "https://signed/7";
                v_hlsUrl := "movies/7/film.mp4";
                v_duration := 120;
                v_releaseYear := 2023;
                v_genre := "Drama";
                v_rating := "PG-13";
                v_featured := false;
                v_category := "Drama";
                v_createdAt := DateOfClock 0 |}).
Proof.
  destruct (getVideoById_first_parsed (scripted bothSources) (JS.Num 7) 1
              (warm [asset "movie-3" false; asset "7" false; asset "07" true]))
    as (H & _).
  destruct (H [asset "movie-3" false] (asset "7" false) [asset "07" true])
    as (video & E & P).
  - reflexivity.
  - reflexivity.
  - intros x [<-|[]]. reflexivity.
  - rewrite E. destruct video. unfold presents in P.
    cbn [v_id v_title v_description v_thumbnailUrl v_videoUrl v_hlsUrl v_duration
         v_releaseYear v_genre v_rating v_featured v_category v_createdAt] in P.
    destruct P as (P1 & P2 & P3 & P4 & P5 & P6 & P7 & P8 & P9 & P10 & P11 & P12 & P13).
    subst. reflexivity.
Defined.

(** A poster alone surfaces no asset: when the listing has only the
    poster of movie 1, the entry of the snapshot is the record's. *)
Example poster_alone_surfaces_nothing :
  sc_listing posterOnly = OK [file "movies/1/poster.png"]
  /\ sc_records posterOnly
     = OK (Some [record "1" (Some "uploads/one.mp4") None])
  /\ listedIds (scripted posterOnly) [file "movies/1/poster.png"] = ["1"]
  /\ videosCache (snd (refreshCache (scripted posterOnly) cold))
     = [dynamoProcessed (record "1" (Some "uploads/one.mp4") None)
          (Some "https://signed/uploads/one.mp4")
          (DateOfString "2024-01-01T00:00:00.000Z")]
  /\ map title (videosCache (snd (refreshCache (scripted posterOnly) cold)))
     = ["Record 1"].
Proof. repeat split; reflexivity. Qed.

(** C4: the code does not do what the claim and its own comment say
    (line 96, [// First movie is featured]): the flag is computed as
    [movie.id === '1'], not from the position in the listing.  On a
    listing that meets movie 2 first and has no movie 1, no asset of the
    snapshot is featured. *)
Lemma first_listed_is_not_featured :
  sc_listing withoutMovieOne
  = OK [file "movies/2/film.mp4"; file "movies/3/film.mp4"]
  /\ hd_error (listedIds (scripted withoutMovieOne)
                 [file "movies/2/film.mp4"; file "movies/3/film.mp4"])
     = Some "2"
  /\ map (fun v => (id v, featured v))
       (videosCache (snd (refreshCache (scripted withoutMovieOne) cold)))
     = [("2", false); ("3", false)].
Proof. repeat split; reflexivity. Qed.

(** With an empty listing a record that says so is featured. *)
Example record_flag_is_copied :
  sc_listing keylessRecord = OK []
  /\ map (fun v => (id v, featured v))
       (videosCache (snd (refreshCache (scripted keylessRecord) cold)))
     = [("9", true)].
Proof. split; reflexivity. Qed.

(** C5, as stated, fails: a record without a video key is in the
    snapshot, with an empty playback key and no playback URL. *)
Lemma keyless_record_is_included :
  sc_records keylessRecord = OK (Some [record "9" None (Some true)])
  /\ map (fun v => (id v, hlsUrl v, videoUrl v))
       (videosCache (snd (refreshCache (scripted keylessRecord) cold)))
     = [("9", "", None)].
Proof. split; reflexivity. Qed.

(** C8, as stated, fails: outside development mode a failed mirror write
    fails the call, after the asset is appended. *)
Lemma mirror_failure_fails_ingest :
  notDevelopment (scripted (mirrorDown "production")) = true
  /\ fst (requestTranscodeJob (scripted (mirrorDown "production"))
            "New" "Upload" "uploads/new.mp4" (warm shelf))
     = Throw (Error "table unavailable")
  /\ map id (videosCache
               (snd (requestTranscodeJob (scripted (mirrorDown "production"))
                       "New" "Upload" "uploads/new.mp4" (warm shelf))))
     = ["2"; "1"; "0"].
Proof. repeat split; reflexivity. Qed.

(** In development mode the table is not written at all. *)
Example development_skips_mirror :
  fst (requestTranscodeJob (scripted (mirrorDown "development"))
         "New" "Upload" "uploads/new.mp4" (warm shelf)) = OK (processed "0")
  /\ calls (io (snd (requestTranscodeJob (scripted (mirrorDown "development"))
                       "New" "Upload" "uploads/new.mp4" (warm shelf))))
     = [GetSignedVideoUrl "uploads/new.mp4"].
Proof. split; reflexivity. Qed.


(** C10, as stated, fails: an id that starts with a sign or a space does
    not begin with a digit and is found all the same. *)
Lemma signed_id_is_found :
  JS.isAsciiDigit "-" = false
  /\ fst (getVideoById (scripted bothSources) (JS.Num (-5))
            (warm [asset "-5" false]))
     = OK (Some (toVideo (asset "-5" false)))
  /\ JS.isAsciiDigit " " = false
  /\ fst (getVideoById (scripted bothSources) (JS.Num 7)
            (warm [asset " 7" false]))
     = OK (Some (toVideo (asset " 7" false))).
Proof. repeat split; reflexivity. Qed.

(** The scenario of the specification: movie 1 from the listing is the
    featured asset, and the three ids are in the snapshot. *)
Example end_to_end :
  map id (videosCache (snd (refreshCache (scripted bothSources) cold)))
  = ["1"; "2"; "movie-3"]
  /\ option_map (fun c => v_title (fc_video c))
       (match fst (getFeaturedContent (scripted bothSources) 7 cold) with
        | OK c => Some c
        | Throw _ => None
        end) = Some "One".
Proof. split; reflexivity. Qed.

(* ================================================================== *)
(** * Facts: the streaming route *)

Section StreamRouteFacts.
Context {W : Type} (env : Services W) (net : Network W).

(** The route is its edge tier, whose exceptions are swallowed,
    followed by the origin tiers when the edge tier has not answered. *)
Lemma streamContent_run (key finalKey : string) (range : option string)
    (s : Handler W) :
  key <> "" ->
  decodeKey key = OK finalKey ->
  streamContent env net key range s =
  match cloudFrontTier net finalKey (extensionOf env finalKey)
          (contentTypeOf (extensionOf env finalKey)) s with
  | (OK true, s') => (OK tt, s')
  | (OK false, s') => behindEdge env net finalKey range s'
  | (Throw _, s') => behindEdge env net finalKey range s'
  end.
Proof.
  intros Hk Hd. unfold streamContent, behindEdge.
  apply String.eqb_neq in Hk. rewrite Hk.
  unfold tryCatch at 1. unfold bind at 1. unfold liftRes. rewrite Hd.
  unfold bind at 1. unfold tryCatch at 1.
  destruct (cloudFrontTier net finalKey (extensionOf env finalKey)
              (contentTypeOf (extensionOf env finalKey)) s) as [[[|]|e] s'];
    unfold ret; try reflexivity.
Qed.

(** C6 (amended): when the edge tier is tried and its signer or its
    fetch throws, the route goes on with the origin tiers on a response
    nothing has been written to, so the client sees their outcome only.
    When the edge fetch returns a response, whatever its status, the
    route relays that status with the body and returns without
    consulting the origin. *)
Theorem edge_errors_fall_through (key finalKey : string) (range : option string)
    (s : Handler W) (getSignedUrl : string -> W -> Res string * W)
    (domain : string) :
  key <> "" ->
  decodeKey key = OK finalKey ->
  cloudFrontService net = Some getSignedUrl ->
  JS.truthyString (AWS_CLOUDFRONT_DOMAIN net) = Some domain ->
  edgeServed (extensionOf env finalKey) = true ->
  (forall e w,
      getSignedUrl finalKey (world (h_io s)) = (Throw e, w) ->
      streamContent env net key range s
      = behindEdge env net finalKey range
          {| h_io := {| world := w;
                        calls := (calls (h_io s)
                                  ++ [CloudFrontGetSignedUrl finalKey])%list |};
             res := res s |})
  /\ (forall signedUrl w e w',
      getSignedUrl finalKey (world (h_io s)) = (OK signedUrl, w) ->
      fetch net signedUrl None w = (Throw e, w') ->
      streamContent env net key range s
      = behindEdge env net finalKey range
          {| h_io := {| world := w';
                        calls := (calls (h_io s)
                                  ++ [CloudFrontGetSignedUrl finalKey;
                                      Fetch signedUrl None])%list |};
             res := res s |})
  /\ (forall signedUrl w response w' stream,
      getSignedUrl finalKey (world (h_io s)) = (OK signedUrl, w) ->
      fetch net signedUrl None w = (OK response, w') ->
      r_body response = Some stream ->
      fst (streamContent env net key range s) = OK tt
      /\ statusCode (res (snd (streamContent env net key range s)))
         = r_status response
      /\ sent (res (snd (streamContent env net key range s)))
         = Some (Piped stream)
      /\ calls (h_io (snd (streamContent env net key range s)))
         = (calls (h_io s)
            ++ [CloudFrontGetSignedUrl finalKey; Fetch signedUrl None])%list).
Proof.
  intros Hk Hd Hcf Hdom Hext.
  rewrite (streamContent_run range s Hk Hd).
  unfold cloudFrontTier. rewrite Hcf, Hdom.
  unfold edgeServed in Hext. rewrite Hext.
  split; [|split].
  - intros e w Hs.
    unfold bind, liftH, external. cbv beta. rewrite Hs. reflexivity.
  - intros url w e w' Hs Hf.
    unfold bind, callFetch, liftH, external. cbv beta. rewrite Hs.
    cbn [h_io world calls res]. rewrite Hf, <- app_assoc. reflexivity.
  - intros url w response w' stream Hs Hf Hb.
    unfold bind, callFetch, liftH, external. cbv beta. rewrite Hs.
    cbn [h_io world calls res]. rewrite Hf. unfold pipeOr. rewrite Hb.
    unfold setCors, setContentType.
    destruct (JS.truthyString (r_contentType response));
      cbn; rewrite <- app_assoc; repeat split; reflexivity.
Qed.

End StreamRouteFacts.

(* ================================================================== *)
(** * Concrete runs of the streaming route *)

Lemma edge_errors_fall_through_witness :
  ("movies%2F1%2Ffilm.mp4" <> ""
   /\ decodeKey "movies%2F1%2Ffilm.mp4" = OK "movies/1/film.mp4"
   /\ edgeServed (extensionOf (scripted bothSources) "movies/1/film.mp4") = true
   /\ brokenSigner "movies/1/film.mp4" = Throw (Error "private key missing"))
  /\ res (snd (streamContent (scripted bothSources) (edge brokenSigner (OK denied))
                 "movies%2F1%2Ffilm.mp4" None request))
     = res (snd (behindEdge (scripted bothSources) (edge brokenSigner (OK denied))
                   "movies/1/film.mp4" None
                   {| h_io := {| world := 0;
                                 calls := [CloudFrontGetSignedUrl "movies/1/film.mp4"] |};
                      res := freshResponse |}))
  /\ statusCode
       (res (snd (streamContent (scripted bothSources)
                    (edge brokenSigner (OK denied))
                    "movies%2F1%2Ffilm.mp4" None request))) = 200.
Proof.
  assert (H1 : "movies%2F1%2Ffilm.mp4" <> "") by discriminate.
  assert (H2 : decodeKey "movies%2F1%2Ffilm.mp4" = OK "movies/1/film.mp4")
    by reflexivity.
  assert (H3 : edgeServed (extensionOf (scripted bothSources) "movies/1/film.mp4") = true) by reflexivity.
  split; [repeat split; assumption || reflexivity|].
  destruct (@edge_errors_fall_through Z (scripted bothSources)
              (edge brokenSigner (OK denied))
              "movies%2F1%2Ffilm.mp4" "movies/1/film.mp4" None request
              (fun key w => (brokenSigner key, w)) "cdn.example.net"
              H1 H2 eq_refl eq_refl H3) as (Hs & _ & _).
  rewrite (Hs (Error "private key missing") 0 eq_refl).
  split; reflexivity.
Defined.

(** C6, as stated, fails: the edge answers 403, and the client receives
    the 403 of the edge; the origin is never asked. *)
Lemma edge_status_reaches_client :
  r_ok denied = false
  /\ statusCode
       (res (snd (streamContent (scripted bothSources) (edge edgeSigner (OK denied))
                    "movies%2F1%2Ffilm.mp4" None request))) = 403
  /\ sent
       (res (snd (streamContent (scripted bothSources) (edge edgeSigner (OK denied))
                    "movies%2F1%2Ffilm.mp4" None request)))
     = Some (Piped "AccessDenied")
  /\ calls
       (h_io (snd (streamContent (scripted bothSources) (edge edgeSigner (OK denied))
                     "movies%2F1%2Ffilm.mp4" None request)))
     = [CloudFrontGetSignedUrl "movies/1/film.mp4";
        Fetch "https://cdn.example.net/movies/1/film.mp4" None].
Proof. repeat split; reflexivity. Qed.

(** When the edge transport fails the origin serves the range request. *)
Example edge_down_origin_serves :
  let s' := snd (streamContent (scripted bothSources)
                   (edge edgeSigner (Throw (Error "connection reset")))
                   "movies%2F1%2Ffilm.mp4" (Some "bytes=0-99") request) in
  statusCode (res s') = 200
  /\ sent (res s') = Some (Piped "bytes")
  /\ JS.get "Accept-Ranges" (headers (res s')) = Some "bytes".
Proof. repeat split; reflexivity. Qed.

(* ================================================================== *)
(** * Further facts: the refresh pass *)

Section PassFacts.
Context {W : Type} (env : Services W).

Lemma signing_calls (key : option string) (i : IO W) r i' :
  match JS.truthyString key with
  | Some k => callGetSignedVideoUrl env k
  | None => ret None
  end i = (r, i') ->
  exists extra, calls i' = (calls i ++ extra)%list /\ Forall (passCall env) extra.
Proof.
  destruct (JS.truthyString key) as [k|]; intros H.
  - unfold callGetSignedVideoUrl, external in H.
    destruct (getSignedVideoUrl env k (world i)) as [r0 w]. inversion H; subst.
    exists [GetSignedVideoUrl k]. split; [reflexivity|].
    constructor; [left; reflexivity | constructor].
  - unfold ret in H. inversion H; subst. exists []. rewrite app_nil_r.
    split; [reflexivity | constructor].
Qed.

Lemma processMovie_calls movie acc (i : IO W) r i' :
  processMovie env movie acc i = (r, i') ->
  exists extra, calls i' = (calls i ++ extra)%list /\ Forall (passCall env) extra.
Proof.
  unfold processMovie. destruct (videoOf movie) as [videoFile|].
  - unfold bind at 1.
    destruct (match JS.truthyString (mf_key videoFile) with
              | Some key => callGetSignedVideoUrl env key
              | None => ret None
              end i) as [[videoUrl|e] i1] eqn:S.
    + apply signing_calls in S. destruct S as (x1 & C1 & F1).
      unfold bind at 1. rewrite now_run. unfold bind at 1. unfold tryCatch.
      unfold passCall in *. destruct (notDevelopment env) eqn:ND.
      * unfold bind at 1. rewrite now_run.
        unfold callPutItem, external.
        match goal with
        | |- context [putItem env ?t ?it ?w] =>
            destruct (putItem env t it w) as [[[]|e] w'] eqn:P
        end; unfold ret; intros H; inversion H; subst; cbn [calls ticked];
          rewrite C1, <- app_assoc; eexists; (split; [reflexivity|]);
          apply Forall_app; (split; [exact F1|]);
          (constructor; [right; split; [reflexivity | eexists; reflexivity]
                        | constructor]).
      * unfold ret. intros H. inversion H; subst. cbn [calls ticked].
        exists x1. split; [exact C1 | exact F1].
    + intros H. inversion H; subst. eapply signing_calls. exact S.
  - unfold ret. intros H. inversion H; subst. exists []. rewrite app_nil_r.
    split; [reflexivity | constructor].
Qed.

Lemma mergeDynamo_calls dynamoVideo acc (i : IO W) r i' :
  mergeDynamo env dynamoVideo acc i = (r, i') ->
  exists extra, calls i' = (calls i ++ extra)%list /\ Forall (passCall env) extra.
Proof.
  unfold mergeDynamo.
  destruct (existsb _ acc).
  - unfold ret. intros H. inversion H; subst. exists []. rewrite app_nil_r.
    split; [reflexivity | constructor].
  - unfold bind at 1.
    destruct (match JS.truthyString (dv_videoKey dynamoVideo) with
              | Some key => callGetSignedVideoUrl env key
              | None => ret None
              end i) as [[videoUrl|e] i1] eqn:S.
    + apply signing_calls in S. destruct S as (x1 & C1 & F1).
      destruct (JS.truthyString (dv_createdAt dynamoVideo)).
      * unfold bind, ret. intros H. inversion H; subst. eauto.
      * unfold bind. rewrite now_run. unfold ret. intros H. inversion H; subst.
        cbn [calls ticked]. eauto.
    + intros H. inversion H; subst. eapply signing_calls. exact S.
Qed.

Lemma forOf_calls {A} (body : A -> list ProcessedVideo -> M (IO W) (list ProcessedVideo))
    (xs : list A) :
  (forall x acc i r i', body x acc i = (r, i') ->
     exists extra, calls i' = (calls i ++ extra)%list /\ Forall (passCall env) extra) ->
  forall acc i r i', forOf xs body acc i = (r, i') ->
     exists extra, calls i' = (calls i ++ extra)%list /\ Forall (passCall env) extra.
Proof.
  intros Hb. induction xs as [|x rest IH]; intros acc i r i' H.
  - cbn in H. unfold ret in H. inversion H; subst. exists []. rewrite app_nil_r.
    split; [reflexivity | constructor].
  - cbn [forOf] in H. unfold bind in H.
    destruct (body x acc i) as [[acc1|e] i1] eqn:B.
    + apply Hb in B. destruct B as (x1 & C1 & F1).
      apply IH in H. destruct H as (x2 & C2 & F2).
      exists (x1 ++ x2)%list. rewrite C2, C1, app_assoc.
      split; [reflexivity | now apply Forall_app].
    + inversion H; subst. eapply Hb. exact B.
Qed.

Lemma buildCatalog_calls (i : IO W) :
  exists rest,
    calls (snd (buildCatalog env i)) = (calls i ++ ListVideos "movies/" :: rest)%list
    /\ Forall (passCall env) rest.
Proof.
  unfold buildCatalog. unfold bind at 1. unfold callListVideos, external.
    destruct (listVideos env "movies/" (world i)) as [[s3Videos|e] w1].
    - unfold bind at 1. unfold callGetDynamoVideos, external. cbn [world calls].
      destruct (getDynamoVideos env w1) as [[dynamoVideos|e] w2].
      + unfold bind at 1.
        destruct (forOf (JS.values (groupFiles env s3Videos)) (processMovie env) []
                    {| world := w2;
                       calls := ((calls i ++ [ListVideos "movies/"]) ++ [GetAllVideos])%list |})
          as [[built|e] i1] eqn:L.
        * apply (forOf_calls (processMovie env)) in L; [|apply processMovie_calls].
          destruct L as (x1 & C1 & F1). cbn [calls] in C1.
          assert (T : forall r i',
                     match dynamoVideos with
                     | Some (d :: ds) => forOf (d :: ds) (mergeDynamo env) built
                     | _ => ret built
                     end i1 = (r, i') ->
                     exists extra, calls i' = (calls i1 ++ extra)%list
                                   /\ Forall (passCall env) extra).
          { intros r i' H. destruct dynamoVideos as [[|d ds]|].
            - unfold ret in H. inversion H; subst. exists []. rewrite app_nil_r.
              split; [reflexivity | constructor].
            - eapply (forOf_calls (mergeDynamo env)); [apply mergeDynamo_calls | exact H].
            - unfold ret in H. inversion H; subst. exists []. rewrite app_nil_r.
              split; [reflexivity | constructor]. }
          destruct (match dynamoVideos with
                    | Some (d :: ds) => forOf (d :: ds) (mergeDynamo env) built
                    | _ => ret built
                    end i1) as [r i'] eqn:R.
          destruct (T r i' eq_refl) as (x2 & C2 & F2). cbn [snd].
          exists (GetAllVideos :: x1 ++ x2)%list.
          rewrite C2, C1, <- !app_assoc. split; [reflexivity|].
          constructor; [left; reflexivity | now apply Forall_app].
        * apply (forOf_calls (processMovie env)) in L; [|apply processMovie_calls].
          destruct L as (x1 & C1 & F1). cbn [calls snd] in *.
          exists (GetAllVideos :: x1)%list. rewrite C1, <- !app_assoc.
          split; [reflexivity|]. constructor; [left; reflexivity | exact F1].
      + cbn. exists [GetAllVideos]. rewrite <- app_assoc. split; [reflexivity|].
        constructor; [left; reflexivity | constructor].
    - cbn. exists []. split; [reflexivity | constructor].
Qed.

(** X1: a pass begins with the listing under ["movies/"]; after it the
    pass calls only the table scan, the signer and, outside development
    mode, [putItem] on ["StreamingVideos"].  In development mode a pass
    writes nothing. *)
Theorem pass_calls (i : IO W) :
  exists rest,
    calls (snd (buildCatalog env i)) = (calls i ++ ListVideos "movies/" :: rest)%list
    /\ Forall (fun c =>
                 isScanOrSign c = true
                 \/ (notDevelopment env = true
                     /\ exists item, c = PutItem "StreamingVideos" item)) rest
    /\ (notDevelopment env = false -> Forall (fun c => isPutItem c = false) rest).
Proof.
  destruct (buildCatalog_calls i) as (rest & C & F).
  exists rest. split; [exact C|]. split; [exact F|].
  intros ND. eapply Forall_impl; [|exact F].
  intros c [Hc|[Hd _]]; [|congruence].
  destruct c; try discriminate Hc; reflexivity.
Qed.

Lemma signing_ok (key : option string) (i : IO W) :
  (forall k w, isOK (fst (getSignedVideoUrl env k w)) = true) ->
  exists url i',
    match JS.truthyString key with
    | Some k => callGetSignedVideoUrl env k
    | None => ret None
    end i = (OK url, i').
Proof.
  intros Hs. destruct (JS.truthyString key) as [k|].
  - unfold callGetSignedVideoUrl, external. specialize (Hs k (world i)).
    destruct (getSignedVideoUrl env k (world i)) as [[url|e] w]; [eauto | discriminate Hs].
  - unfold ret. eauto.
Qed.

Lemma processMovie_total movie acc (i : IO W) :
  (forall k w, isOK (fst (getSignedVideoUrl env k w)) = true) ->
  exists acc' i', processMovie env movie acc i = (OK acc', i').
Proof.
  intros Hs. unfold processMovie. destruct (videoOf movie) as [videoFile|].
  - unfold bind at 1.
    destruct (signing_ok (mf_key videoFile) i Hs) as (url & i1 & ->).
    unfold bind at 1. rewrite now_run. unfold bind at 1.
    match goal with
    | |- context [tryCatch (if ?b then ?m else _) _ ?j] =>
        destruct (mirror_run b m j) as [i2 ->]
    end.
    unfold ret. eauto.
  - unfold ret. eauto.
Qed.

Lemma mergeDynamo_total dynamoVideo acc (i : IO W) :
  (forall k w, isOK (fst (getSignedVideoUrl env k w)) = true) ->
  exists acc' i', mergeDynamo env dynamoVideo acc i = (OK acc', i').
Proof.
  intros Hs. unfold mergeDynamo. destruct (existsb _ acc).
  - unfold ret. eauto.
  - unfold bind at 1.
    destruct (signing_ok (dv_videoKey dynamoVideo) i Hs) as (url & i1 & ->).
    destruct (JS.truthyString (dv_createdAt dynamoVideo)).
    + unfold bind, ret. eauto.
    + unfold bind. rewrite now_run. unfold ret. eauto.
Qed.

Lemma forOf_total {A B} (body : A -> B -> M (IO W) B) (xs : list A) :
  (forall x acc i, exists acc' i', body x acc i = (OK acc', i')) ->
  forall acc i, exists acc' i', forOf xs body acc i = (OK acc', i').
Proof.
  intros Hb. induction xs as [|x r IH]; intros acc i.
  - cbn. unfold ret. eauto.
  - cbn [forOf]. unfold bind. destruct (Hb x acc i) as (acc1 & i1 & ->). apply IH.
Qed.

(** X2: when the signer does not throw, a pass throws only if one of the
    two fetches throws: whatever the mirror writes do, a pass whose
    listing and table scan succeed builds a catalog, and [refreshCache]
    stores it with the clock value read at the start of the call. *)
Theorem pass_survives_mirror_failures (s : Service W) s3Videos w1 dynamoVideos w2 :
  (forall k w, isOK (fst (getSignedVideoUrl env k w)) = true) ->
  fresh env s = false ->
  listVideos env "movies/" (world (ticked env (io s))) = (OK s3Videos, w1) ->
  getDynamoVideos env w1 = (OK dynamoVideos, w2) ->
  exists processedVideos,
    fst (buildCatalog env (ticked env (io s))) = OK processedVideos
    /\ videosCache (snd (refreshCache env s)) = processedVideos
    /\ lastCacheRefresh (snd (refreshCache env s)) = clockOf env (io s).
Proof.
  intros Hs F HL HD.
  assert (B : exists processedVideos i',
             buildCatalog env (ticked env (io s)) = (OK processedVideos, i')).
  { unfold buildCatalog. unfold bind at 1. unfold callListVideos, external.
    rewrite HL. unfold bind at 1. unfold callGetDynamoVideos, external.
    cbn [world calls]. rewrite HD. unfold bind at 1.
    match goal with
    | |- context [forOf ?l (processMovie env) [] ?j] =>
        destruct (forOf_total (processMovie env) l
                    (fun x acc i => processMovie_total x acc i Hs) [] j)
          as (built & i1 & ->)
    end.
    destruct dynamoVideos as [[|d ds]|]; try (unfold ret; eauto).
    apply (forOf_total (mergeDynamo env)).
    intros x acc i. apply mergeDynamo_total, Hs. }
  destruct B as (processedVideos & i' & B). exists processedVideos.
  rewrite refreshCache_run. unfold refreshed. rewrite F, B. repeat split.
Qed.

Lemma processMovie_signer_down movie videoFile key acc (i : IO W) :
  (forall w, isOK (fst (getSignedVideoUrl env key w)) = false) ->
  videoOf movie = Some videoFile ->
  JS.truthyString (mf_key videoFile) = Some key ->
  isOK (fst (processMovie env movie acc i)) = false.
Proof.
  intros Hs Hv Hk. unfold processMovie. rewrite Hv. unfold bind at 1. rewrite Hk.
  unfold callGetSignedVideoUrl, external. specialize (Hs (world i)).
  destruct (getSignedVideoUrl env key (world i)) as [[url|e] w];
    [discriminate Hs | reflexivity].
Qed.

Lemma forOf_throws_at {A B} (body : A -> B -> M (IO W) B) (xs : list A) (x : A) :
  In x xs ->
  (forall acc i, isOK (fst (body x acc i)) = false) ->
  forall acc i, isOK (fst (forOf xs body acc i)) = false.
Proof.
  intros Hin Hx. induction xs as [|y r IH]; [destruct Hin|].
  intros acc i. cbn [forOf]. unfold bind.
  destruct Hin as [->|Hin].
  - specialize (Hx acc i). destruct (body x acc i) as [[a|e] i1];
      [discriminate Hx | reflexivity].
  - destruct (body y acc i) as [[a|e] i1]; [apply IH, Hin | reflexivity].
Qed.

(** X3: one key the signer throws on aborts the whole pass: when the
    listing has a group whose video file is under that key, the pass
    throws, whatever the signer does on the other keys, and
    [refreshCache] keeps the snapshot and the time stamp it found. *)
Theorem signer_failure_aborts_pass (s : Service W) s3Videos w1 dynamoVideos w2
    movie videoFile key :
  (forall w, isOK (fst (getSignedVideoUrl env key w)) = false) ->
  fresh env s = false ->
  listVideos env "movies/" (world (ticked env (io s))) = (OK s3Videos, w1) ->
  getDynamoVideos env w1 = (OK dynamoVideos, w2) ->
  In movie (JS.values (groupFiles env s3Videos)) ->
  videoOf movie = Some videoFile ->
  JS.truthyString (mf_key videoFile) = Some key ->
  isOK (fst (buildCatalog env (ticked env (io s)))) = false
  /\ videosCache (snd (refreshCache env s)) = videosCache s
  /\ lastCacheRefresh (snd (refreshCache env s)) = lastCacheRefresh s.
Proof.
  intros Hs F HL HD Hm Hv Hk.
  assert (B : isOK (fst (buildCatalog env (ticked env (io s)))) = false).
  { unfold buildCatalog. unfold bind at 1. unfold callListVideos, external.
    rewrite HL. unfold bind at 1. unfold callGetDynamoVideos, external.
    cbn [world calls]. rewrite HD. unfold bind at 1.
    match goal with
    | |- context [forOf ?l (processMovie env) [] ?j] =>
        pose proof (@forOf_throws_at _ _ (processMovie env) l movie Hm
                      (fun acc i =>
                         @processMovie_signer_down movie videoFile key acc i Hs Hv Hk)
                      [] j) as T;
        destruct (forOf l (processMovie env) [] j) as [[built|e] i1]
    end; [discriminate T | reflexivity]. }
  split; [exact B|].
  rewrite refreshCache_run. unfold refreshed. rewrite F.
  destruct (buildCatalog env (ticked env (io s))) as [[p|e] i']; [discriminate B|].
  split; reflexivity.
Qed.

(** X4: with an empty snapshot the gate never closes: whatever the time
    stamp of the last refresh, [refreshCache] calls the listing. *)
Theorem empty_snapshot_always_rescans (s : Service W) :
  videosCache s = [] ->
  exists rest,
    calls (io (snd (refreshCache env s)))
    = (calls (io s) ++ ListVideos "movies/" :: rest)%list.
Proof.
  intros He. rewrite refreshCache_run. unfold refreshed.
  assert (F : fresh env s = false).
  { unfold fresh. rewrite He. cbn. apply andb_false_r. }
  rewrite F.
  destruct (buildCatalog_calls (ticked env (io s))) as (rest & C & _).
  exists rest.
  destruct (buildCatalog env (ticked env (io s))) as [[p|e] i']; exact C.
Qed.

(** X5: two calls in a row: after a pass that stored a non-empty
    catalog, a second [refreshCache] whose clock reading is less than 60
    seconds after the first one's makes no call and keeps the catalog. *)
Theorem second_refresh_is_idle (s : Service W) processedVideos i :
  fresh env s = false ->
  buildCatalog env (ticked env (io s)) = (OK processedVideos, i) ->
  processedVideos <> [] ->
  clockOf env i - clockOf env (io s) < 60 * 1000 ->
  let s1 := snd (refreshCache env s) in
  calls (io (snd (refreshCache env s1))) = calls (io s1)
  /\ videosCache (snd (refreshCache env s1)) = processedVideos
  /\ lastCacheRefresh (snd (refreshCache env s1)) = clockOf env (io s).
Proof.
  intros F B Hne Ht. cbv zeta.
  assert (E : snd (refreshCache env s)
              = {| io := i; videosCache := processedVideos;
                   lastCacheRefresh := clockOf env (io s) |}).
  { rewrite refreshCache_run. unfold refreshed. rewrite F, B. reflexivity. }
  rewrite E, refreshCache_run. unfold refreshed.
  assert (F1 : fresh env {| io := i; videosCache := processedVideos;
                            lastCacheRefresh := clockOf env (io s) |} = true).
  { unfold fresh, CACHE_TTL. cbn [io videosCache lastCacheRefresh].
    apply andb_true_iff. split; [apply Z.ltb_lt; exact Ht|].
    apply Z.ltb_lt. destruct processedVideos; [congruence | cbn; lia]. }
  rewrite F1. cbn. repeat split.
Qed.

End PassFacts.

(* ================================================================== *)
(** * Further facts: maps, groups and listings *)

Section MapFacts.
Context {V : Type}.

Lemma get_set k k' (v : V) (m : JS.JSMap V) :
  JS.get k (JS.set k' v m) = if String.eqb k' k then Some v else JS.get k m.
Proof.
  induction m as [|[k0 v0] r IH]; cbn.
  - destruct (String.eqb k' k); reflexivity.
  - destruct (String.eqb_spec k0 k') as [->|Hn]; cbn.
    + destruct (String.eqb k' k); reflexivity.
    + destruct (String.eqb_spec k0 k) as [->|Hk].
      * destruct (String.eqb_spec k' k) as [->|_]; [congruence | reflexivity].
      * exact IH.
Qed.

Lemma get_mutate k k' (f : V -> V) (m : JS.JSMap V) :
  JS.get k (JS.mutate k' f m)
  = if String.eqb k' k then option_map f (JS.get k m) else JS.get k m.
Proof.
  induction m as [|[k0 v0] r IH]; cbn.
  - destruct (String.eqb k' k); reflexivity.
  - destruct (String.eqb_spec k0 k') as [->|Hn]; cbn.
    + destruct (String.eqb k' k); reflexivity.
    + destruct (String.eqb_spec k0 k) as [->|Hk].
      * destruct (String.eqb_spec k' k) as [->|_]; [congruence | reflexivity].
      * exact IH.
Qed.

Lemma has_get k (m : JS.JSMap V) :
  JS.has k m = match JS.get k m with Some _ => true | None => false end.
Proof.
  induction m as [|[k0 v0] r IH]; [reflexivity|]. cbn.
  destruct (String.eqb k0 k); [reflexivity | exact IH].
Qed.

Lemma get_In k v (m : JS.JSMap V) : JS.get k m = Some v -> In (k, v) m.
Proof.
  induction m as [|[k0 v0] r IH]; [discriminate|]. cbn.
  destruct (String.eqb_spec k0 k) as [->|_].
  - intros E. inversion E. now left.
  - intros E. right. now apply IH.
Qed.

Lemma In_get k v (m : JS.JSMap V) :
  NoDup (map fst m) -> In (k, v) m -> JS.get k m = Some v.
Proof.
  induction m as [|[k0 v0] r IH]; intros Hn Hin; [destruct Hin|].
  cbn in Hn. inversion Hn as [|? ? Hk Hr]; subst. cbn.
  destruct Hin as [E|Hin].
  - inversion E; subst. now rewrite String.eqb_refl.
  - destruct (String.eqb_spec k0 k) as [->|_]; [|now apply IH].
    exfalso. apply Hk. apply in_map_iff. exists (k, v). split; [reflexivity | exact Hin].
Qed.

Lemma ensure_keys k (v : V) (m : JS.JSMap V) :
  map fst (if negb (JS.has k m) then JS.set k v m else m)
  = (map fst m ++ if JS.has k m then [] else [k])%list.
Proof.
  destruct (JS.has k m) eqn:H; cbn [negb].
  - now rewrite app_nil_r.
  - rewrite set_new by exact H. now rewrite map_app.
Qed.

Lemma ensure_NoDup k (v : V) (m : JS.JSMap V) :
  NoDup (map fst m) ->
  NoDup (map fst (if negb (JS.has k m) then JS.set k v m else m)).
Proof.
  intros Hn. rewrite ensure_keys. destruct (JS.has k m) eqn:H.
  - now rewrite app_nil_r.
  - apply NoDup_snoc; [exact Hn|]. intros Hin. apply has_In in Hin. congruence.
Qed.

End MapFacts.

Section GroupFacts.
Context {W : Type} (env : Services W).

Lemma filesWithId_snoc k done file :
  filesWithId env k (done ++ [file])
  = (filesWithId env k done ++ filesWithId env k [file])%list.
Proof. unfold filesWithId. now rewrite flat_map_app. Qed.

Lemma filesWithId_one k file :
  filesWithId env k [file]
  = match extractMovieInfo env (JS.orString (f_key file) "") with
    | Some movieInfo =>
        if String.eqb (mi_id movieInfo) k then [movieFileOf movieInfo file] else []
    | None => []
    end.
Proof.
  unfold filesWithId. cbn [flat_map]. rewrite app_nil_r. reflexivity.
Qed.

Lemma groupFile_grouped m done file :
  grouped env m done -> grouped env (groupFile env m file) (done ++ [file]).
Proof.
  intros G k. specialize (G k). rewrite filesWithId_snoc, filesWithId_one.
  unfold groupFile.
  destruct (extractMovieInfo env (JS.orString (f_key file) "")) as [movieInfo|].
  - rewrite get_mutate.
    destruct (String.eqb_spec (mi_id movieInfo) k) as [E|Hn].
    + rewrite has_get. subst k.
      destruct (JS.get (mi_id movieInfo) m) as [movie|] eqn:Gm; cbn [negb].
      * rewrite Gm. cbn [option_map m_id m_files].
        destruct G as (G1 & G2 & G3). rewrite G2.
        split; [exact G1|]. split; [reflexivity|].
        intros Z. apply app_eq_nil in Z. destruct Z as [_ Z]. discriminate Z.
      * rewrite get_set, String.eqb_refl. cbn [option_map m_id m_files].
        rewrite G. cbn. repeat split. discriminate.
    + assert (E : JS.get k (if negb (JS.has (mi_id movieInfo) m)
                            then JS.set (mi_id movieInfo)
                                   {| m_id := mi_id movieInfo;
                                      m_title := mi_title movieInfo;
                                      m_genre := mi_genre movieInfo;
                                      m_files := [] |} m
                            else m) = JS.get k m).
      { destruct (negb (JS.has (mi_id movieInfo) m)); [|reflexivity].
        rewrite get_set. apply String.eqb_neq in Hn. now rewrite Hn. }
      rewrite E, app_nil_r. exact G.
  - rewrite app_nil_r. exact G.
Qed.

Lemma groupFiles_grouped_from files : forall m done,
  grouped env m done ->
  grouped env (fold_left (groupFile env) files m) (done ++ files).
Proof.
  induction files as [|f r IH]; intros m done G.
  - cbn. now rewrite app_nil_r.
  - cbn [fold_left].
    replace (done ++ f :: r)%list with ((done ++ [f]) ++ r)%list
      by now rewrite <- app_assoc.
    apply IH, groupFile_grouped, G.
Qed.

Lemma groupFiles_grouped s3Videos : grouped env (groupFiles env s3Videos) s3Videos.
Proof.
  apply (@groupFiles_grouped_from s3Videos [] []). intros k. reflexivity.
Qed.

Lemma groupFiles_keys_distinct s3Videos :
  NoDup (map fst (groupFiles env s3Videos)).
Proof.
  assert (H0 : NoDup (map fst (@nil (string * Movie))) /\ keyed [])
    by (split; constructor).
  exact (proj1 (@groupFiles_inv_from W env s3Videos [] H0)).
Qed.

(** X6: grouping loses and invents nothing: each group holds exactly
    the listed files in which [extractMovieInfo] reads the group's id, in
    listing order, and is never empty; every listed file that
    [extractMovieInfo] reads is in the group of its id. *)
Theorem groups_partition_listing (s3Videos : list S3File) :
  (forall movie,
      In movie (JS.values (groupFiles env s3Videos)) ->
      m_files movie = filesWithId env (m_id movie) s3Videos
      /\ m_files movie <> [])
  /\ (forall file movieInfo,
      In file s3Videos ->
      extractMovieInfo env (JS.orString (f_key file) "") = Some movieInfo ->
      exists movie,
        In movie (JS.values (groupFiles env s3Videos))
        /\ m_id movie = mi_id movieInfo
        /\ In (movieFileOf movieInfo file) (m_files movie)).
Proof.
  pose proof (groupFiles_grouped s3Videos) as G.
  pose proof (groupFiles_keys_distinct s3Videos) as Hn.
  split.
  - intros movie Hm. unfold JS.values in Hm. apply in_map_iff in Hm.
    destruct Hm as ([k mv] & E & Hin). cbn in E. subst mv.
    apply (@In_get _ _ _ _ Hn) in Hin. specialize (G k). rewrite Hin in G.
    destruct G as (G1 & G2 & G3). rewrite G1. split; assumption.
  - intros file movieInfo Hf He.
    assert (Hin : In (movieFileOf movieInfo file)
                    (filesWithId env (mi_id movieInfo) s3Videos)).
    { unfold filesWithId. apply in_flat_map. exists file. split; [exact Hf|].
      rewrite He, String.eqb_refl. now left. }
    specialize (G (mi_id movieInfo)).
    destruct (JS.get (mi_id movieInfo) (groupFiles env s3Videos)) as [movie|] eqn:Gm.
    + destruct G as (G1 & G2 & _). exists movie. split.
      * unfold JS.values. apply in_map_iff. exists (mi_id movieInfo, movie).
        split; [reflexivity | now apply get_In].
      * split; [exact G1 | now rewrite G2].
    + rewrite G in Hin. destruct Hin.
Qed.

End GroupFacts.

Section ListingFacts.
Context {W : Type} (env : Services W).

Lemma inCategory_snoc k done v :
  inCategory k (done ++ [v])
  = (inCategory k done ++ if String.eqb (category v) k then [v] else [])%list.
Proof.
  unfold inCategory. rewrite filter_app. cbn.
  destruct (String.eqb (category v) k); reflexivity.
Qed.

Lemma firstSeen_snoc a : forall seen v,
  firstSeen seen (a ++ [v])
  = (firstSeen seen a
     ++ if existsb (String.eqb (category v)) seen then []
        else match inCategory (category v) a with
             | [] => [category v]
             | _ :: _ => []
             end)%list.
Proof.
  induction a as [|x r IH]; intros seen v.
  - cbn. destruct (existsb (String.eqb (category v)) seen); reflexivity.
  - cbn [app firstSeen]. unfold inCategory. cbn [filter]. fold (inCategory (category v) r).
    destruct (existsb (String.eqb (category x)) seen) eqn:Sx.
    + rewrite IH. f_equal.
      destruct (existsb (String.eqb (category v)) seen) eqn:Sv; [reflexivity|].
      destruct (String.eqb_spec (category x) (category v)) as [E|_]; [|reflexivity].
      rewrite E in Sx. congruence.
    + rewrite IH. cbn [app existsb]. f_equal. f_equal.
      rewrite (String.eqb_sym (category v) (category x)).
      destruct (String.eqb (category x) (category v)); cbn [orb].
      * destruct (existsb (String.eqb (category v)) seen); reflexivity.
      * reflexivity.
Qed.

Lemma categorize_exact video m (i : IO W) :
  exists e i',
    categorize env video m i
    = (OK (JS.mutate (category video) (fun videos => (videos ++ [e])%list)
             (if negb (JS.has (category video) m)
              then JS.set (category video) [] m else m)), i')
    /\ vm_video e = toVideo video.
Proof.
  unfold categorize, bind, ret.
  destruct (addMatch_run env video i) as (e & i1 & E & Hv). rewrite E. eauto.
Qed.

Lemma categorize_step video m done e :
  vm_video e = toVideo video ->
  categorized m done ->
  categorized
    (JS.mutate (category video) (fun videos => (videos ++ [e])%list)
       (if negb (JS.has (category video) m)
        then JS.set (category video) [] m else m))
    (done ++ [video]).
Proof.
  intros He (Hn & Hk & Hg).
  assert (Hhas : JS.has (category video) m
                 = match inCategory (category video) done with
                   | [] => false
                   | _ :: _ => true
                   end).
  { rewrite has_get. specialize (Hg (category video)).
    destruct (JS.get (category video) m) as [videos|].
    - destruct Hg as [Hne Hm].
      destruct (inCategory (category video) done); [|reflexivity].
      destruct videos; [congruence | discriminate Hm].
    - now rewrite Hg. }
  split; [|split].
  - rewrite mutate_keys. now apply ensure_NoDup.
  - rewrite mutate_keys. etransitivity; [apply ensure_keys|].
    rewrite Hk, firstSeen_snoc, Hhas. cbn [existsb].
    destruct (inCategory (category video) done); reflexivity.
  - intros k. rewrite get_mutate, inCategory_snoc. specialize (Hg k).
    destruct (String.eqb_spec (category video) k) as [E|Hne].
    + subst k. rewrite has_get.
      destruct (JS.get (category video) m) as [videos|] eqn:G; cbn [negb].
      * rewrite G. cbn [option_map]. destruct Hg as [_ Hm]. split.
        -- intros Z. apply app_eq_nil in Z. destruct Z as [_ Z]. discriminate Z.
        -- rewrite !map_app, Hm. cbn. now rewrite He.
      * rewrite get_set, String.eqb_refl. cbn [option_map]. rewrite Hg. cbn.
        split; [discriminate | now rewrite He].
    + assert (E : JS.get k (if negb (JS.has (category video) m)
                            then JS.set (category video) [] m else m) = JS.get k m).
      { destruct (negb (JS.has (category video) m)); [|reflexivity].
        rewrite get_set. apply String.eqb_neq in Hne. now rewrite Hne. }
      rewrite E, app_nil_r. exact Hg.
Qed.

Lemma categorize_loop_exact cache : forall m done (i : IO W),
  categorized m done ->
  exists m' i',
    forOf cache (categorize env) m i = (OK m', i')
    /\ categorized m' (done ++ cache).
Proof.
  induction cache as [|video r IH]; intros m done i C.
  - exists m, i. rewrite app_nil_r. split; [reflexivity | exact C].
  - cbn [forOf]. unfold bind at 1.
    destruct (categorize_exact video m i) as (e & i1 & -> & He).
    destruct (IH _ (done ++ [video])%list i1 (@categorize_step video m done e He C))
      as (m' & i' & R & C').
    exists m', i'. split; [exact R|]. now rewrite <- app_assoc in C'.
Qed.

Lemma numberCategories_fields (es : list (string * list VideoWithMatch)) :
  forall start,
    map (@c_id) (numberCategories start es) = countFrom start (List.length es)
    /\ map (fun c => (c_title c, c_videos c)) (numberCategories start es) = es.
Proof.
  induction es as [|[k vs] r IH]; intros start; [split; reflexivity|].
  cbn. destruct (IH (start + 1)) as [H1 H2]. now rewrite H1, H2.
Qed.

(** X7: the category listing has one category per distinct [category]
    of the snapshot, in the order the categories are first met, numbered
    1, 2, ...; each category is not empty and holds exactly the assets of
    the snapshot with that category, in snapshot order. *)
Theorem categories_partition_snapshot (userId : Z) (s : Service W) :
  let cache := videosCache (snd (refreshCache env s)) in
  exists categories,
    fst (getContentCategories env userId s) = OK categories
    /\ map (@c_title) categories = firstSeen [] cache
    /\ NoDup (map (@c_title) categories)
    /\ map (@c_id) categories = countFrom 1 (List.length categories)
    /\ forall c, In c categories ->
         c_videos c <> []
         /\ map (@vm_video) (c_videos c)
            = map toVideo (inCategory (c_title c) cache).
Proof.
  cbv zeta. unfold getContentCategories. unfold bind at 1.
  rewrite refreshCache_run. cbn [snd]. unfold bind at 1. unfold gets.
  unfold bind at 1. unfold liftIO.
  assert (C0 : categorized (@nil (string * list VideoWithMatch)) []).
  { split; [constructor|]. split; [reflexivity|]. intros k. reflexivity. }
  destruct (@categorize_loop_exact (videosCache (refreshed env s)) [] []
              (io (refreshed env s)) C0) as (m' & i' & R & (Hn & Hk & Hg)).
  rewrite R. unfold ret. cbn [fst app] in *.
  exists (numberCategories 1 (JS.entries m')). unfold JS.entries.
  destruct (numberCategories_fields m' 1) as [H1 H2].
  assert (Ht : map (@c_title) (numberCategories 1 m') = map fst m').
  { rewrite <- H2 at 2. rewrite map_map. reflexivity. }
  split; [reflexivity|]. split; [now rewrite Ht|]. split; [now rewrite Ht|].
  split.
  - rewrite H1. f_equal. rewrite <- H2 at 1. now rewrite length_map.
  - intros c Hc.
    assert (Hin : In (c_title c, c_videos c) m').
    { rewrite <- H2. apply in_map_iff. exists c. split; [reflexivity | exact Hc]. }
    apply (@In_get _ _ _ _ Hn) in Hin. specialize (Hg (c_title c)).
    rewrite Hin in Hg. exact Hg.
Qed.

Lemma recommend_scores cache : forall acc (i : IO W),
  (forall n w, (0 < n)%N -> (fst (Math_floor_random env n w) < n)%N) ->
  exists out i',
    forOf cache (fun video acc => e <- addMatch env video ;; ret (acc ++ [e])%list)
      acc i = (OK (acc ++ out)%list, i')
    /\ map (@vm_video) out = map toVideo cache
    /\ Forall (fun e => 70 <= vm_match e <= 99) out.
Proof.
  intros acc i Hr. revert acc i.
  induction cache as [|v r IH]; intros acc i.
  - exists [], i. cbn. rewrite app_nil_r. repeat split. constructor.
  - cbn [forOf]. unfold bind at 1. unfold bind at 1.
    unfold addMatch at 1. unfold bind at 1. unfold floorRandom.
    pose proof (Hr 30%N (world i) eq_refl) as Hb.
    destruct (Math_floor_random env 30 (world i)) as [x w]. cbn [fst] in Hb.
    unfold ret at 1 2.
    destruct (IH (acc ++ [{| vm_video := toVideo v; vm_match := Z.of_N x + 70 |}])%list
                {| world := w; calls := calls i |}) as (out & i' & R & Hm & Hf).
    exists ({| vm_video := toVideo v; vm_match := Z.of_N x + 70 |} :: out), i'.
    rewrite R, <- app_assoc. split; [reflexivity|]. split.
    + cbn. now rewrite Hm.
    + constructor; [cbn; lia | exact Hf].
Qed.

(** X8: the recommendations list every asset of the snapshot, once and
    in snapshot order; when [Math.floor(Math.random() * n)] is below
    [n], every match score is between 70 and 99. *)
Theorem recommendations_cover_snapshot (userId : Z) (s : Service W) :
  (forall n w, (0 < n)%N -> (fst (Math_floor_random env n w) < n)%N) ->
  exists out,
    fst (getRecommendedVideos env userId s) = OK out
    /\ map (@vm_video) out
       = map toVideo (videosCache (snd (refreshCache env s)))
    /\ Forall (fun e => 70 <= vm_match e <= 99) out.
Proof.
  intros Hr. unfold getRecommendedVideos. unfold bind at 1.
  rewrite refreshCache_run. unfold bind at 1. unfold gets, liftIO. cbn [snd].
  destruct (@recommend_scores (videosCache (refreshed env s)) []
              (io (refreshed env s)) Hr) as (out & i' & R & Hm & Hf).
  rewrite R. exists out. repeat split; assumption.
Qed.

End ListingFacts.

(* ================================================================== *)
(** * Further facts: ingest, watch list and the content routes *)

Section IngestFacts.
Context {W : Type} (env : Services W).

Lemma ingest_signed (title description s3Key : string) (s : Service W)
    newId i1 videoUrl i2 :
  chooseId env (extractMovieInfo env s3Key) (io s) = (OK newId, i1) ->
  callGetSignedVideoUrl env s3Key i1 = (OK videoUrl, i2) ->
  exists r i3,
    requestTranscodeJob env title description s3Key s
    = (r, {| io := i3;
             videosCache :=
               (videosCache s
                ++ [uploadedVideo (extractMovieInfo env s3Key) newId title
                      description s3Key videoUrl (clockOf env i2)])%list;
             lastCacheRefresh := lastCacheRefresh s |})
    /\ (notDevelopment env = false -> r = OK (processed newId))
    /\ (notDevelopment env = true ->
        r = match fst (putItem env "StreamingVideos"
                         (uploadedItem (extractMovieInfo env s3Key) newId title
                            description s3Key (clockOf env (ticked env i2)))
                         (world (ticked env (ticked env i2)))) with
            | OK _ => OK (processed newId)
            | Throw error => Throw error
            end).
Proof.
  intros HI HS.
  unfold requestTranscodeJob, tryCatch, bind, liftIO, modify, ret, throw.
  cbn [io]. rewrite HI. cbn [io]. rewrite HS. cbn [io]. rewrite now_run.
  cbn [io videosCache lastCacheRefresh].
  destruct (notDevelopment env) eqn:ND.
  - rewrite now_run. cbn [io videosCache lastCacheRefresh negb].
    unfold callPutItem, external.
    destruct (putItem env "StreamingVideos"
                (uploadedItem (extractMovieInfo env s3Key) newId title description
                   s3Key (clockOf env (ticked env i2)))
                (world (ticked env (ticked env i2)))) as [[[]|e] w];
      cbn [fst]; eexists; eexists; (split; [reflexivity|]);
      (split; [discriminate | reflexivity]).
  - cbn. eexists. eexists. split; [reflexivity|]. split; [reflexivity | discriminate].
Qed.

(** X9: when signing the playback URL throws, [requestTranscodeJob]
    appends nothing and does not try the mirror write; in development
    mode it still reports success, without an id, and otherwise it throws
    the signer's error. *)
Theorem ingest_needs_signed_url (title description s3Key : string) (s : Service W)
    newId i1 error i2 :
  chooseId env (extractMovieInfo env s3Key) (io s) = (OK newId, i1) ->
  callGetSignedVideoUrl env s3Key i1 = (Throw error, i2) ->
  requestTranscodeJob env title description s3Key s
  = (if notDevelopment env then Throw error else OK processedInDevelopment,
     withIO s i2)
  /\ videosCache (snd (requestTranscodeJob env title description s3Key s))
     = videosCache s
  /\ tr_videoId processedInDevelopment = None.
Proof.
  intros HI HS.
  assert (E : requestTranscodeJob env title description s3Key s
              = (if notDevelopment env then Throw error
                 else OK processedInDevelopment, withIO s i2)).
  { unfold requestTranscodeJob, tryCatch, bind, liftIO, modify, ret, throw.
    cbn [io]. rewrite HI. cbn [io]. rewrite HS.
    destruct (notDevelopment env); reflexivity. }
  rewrite E. repeat split.
Qed.

(** X10: [requestTranscodeJob] never replaces an asset: the number of
    assets with the chosen id grows by one, so an id that is already in
    the snapshot is in it twice afterwards. *)
Theorem ingest_duplicates_ids (title description s3Key : string) (s : Service W)
    newId i1 videoUrl i2 :
  chooseId env (extractMovieInfo env s3Key) (io s) = (OK newId, i1) ->
  callGetSignedVideoUrl env s3Key i1 = (OK videoUrl, i2) ->
  let after := videosCache (snd (requestTranscodeJob env title description s3Key s)) in
  count_occ string_dec (map id after) newId
  = S (count_occ string_dec (map id (videosCache s)) newId)
  /\ (In newId (map id (videosCache s)) -> ~ NoDup (map id after)).
Proof.
  intros HI HS. cbv zeta.
  destruct (@ingest_signed title description s3Key s _ _ _ _ HI HS) as (r & i3 & E & _).
  rewrite E. cbn [snd videosCache].
  assert (C : count_occ string_dec
                (map id (videosCache s
                         ++ [uploadedVideo (extractMovieInfo env s3Key) newId title
                               description s3Key videoUrl (clockOf env i2)])%list)
                newId
              = S (count_occ string_dec (map id (videosCache s)) newId)).
  { rewrite map_app, count_occ_app. cbn [map count_occ id uploadedVideo].
    destruct (string_dec newId newId); [lia | congruence]. }
  split; [exact C|].
  intros Hin Hn. apply (count_occ_In string_dec) in Hin.
  rewrite (NoDup_count_occ string_dec) in Hn. specialize (Hn newId). lia.
Qed.

(** X11: what the next read sees after an ingest: while the gate is
    closed the reads list the old snapshot followed by the new asset;
    once it is open and the pass succeeds, the snapshot is the catalog of
    the pass alone. *)
Theorem ingest_then_read (title description s3Key : string) (s : Service W)
    newId i1 videoUrl i2 (userId : Z) :
  chooseId env (extractMovieInfo env s3Key) (io s) = (OK newId, i1) ->
  callGetSignedVideoUrl env s3Key i1 = (OK videoUrl, i2) ->
  let newVideo :=
    uploadedVideo (extractMovieInfo env s3Key) newId title description s3Key
      videoUrl (clockOf env i2) in
  let s' := snd (requestTranscodeJob env title description s3Key s) in
  (fresh env s' = true ->
   exists out,
     fst (getRecommendedVideos env userId s') = OK out
     /\ map (@vm_video) out = map toVideo (videosCache s ++ [newVideo])%list)
  /\ (fresh env s' = false ->
      forall processedVideos i,
        buildCatalog env (ticked env (io s')) = (OK processedVideos, i) ->
        videosCache (snd (refreshCache env s')) = processedVideos).
Proof.
  intros HI HS. cbv zeta.
  destruct (@ingest_signed title description s3Key s _ _ _ _ HI HS) as (r & i3 & E & _).
  rewrite E. cbn [snd]. split.
  - intros F.
    match goal with
    | |- context [getRecommendedVideos env userId ?st] =>
        destruct (getRecommendedVideos_lists env userId st) as (out & Ho & Hm);
        exists out; split; [exact Ho|]; rewrite Hm; unfold refreshed; rewrite F
    end.
    reflexivity.
  - intros F processedVideos i B. rewrite refreshCache_run. unfold refreshed.
    rewrite F, B. reflexivity.
Qed.

End IngestFacts.

Section WatchFacts.
Context {W : Type} (env : Services W) (store : WatchStore W).

(** X12: in development mode [addToWatchlist] and [updateWatchHistory]
    make no call, leave the world as it is and report plain success.
    Otherwise each reads the clock and makes exactly one call, [putItem]
    on its table (['Watchlist'], or ['WatchHistory'] with progress 0)
    with the two ids and the clock value just read; the world afterwards
    is the one that write leaves, and the function succeeds exactly when
    the write does, throwing the write's error.  [removeFromWatchlist]
    makes no call and always succeeds. *)
Theorem watch_writes_follow_mode (userId videoId : Z) (i : IO W) :
  let success := {| wr_success := true; wr_dev := false |} in
  let written progress :=
    {| wi_userId := userId; wi_videoId := videoId;
       wi_at := clockOf env i; wi_progress := progress |} in
  let outcome (r : Res unit) :=
    match r with OK _ => OK success | Throw error => Throw error end in
  (notDevelopment env = false ->
   addToWatchlist env store userId videoId i = (OK success, i)
   /\ updateWatchHistory env store userId videoId i = (OK success, i))
  /\ (notDevelopment env = true ->
      addToWatchlist env store userId videoId i
      = (outcome (fst (putWatchItem store "Watchlist" (written None)
                         (world (ticked env i)))),
         {| world := snd (putWatchItem store "Watchlist" (written None)
                            (world (ticked env i)));
            calls := (calls i
                      ++ [PutWatchItem "Watchlist" (written None)])%list |})
      /\ updateWatchHistory env store userId videoId i
         = (outcome (fst (putWatchItem store "WatchHistory" (written (Some 0))
                            (world (ticked env i)))),
            {| world := snd (putWatchItem store "WatchHistory" (written (Some 0))
                               (world (ticked env i)));
               calls := (calls i
                         ++ [PutWatchItem "WatchHistory"
                               (written (Some 0))])%list |}))
  /\ removeFromWatchlist env userId videoId i = (OK success, i).
Proof.
  cbv zeta. split; [|split].
  - intros ND. unfold addToWatchlist, updateWatchHistory, tryCatch, bind, ret.
    rewrite ND. destruct i. split; reflexivity.
  - intros ND.
    unfold addToWatchlist, updateWatchHistory, watchFailed, tryCatch, bind, ret, throw.
    rewrite ND, now_run. unfold callPutWatchItem, external. cbn [negb world calls ticked].
    split.
    + destruct (putWatchItem store "Watchlist" _ _) as [[[]|e] w]; reflexivity.
    + destruct (putWatchItem store "WatchHistory" _ _) as [[[]|e] w]; reflexivity.
  - reflexivity.
Qed.

End WatchFacts.

Section ApiFacts.
Context {W : Type} (env : Services W).

(** X13: the video route never answers 500.  An id parameter that
    [parseInt] reads as [NaN] is answered 400 without touching the
    service; any other is answered with the first asset of the snapshot
    whose id [parseInt] reads as the same number, or 404 when there is
    none. *)
Theorem video_route_outcomes (idParam : string) (s : Api W) :
  let s' := snd (videoRoute env idParam s) in
  fst (videoRoute env idParam s) = OK tt
  /\ (JS.parseInt idParam = JS.NaN ->
      a_service s' = a_service s
      /\ a_res s' = {| api_status := 400;
                       api_body := Some (ApiMessage "Invalid video ID") |})
  /\ (JS.parseInt idParam <> JS.NaN ->
      a_service s' = snd (refreshCache env (a_service s))
      /\ a_res s'
         = match find (fun v => JS.strictEq (JS.parseInt (id v)) (JS.parseInt idParam))
                   (videosCache (snd (refreshCache env (a_service s)))) with
           | Some v => {| api_status := api_status (a_res s);
                          api_body := Some (ApiVideo (toVideo v)) |}
           | None => {| api_status := 404;
                        api_body := Some (ApiMessage "Video not found") |}
           end).
Proof.
  cbv zeta. unfold videoRoute, tryCatch.
  destruct (JS.parseInt idParam) eqn:P; cbn [isNaN].
  - cbn. repeat split; congruence.
  - unfold bind, liftS. rewrite getVideoById_run, refreshCache_run. cbn [snd].
    destruct (find _ (videosCache (refreshed env (a_service s)))) as [v|];
      cbn; repeat split; congruence.
  - unfold bind, liftS. rewrite getVideoById_run, refreshCache_run. cbn [snd].
    destruct (find _ (videosCache (refreshed env (a_service s)))) as [v|];
      cbn; repeat split; congruence.
Qed.

(** X14: the transcode route answers 400 and leaves the service alone
    when the title, the description or the key is missing or empty.
    Outside development mode, when the URL is signed and the mirror write
    throws, the route answers 500 although the asset has been appended to
    the snapshot. *)
Theorem transcode_route_outcomes (title description s3Key : option string)
    (s : Api W) :
  (JS.truthyString title = None \/ JS.truthyString description = None
   \/ JS.truthyString s3Key = None ->
   snd (transcodeRoute env title description s3Key s)
   = {| a_service := a_service s;
        a_res := {| api_status := 400;
                    api_body :=
                      Some (ApiMessage "Title, description, and S3 key are required") |} |})
  /\ (forall t d k newId i1 videoUrl i2 error w,
      JS.truthyString title = Some t ->
      JS.truthyString description = Some d ->
      JS.truthyString s3Key = Some k ->
      notDevelopment env = true ->
      chooseId env (extractMovieInfo env k) (io (a_service s)) = (OK newId, i1) ->
      callGetSignedVideoUrl env k i1 = (OK videoUrl, i2) ->
      putItem env "StreamingVideos"
        (uploadedItem (extractMovieInfo env k) newId t d k
           (clockOf env (ticked env i2)))
        (world (ticked env (ticked env i2))) = (Throw error, w) ->
      let s' := snd (transcodeRoute env title description s3Key s) in
      a_res s' = {| api_status := 500;
                    api_body := Some (ApiMessage "Failed to start transcode job") |}
      /\ videosCache (a_service s')
         = (videosCache (a_service s)
            ++ [uploadedVideo (extractMovieInfo env k) newId t d k videoUrl
                  (clockOf env i2)])%list).
Proof.
  split.
  - intros H. unfold transcodeRoute, tryCatch.
    destruct (JS.truthyString title) as [t|];
      [destruct (JS.truthyString description) as [d|];
       [destruct (JS.truthyString s3Key) as [k|]|]|];
      try reflexivity.
    destruct H as [H|[H|H]]; discriminate H.
  - intros t d k newId i1 videoUrl i2 error w Ht Hd Hk ND HI HS HP. cbv zeta.
    unfold transcodeRoute, tryCatch. rewrite Ht, Hd, Hk.
    unfold bind, liftS.
    destruct (@ingest_signed W env t d k (a_service s) _ _ _ _ HI HS) as (r & i3 & E & _ & Hr).
    rewrite E. rewrite (Hr ND), HP. cbn. split; reflexivity.
Qed.

End ApiFacts.

(* ================================================================== *)
(** * Further facts: keys, extensions and the tiers of the route *)

Section SplitFacts.
Context {W : Type} (env : Services W) (unicode : string -> string).

Lemma split_cons sep s : exists h t, JS.split sep s = h :: t.
Proof.
  induction s as [|c r (h & t & IH)]; cbn.
  - eauto.
  - destruct (Ascii.eqb c sep); [eauto|]. rewrite IH. eauto.
Qed.

Lemma pop_cons h h' t : JS.pop (h :: h' :: t) = JS.pop (h' :: t).
Proof. reflexivity. Qed.

Lemma pop_split_after sep a b :
  JS.pop (JS.split sep (a ++ String sep b)) = JS.pop (JS.split sep b).
Proof.
  induction a as [|c r IH]; cbn [append JS.split].
  - rewrite Ascii.eqb_refl. destruct (split_cons sep b) as (h & t & ->).
    apply pop_cons.
  - destruct (split_cons sep (r ++ String sep b)) as (h & t & E).
    rewrite E in IH |- *.
    destruct (Ascii.eqb c sep); [now rewrite pop_cons|].
    destruct t; [|exact IH].
    exfalso. clear IH. revert h E.
    induction r as [|c' r' IHr]; intros h E; cbn [append JS.split] in E.
    + rewrite Ascii.eqb_refl in E. destruct (split_cons sep b) as (h' & t' & Eb).
      rewrite Eb in E. discriminate E.
    + destruct (split_cons sep (r' ++ String sep b)) as (h' & t' & E').
      rewrite E' in E. destruct (Ascii.eqb c' sep); [discriminate E|].
      inversion E; subst. eapply IHr. exact E'.
Qed.

Lemma split_lacks sep s : lacks sep s = true -> JS.split sep s = [s].
Proof.
  induction s as [|c r IH]; [reflexivity|]. cbn.
  intros H. apply andb_true_iff in H. destruct H as [Hc Hr].
  apply negb_true_iff in Hc. rewrite Hc, (IH Hr). reflexivity.
Qed.

Lemma hd_split_before sep a b :
  lacks sep a = true -> hd EmptyString (JS.split sep (a ++ String sep b)) = a.
Proof.
  induction a as [|c r IH]; cbn [append JS.split lacks].
  - now rewrite Ascii.eqb_refl.
  - intros H. apply andb_true_iff in H. destruct H as [Hc Hr].
    apply negb_true_iff in Hc. rewrite Hc. specialize (IH Hr).
    destruct (split_cons sep (r ++ String sep b)) as (h & t & E).
    rewrite E in IH |- *. cbn in IH |- *. now rewrite IH.
Qed.

Lemma append_assoc3 (a b c : string) : ((a ++ b) ++ c = a ++ (b ++ c))%string.
Proof. induction a as [|x r IH]; [reflexivity|]. cbn. now rewrite IH. Qed.

Lemma lacks_app c a b : lacks c (a ++ b) = lacks c a && lacks c b.
Proof.
  induction a as [|x r IH]; [reflexivity|]. cbn. now rewrite IH, andb_assoc.
Qed.

(** X15: the extension the route works with is what follows the last
    dot of the key, put in lower case by the engine, whatever comes
    before the dot; a key without a dot is its own extension.  When what
    follows the last dot is ASCII, the extension is that text with its
    letters [A]-[Z] lowered and nothing else changed. *)
Theorem extension_follows_last_dot (stem ext : string) :
  lacks "." ext = true ->
  extensionOf env (stem ++ "." ++ ext)
  = JS.toLowerCase (String_toLowerCase env) ext
  /\ extensionOf env ext = JS.toLowerCase (String_toLowerCase env) ext
  /\ (JS.isAscii ext = true ->
      extensionOf env (stem ++ "." ++ ext) = JS.asciiLowerCase ext).
Proof.
  intros H.
  assert (E : extensionOf env (stem ++ "." ++ ext)
              = JS.toLowerCase (String_toLowerCase env) ext).
  { unfold extensionOf.
    change (stem ++ "." ++ ext) with (stem ++ String "." ext).
    rewrite pop_split_after, (split_lacks _ _ H). reflexivity. }
  split; [exact E|]. split.
  - unfold extensionOf. rewrite (split_lacks _ _ H). reflexivity.
  - intros A. rewrite E. unfold JS.toLowerCase. rewrite A. reflexivity.
Qed.

(** X16: the player types a URL by the extension of its path, in any
    letter case, when that extension is one of [m3u8], [mp4], [webm] and
    [ogv]: the query string of a signed URL plays no part. *)
Theorem video_type_ignores_query (stem ext query ty : string) :
  lacks "?" stem = true ->
  lacks "?" ext = true ->
  lacks "." ext = true ->
  knownType (JS.toLowerCase unicode ext) = Some ty ->
  getVideoType unicode (stem ++ "." ++ ext ++ "?" ++ query) = ty
  /\ getVideoType unicode (stem ++ "." ++ ext) = ty.
Proof.
  intros Hs He Hd Hk.
  assert (Hq : lacks "?" (stem ++ String "." ext) = true).
  { rewrite lacks_app. cbn [lacks]. now rewrite Hs, He. }
  assert (Hx : JS.toLowerCase unicode
                 (JS.pop (JS.split "." (stem ++ String "." ext)))
               = JS.toLowerCase unicode ext).
  { now rewrite pop_split_after, (split_lacks _ _ Hd). }
  assert (Ty : forall url,
             String.eqb url "" = false ->
             hd EmptyString (JS.split "?" url) = (stem ++ String "." ext) ->
             getVideoType unicode url = ty).
  { intros url Hne Hh. unfold getVideoType. rewrite Hne, Hh, Hx.
    unfold knownType in Hk.
    destruct (String.eqb (JS.toLowerCase unicode ext) "m3u8"); [congruence|].
    destruct (String.eqb (JS.toLowerCase unicode ext) "mp4"); [congruence|].
    destruct (String.eqb (JS.toLowerCase unicode ext) "webm"); [congruence|].
    destruct (String.eqb (JS.toLowerCase unicode ext) "ogv"); [congruence | discriminate]. }
  split.
  - apply Ty.
    + destruct stem; reflexivity.
    + change (stem ++ "." ++ ext ++ "?" ++ query)
        with (stem ++ String "." (ext ++ String "?" query)).
      replace (stem ++ String "." (ext ++ String "?" query))
        with ((stem ++ String "." ext) ++ String "?" query).
      * now apply hd_split_before.
      * rewrite append_assoc3. reflexivity.
  - apply Ty.
    + destruct stem; reflexivity.
    + change (stem ++ "." ++ ext) with (stem ++ String "." ext).
      now rewrite (split_lacks _ _ Hq).
Qed.

End SplitFacts.

Section TierFacts.
Context {W : Type} (env : Services W) (net : Network W).

Ltac run_route :=
  unfold rangeTier, fullTier, cloudFrontTier, failed, pipeOr, callFetch, setContentType,
    copyHeader, setCors, json, setHeader, status, send, liftH, liftRes, external,
    callGetSignedVideoUrl, tryCatch, bind, gets, modify, ret, throw.

Lemma json_sends message detail : Sends (W := W) (json message detail).
Proof.
  intros s. run_route. eexists. split; [reflexivity|]. cbn. discriminate.
Qed.

Lemma pipeOr_sends response message : Sends (W := W) (pipeOr response message).
Proof.
  intros s. unfold pipeOr. destruct (r_body response) as [stream|].
  - run_route. eexists. split; [reflexivity|]. cbn. discriminate.
  - unfold bind at 1. unfold status at 1. unfold modify at 1.
    apply json_sends.
Qed.

Lemma sends_answers (m : M (Handler W) unit) : Sends m -> Answers m.
Proof. intros H s. destruct (H s) as (s' & -> & Hs). exact Hs. Qed.

Lemma answers_bind {A B} (m : M (Handler W) A) (k : A -> M (Handler W) B) :
  (forall x, Answers (k x)) -> Answers (bind m k).
Proof.
  intros H s. unfold bind. destruct (m s) as [[x|e] s1]; [apply H | exact I].
Qed.

Lemma answers_tryCatch {A} (m : M (Handler W) A) (h : Exn -> M (Handler W) A) :
  Answers m -> (forall e, Answers (h e)) -> Answers (tryCatch m h).
Proof.
  intros Hm Hh s. unfold tryCatch. specialize (Hm s).
  destruct (m s) as [[x|e] s1]; [exact Hm | apply Hh].
Qed.

Lemma answersTrue_bind {A} (m : M (Handler W) A) (k : A -> M (Handler W) bool) :
  (forall x, AnswersTrue (k x)) -> AnswersTrue (bind m k).
Proof.
  intros H s. unfold bind. destruct (m s) as [[x|e] s1]; [apply H | exact I].
Qed.

Lemma error_answers code message detail :
  Answers (W := W) (status code ;; json message detail).
Proof. apply answers_bind. intros _. apply sends_answers, json_sends. Qed.

Lemma failed_answers error (s : Handler W) :
  exists s',
    failed error s = (OK tt, s')
    /\ h_io s' = h_io s
    /\ statusCode (res s') = 500
    /\ sent (res s')
       = Some (Json "Failed to stream content" (Some (exnString error))).
Proof.
  run_route. eexists. split; [reflexivity|]. cbn. auto.
Qed.

Lemma rangeTier_answers finalKey contentType range :
  Answers (rangeTier env net finalKey contentType range).
Proof.
  unfold rangeTier. apply answers_bind. intros signedUrl.
  destruct (JS.truthyString signedUrl) as [url|]; [|apply error_answers].
  apply answers_tryCatch; [|intros e; apply error_answers].
  apply answers_bind. intros response.
  do 6 (apply answers_bind; intros _).
  apply sends_answers, pipeOr_sends.
Qed.

Lemma fullTier_answers finalKey contentType :
  Answers (fullTier env net finalKey contentType).
Proof.
  unfold fullTier. apply answers_bind. intros signedUrl.
  destruct (JS.truthyString signedUrl) as [url|]; [|apply error_answers].
  apply answers_tryCatch; [|intros e; apply error_answers].
  apply answers_bind. intros response.
  destruct (negb (r_ok response)).
  { apply answers_bind. intros _. apply answers_bind. intros details.
    apply sends_answers, json_sends. }
  do 5 (apply answers_bind; intros _).
  apply sends_answers, pipeOr_sends.
Qed.

Lemma originTiers_answers finalKey fileExtension contentType range :
  Answers (originTiers env net finalKey fileExtension contentType range).
Proof.
  unfold originTiers. destruct (JS.truthyString range) as [r|].
  - destruct (String.eqb fileExtension "mp4" || String.eqb fileExtension "webm").
    + apply rangeTier_answers.
    + apply fullTier_answers.
  - apply fullTier_answers.
Qed.

Lemma cloudFrontTier_answers finalKey fileExtension contentType :
  AnswersTrue (cloudFrontTier net finalKey fileExtension contentType).
Proof.
  unfold cloudFrontTier.
  destruct (cloudFrontService net) as [sign|]; [|intros s; exact I].
  destruct (JS.truthyString (AWS_CLOUDFRONT_DOMAIN net)) as [domain|];
    [|intros s; exact I].
  destruct (String.eqb fileExtension "m3u8" || String.eqb fileExtension "ts"
            || String.eqb fileExtension "mp4"); [|intros s; exact I].
  apply answersTrue_bind. intros signedUrl.
  apply answersTrue_bind. intros response.
  do 3 (apply answersTrue_bind; intros _).
  intros s. unfold bind.
  destruct (pipeOr_sends response "No response body from CloudFront" s)
    as (s' & -> & Hs). exact Hs.
Qed.

Lemma streamContent_malformed key range error (s : Handler W) :
  key <> "" -> decodeKey key = Throw error ->
  streamContent env net key range s = failed error s.
Proof.
  intros Hk D. unfold streamContent. apply String.eqb_neq in Hk. rewrite Hk.
  unfold tryCatch at 1. unfold bind at 1. unfold liftRes. rewrite D. reflexivity.
Qed.

Lemma behindEdge_answers finalKey range (s : Handler W) :
  exists s',
    behindEdge env net finalKey range s = (OK tt, s') /\ sent (res s') <> None.
Proof.
  unfold behindEdge, tryCatch.
  pose proof (@originTiers_answers finalKey (extensionOf env finalKey)
                (contentTypeOf (extensionOf env finalKey)) range s) as A.
  destruct (originTiers env net finalKey (extensionOf env finalKey)
              (contentTypeOf (extensionOf env finalKey)) range s) as [[[]|e] s1].
  - eauto.
  - destruct (failed_answers e s1) as (s' & E & _ & _ & Hs). exists s'.
    split; [exact E|]. rewrite Hs. discriminate.
Qed.

(** X17: the route always answers: whatever the key, the range header
    and the collaborators do, it returns normally and a body has been
    sent, a JSON document or the piped stream. *)
Theorem stream_route_always_answers (key : string) (range : option string)
    (s : Handler W) :
  fst (streamContent env net key range s) = OK tt
  /\ sent (res (snd (streamContent env net key range s))) <> None.
Proof.
  destruct (String.eqb_spec key "") as [->|Hk].
  - unfold streamContent. cbn [String.eqb]. run_route. cbn.
    split; [reflexivity | discriminate].
  - destruct (decodeKey key) as [finalKey|e] eqn:D.
    + rewrite (streamContent_run env net range s Hk D).
      pose proof (@cloudFrontTier_answers finalKey (extensionOf env finalKey)
                    (contentTypeOf (extensionOf env finalKey)) s) as A.
      destruct (cloudFrontTier net finalKey (extensionOf env finalKey)
                  (contentTypeOf (extensionOf env finalKey)) s) as [[[|]|e] s1].
      * split; [reflexivity | exact A].
      * destruct (behindEdge_answers finalKey range s1) as (s' & -> & Hs). now split.
      * destruct (behindEdge_answers finalKey range s1) as (s' & -> & Hs). now split.
    + rewrite (streamContent_malformed range s Hk D).
      destruct (failed_answers e s) as (s' & -> & _ & _ & Hs).
      split; [reflexivity|]. cbn [snd]. rewrite Hs. discriminate.
Qed.

(** X18: a key the route cannot use is refused before anything is
    called: an empty key is answered 400, and a key [decodeURIComponent]
    rejects, in the first pass or the second, is answered 500 with the
    error in the body. *)
Theorem unusable_key_is_refused (key : string) (range : option string)
    (s : Handler W) :
  (key = "" ->
   let s' := snd (streamContent env net key range s) in
   h_io s' = h_io s
   /\ statusCode (res s') = 400
   /\ sent (res s') = Some (Json "Content key is required" None))
  /\ (forall error,
      key <> "" -> decodeKey key = Throw error ->
      let s' := snd (streamContent env net key range s) in
      h_io s' = h_io s
      /\ statusCode (res s') = 500
      /\ sent (res s')
         = Some (Json "Failed to stream content" (Some (exnString error)))).
Proof.
  split.
  - intros ->. unfold streamContent. cbn [String.eqb]. run_route. cbn.
    repeat split.
  - intros e Hk D. cbv zeta. rewrite (streamContent_malformed range s Hk D).
    destruct (failed_answers e s) as (s' & -> & H1 & H2 & H3). now repeat split.
Qed.

(** X19: when the edge has no signer or no domain, or the extension is
    not one it serves (an image, [webm], any other), the route is its
    origin tiers: the edge signer is not called and nothing is written
    to the response before them. *)
Theorem edge_skipped_is_origin (key finalKey : string) (range : option string)
    (s : Handler W) :
  key <> "" ->
  decodeKey key = OK finalKey ->
  edgeSkipped net (extensionOf env finalKey) = true ->
  streamContent env net key range s = behindEdge env net finalKey range s.
Proof.
  intros Hk D E. rewrite (streamContent_run env net range s Hk D).
  unfold cloudFrontTier. unfold edgeSkipped, edgeServed in E.
  destruct (cloudFrontService net) as [sign|]; [|reflexivity].
  destruct (JS.truthyString (AWS_CLOUDFRONT_DOMAIN net)); [|reflexivity].
  apply negb_true_iff in E. rewrite E. reflexivity.
Qed.

End TierFacts.

Section OriginFacts.
Context {W : Type} (env : Services W) (net : Network W).

Ltac run_origin :=
  unfold fullTier, rangeTier, failed, pipeOr, callFetch, setContentType,
    copyHeader, setCors, json, setHeader, status, send, liftH, liftRes, external,
    tryCatch, bind, gets, modify, ret, throw.

Lemma originTiers_ranged finalKey fileExtension contentType range :
  originTiers env net finalKey fileExtension contentType range
  = match ranged fileExtension range with
    | Some r => rangeTier env net finalKey contentType r
    | None => fullTier env net finalKey contentType
    end.
Proof.
  unfold originTiers, ranged. destruct (JS.truthyString range); [|reflexivity].
  destruct (String.eqb fileExtension "mp4" || String.eqb fileExtension "webm");
    reflexivity.
Qed.

Lemma signer_logged finalKey (i : IO W) r i' :
  callGetSignedVideoUrl env finalKey i = (r, i') ->
  calls i' = (calls i ++ [GetSignedVideoUrl finalKey])%list.
Proof.
  unfold callGetSignedVideoUrl, external.
  destruct (getSignedVideoUrl env finalKey (world i)). intros E. now inversion E.
Qed.

(** X20: behind the edge, when the origin signer gives no URL the
    handler sets the code 404, hands ['Content not found'] to [res.json]
    and fetches nothing; when the signer throws, the handler sets the
    code 500 and hands over ['Failed to stream content'] with
    [String(error)], the name of the error included.  This holds whether
    or not the request has a range, and the handler sets no header in
    either case. *)
Theorem origin_without_url (finalKey : string) (range : option string)
    (s : Handler W) :
  (forall signedUrl i,
      callGetSignedVideoUrl env finalKey (h_io s) = (OK signedUrl, i) ->
      JS.truthyString signedUrl = None ->
      behindEdge env net finalKey range s
      = (OK tt,
         {| h_io := i;
            res := {| statusCode := 404;
                      headers := headers (res s);
                      sent := Some (Json "Content not found" None) |} |}))
  /\ (forall error i,
      callGetSignedVideoUrl env finalKey (h_io s) = (Throw error, i) ->
      behindEdge env net finalKey range s
      = (OK tt,
         {| h_io := i;
            res := {| statusCode := 500;
                      headers := headers (res s);
                      sent := Some (Json "Failed to stream content"
                                      (Some (exnString error))) |} |})).
Proof.
  unfold behindEdge. rewrite originTiers_ranged. split.
  - intros signedUrl i HS HT.
    destruct (ranged (extensionOf env finalKey) range); run_origin;
      rewrite HS, HT; reflexivity.
  - intros error i HS.
    destruct (ranged (extensionOf env finalKey) range); run_origin;
      rewrite HS; reflexivity.
Qed.

(** X21: the full tier, taken when the request has no range or the
    extension is neither [mp4] nor [webm], signs the key and fetches the
    signed URL without a range.  A fetch that throws is answered 500 with
    [String(error)].  An upstream answer outside 200-299 sets the
    upstream code and then reads the upstream text: if the read succeeds
    the text is handed over with ['S3 returned status N'], and if it
    rejects the handler answers 500 ['Error streaming content'] with
    [String(error)]; no header is set on this path.  A 2xx answer is
    relayed with its code, the long-lived [Cache-Control], the CORS
    headers and the upstream content type or, when there is none, the
    one of the extension; its body is piped, and when it has none the
    handler answers 500. *)
Theorem full_tier_outcomes (finalKey : string) (range : option string)
    (s : Handler W) signedUrl url i :
  ranged (extensionOf env finalKey) range = None ->
  callGetSignedVideoUrl env finalKey (h_io s) = (OK signedUrl, i) ->
  JS.truthyString signedUrl = Some url ->
  let s' := snd (behindEdge env net finalKey range s) in
  (forall error w,
      fetch net url None (world i) = (Throw error, w) ->
      statusCode (res s') = 500
      /\ sent (res s')
         = Some (Json "Error streaming content" (Some (exnString error)))
      /\ headers (res s') = headers (res s))
  /\ (forall response w,
      fetch net url None (world i) = (OK response, w) ->
      r_ok response = false ->
      match r_text response with
      | OK details =>
          statusCode (res s') = r_status response
          /\ sent (res s')
             = Some (Json ("S3 returned status "
                           ++ JS.numberToString (Z.to_N (r_status response)))
                       (Some details))
      | Throw error =>
          statusCode (res s') = 500
          /\ sent (res s')
             = Some (Json "Error streaming content" (Some (exnString error)))
      end
      /\ headers (res s') = headers (res s))
  /\ (forall response w,
      fetch net url None (world i) = (OK response, w) ->
      r_ok response = true ->
      match r_body response with
      | Some stream =>
          statusCode (res s') = r_status response
          /\ sent (res s') = Some (Piped stream)
      | None =>
          statusCode (res s') = 500
          /\ sent (res s') = Some (Json "No response body from S3" None)
      end
      /\ JS.get "Cache-Control" (headers (res s'))
         = Some "public, max-age=31536000"
      /\ JS.get "Access-Control-Allow-Origin" (headers (res s')) = Some "*"
      /\ JS.get "Content-Type" (headers (res s'))
         = Some (JS.orString (r_contentType response)
                   (contentTypeOf (extensionOf env finalKey))))
  /\ calls (h_io s')
     = (calls (h_io s) ++ [GetSignedVideoUrl finalKey; Fetch url None])%list.
Proof.
  intros HR HS HT. cbv zeta. unfold behindEdge. rewrite originTiers_ranged, HR.
  pose proof (signer_logged _ _ HS) as Ci.
  run_origin. rewrite HS, HT. cbn [h_io res world calls].
  destruct (fetch net url None (world i)) as [[response|error] w] eqn:HF.
  - destruct (r_ok response) eqn:OK.
    + cbn [negb]. cbn [h_io res headers statusCode sent].
      split; [intros ? ? E; discriminate E|].
      split; [intros ? ? E Hok; inversion E; subst; congruence|].
      split.
      * intros response' w' E _. inversion E; subst response' w'.
        unfold JS.orString.
        destruct (JS.truthyString (r_contentType response));
          destruct (JS.truthyString (r_contentLength response));
          destruct (r_body response);
          cbn [fst snd h_io res headers statusCode sent];
          rewrite ?get_set; cbn; repeat split.
      * destruct (JS.truthyString (r_contentType response));
          destruct (JS.truthyString (r_contentLength response));
          destruct (r_body response);
          cbn [fst snd h_io res headers statusCode sent calls];
          rewrite Ci, <- app_assoc; reflexivity.
    + cbn [negb]. cbn [h_io res headers statusCode sent].
      split; [intros ? ? E; discriminate E|].
      split.
      * intros response' w' E _. inversion E; subst response' w'.
        destruct (r_text response); cbn; repeat split.
      * split; [intros ? ? E Hok; inversion E; subst; congruence|].
        destruct (r_text response); cbn; rewrite Ci, <- app_assoc; reflexivity.
  - cbn [h_io res headers statusCode sent].
    split.
    + intros error' w' E. inversion E; subst error' w'. cbn. repeat split.
    + split; [intros ? ? E; discriminate E|].
      split; [intros ? ? E; discriminate E|].
      cbn. rewrite Ci, <- app_assoc. reflexivity.
Qed.

(** X22: the range tier, taken when the request has a range and the
    extension is [mp4] or [webm]: the range is forwarded as it came; a
    failed fetch is answered 500; an upstream answer is relayed with
    its own status, whatever it is, its body, [Accept-Ranges: bytes],
    the upstream [Content-Range] when there is one, and the upstream
    content type or the one of the extension. *)
Theorem range_tier_outcomes (finalKey : string) (range : option string)
    (r : string) (s : Handler W) signedUrl url i :
  ranged (extensionOf env finalKey) range = Some r ->
  callGetSignedVideoUrl env finalKey (h_io s) = (OK signedUrl, i) ->
  JS.truthyString signedUrl = Some url ->
  let s' := snd (behindEdge env net finalKey range s) in
  (forall error w,
      fetch net url (Some r) (world i) = (Throw error, w) ->
      statusCode (res s') = 500
      /\ sent (res s') = Some (Json "Error streaming video content" None))
  /\ (forall response w stream,
      fetch net url (Some r) (world i) = (OK response, w) ->
      r_body response = Some stream ->
      statusCode (res s') = r_status response
      /\ sent (res s') = Some (Piped stream)
      /\ JS.get "Accept-Ranges" (headers (res s')) = Some "bytes"
      /\ JS.get "Content-Range" (headers (res s'))
         = match JS.truthyString (r_contentRange response) with
           | Some contentRange => Some contentRange
           | None => JS.get "Content-Range" (headers (res s))
           end
      /\ JS.get "Content-Type" (headers (res s'))
         = Some (JS.orString (r_contentType response)
                   (contentTypeOf (extensionOf env finalKey))))
  /\ calls (h_io s')
     = (calls (h_io s) ++ [GetSignedVideoUrl finalKey; Fetch url (Some r)])%list.
Proof.
  intros HR HS HT. cbv zeta. unfold behindEdge. rewrite originTiers_ranged, HR.
  pose proof (signer_logged _ _ HS) as Ci.
  run_origin. rewrite HS, HT. cbn [h_io res world calls].
  destruct (fetch net url (Some r) (world i)) as [[response|error] w] eqn:HF.
  - cbn [h_io res headers statusCode sent].
    split; [intros ? ? E; discriminate E|].
    split.
    + intros response' w' stream E Hb. inversion E; subst response' w'.
      rewrite Hb. unfold JS.orString.
      destruct (JS.truthyString (r_contentType response));
        destruct (JS.truthyString (r_contentRange response));
        destruct (JS.truthyString (r_contentLength response));
        cbn [fst snd h_io res headers statusCode sent];
        rewrite ?get_set; cbn; repeat split.
    + destruct (JS.truthyString (r_contentType response));
        destruct (JS.truthyString (r_contentRange response));
        destruct (JS.truthyString (r_contentLength response));
        destruct (r_body response);
        cbn [fst snd h_io res headers statusCode sent calls];
        rewrite Ci, <- app_assoc; reflexivity.
  - cbn [h_io res headers statusCode sent].
    split.
    + intros error' w' E. inversion E; subst error' w'. cbn. split; reflexivity.
    + split; [intros ? ? ? E; discriminate E|].
      cbn. rewrite Ci, <- app_assoc. reflexivity.
Qed.

End OriginFacts.

Section RouteCalls.
Context {W : Type} (env : Services W) (net : Network W).

Ltac run_calls :=
  unfold rangeTier, fullTier, cloudFrontTier, failed, pipeOr, callFetch,
    callGetSignedVideoUrl, setContentType, copyHeader, setCors, json, setHeader,
    status, send, liftH, liftRes, external, tryCatch, bind, gets, modify, ret,
    throw.

Lemma cloudFrontTier_log finalKey fileExtension contentType (s : Handler W) :
  exists l,
    calls (h_io (snd (cloudFrontTier net finalKey fileExtension contentType s)))
    = (calls (h_io s) ++ l)%list
    /\ edgeLog finalKey l.
Proof.
  unfold cloudFrontTier, edgeLog.
  assert (Q : exists l, calls (h_io s) = (calls (h_io s) ++ l)%list
                        /\ (l = []
                            \/ l = [CloudFrontGetSignedUrl finalKey]
                            \/ exists url,
                                 l = [CloudFrontGetSignedUrl finalKey;
                                      Fetch url None])).
  { exists []. rewrite app_nil_r. auto. }
  destruct (cloudFrontService net) as [sign|]; [|exact Q].
  destruct (JS.truthyString (AWS_CLOUDFRONT_DOMAIN net)) as [domain|]; [|exact Q].
  destruct (String.eqb fileExtension "m3u8" || String.eqb fileExtension "ts"
            || String.eqb fileExtension "mp4"); [|exact Q].
  clear Q. run_calls.
  destruct (sign finalKey (world (h_io s))) as [[url|e] w]; cbn [h_io world calls].
  - destruct (fetch net url None w) as [[response|e] w'].
    + exists [CloudFrontGetSignedUrl finalKey; Fetch url None].
      split; [|eauto].
      destruct (JS.truthyString (r_contentType response));
        destruct (r_body response); lazy beta iota zeta delta [snd fst h_io calls world];
          now rewrite <- app_assoc.
    + exists [CloudFrontGetSignedUrl finalKey; Fetch url None].
      split; [|eauto]. lazy beta iota zeta delta [snd fst h_io calls world].
      now rewrite <- app_assoc.
  - exists [CloudFrontGetSignedUrl finalKey]. split; [reflexivity | auto].
Qed.

Lemma quiet_bind {A B} (m : M (Handler W) A) (k : A -> M (Handler W) B) :
  Quiet m -> (forall x, Quiet (k x)) -> Quiet (bind m k).
Proof.
  intros Hm Hk s. unfold bind. specialize (Hm s).
  destruct (m s) as [[x|e] s1]; cbn [snd] in *; [|exact Hm].
  now rewrite Hk.
Qed.

Lemma quiet_modify (f : Handler W -> Handler W) :
  (forall s, h_io (f s) = h_io s) -> Quiet (modify f).
Proof. intros H s. apply H. Qed.

Lemma quiet_json message detail : Quiet (W := W) (json message detail).
Proof. apply quiet_modify. reflexivity. Qed.

Lemma quiet_error code message detail :
  Quiet (W := W) (status code ;; json message detail).
Proof.
  apply quiet_bind; [apply quiet_modify; reflexivity | intros _; apply quiet_json].
Qed.

Lemma quiet_copyHeader name value : Quiet (W := W) (copyHeader name value).
Proof.
  unfold copyHeader. destruct (JS.truthyString value);
    [apply quiet_modify | intros s]; reflexivity.
Qed.

Lemma quiet_setContentType response contentType :
  Quiet (W := W) (setContentType response contentType).
Proof.
  unfold setContentType. destruct (JS.truthyString (r_contentType response));
    apply quiet_modify; reflexivity.
Qed.

Lemma quiet_pipeOr response message : Quiet (W := W) (pipeOr response message).
Proof.
  unfold pipeOr. destruct (r_body response);
    [apply quiet_modify; reflexivity | apply quiet_error].
Qed.

Ltac quiet :=
  repeat first
    [ apply quiet_pipeOr | apply quiet_setContentType | apply quiet_copyHeader
    | apply quiet_error | apply quiet_json
    | apply quiet_modify; reflexivity
    | apply quiet_bind; [|intros ?] ].

Lemma fetched_log url forwarded (k : FetchResponse -> M (Handler W) unit)
    (h : Exn -> M (Handler W) unit) (s : Handler W) :
  (forall response, Quiet (k response)) ->
  (forall e, Quiet (h e)) ->
  calls (h_io (snd (tryCatch (response <- callFetch net url forwarded ;;
                              k response) h s)))
  = (calls (h_io s) ++ [Fetch url forwarded])%list.
Proof.
  intros Hk Hh. unfold tryCatch, bind, callFetch, liftH, external.
  destruct (fetch net url forwarded (world (h_io s))) as [[response|e] w].
  - match goal with
    | |- context [k response ?s1] =>
        pose proof (Hk response s1) as Q; destruct (k response s1) as [[[]|e] s2]
    end; cbn [snd] in Q |- *.
    + now rewrite Q.
    + now rewrite Hh, Q.
  - now rewrite Hh.
Qed.

Lemma behindEdge_log finalKey range (s : Handler W) :
  exists l,
    calls (h_io (snd (behindEdge env net finalKey range s)))
    = (calls (h_io s) ++ l)%list
    /\ originLog finalKey (ranged (extensionOf env finalKey) range) l.
Proof.
  unfold behindEdge, originLog. rewrite originTiers_ranged.
  destruct (ranged (extensionOf env finalKey) range) as [r|];
    [unfold rangeTier | unfold fullTier];
    unfold tryCatch at 1; unfold bind at 1; unfold liftH;
    pose proof (@signer_logged W env finalKey (h_io s)) as L;
    destruct (callGetSignedVideoUrl env finalKey (h_io s)) as [[signedUrl|e] i];
    specialize (L _ _ eq_refl);
    try (exists [GetSignedVideoUrl finalKey]; split; [exact L | auto]);
    (destruct (JS.truthyString signedUrl) as [url|];
     [|exists [GetSignedVideoUrl finalKey]; split; [exact L | auto]]).
  - exists [GetSignedVideoUrl finalKey; Fetch url (Some r)]. split; [|eauto].
    match goal with
    | |- context [tryCatch ?m ?h ?s1] =>
        destruct (tryCatch m h s1) as [[[]|e] s2] eqn:E;
        pose proof (f_equal (fun p => calls (h_io (snd p))) E) as C
    end; cbv beta in C; rewrite fetched_log in C by (intros; quiet);
      cbn [snd h_io calls] in C |- *.
    + rewrite <- C, L, <- app_assoc. reflexivity.
    + unfold failed. rewrite quiet_error. rewrite <- C, L, <- app_assoc. reflexivity.
  - exists [GetSignedVideoUrl finalKey; Fetch url None]. split; [|eauto].
    match goal with
    | |- context [tryCatch ?m ?h ?s1] =>
        destruct (tryCatch m h s1) as [[[]|e] s2] eqn:E;
        pose proof (f_equal (fun p => calls (h_io (snd p))) E) as C
    end; cbv beta in C; rewrite fetched_log in C
      by (intros; try destruct (negb (r_ok _)); quiet; intros ?; reflexivity);
      cbn [snd h_io calls] in C |- *.
    + rewrite <- C, L, <- app_assoc. reflexivity.
    + unfold failed. rewrite quiet_error. rewrite <- C, L, <- app_assoc. reflexivity.
Qed.

(** X23: what the streaming route calls, in order.  For a key it cannot
    use it calls nothing.  For a key that decodes to [finalKey] the calls
    are those of the edge tier followed by those of the origin tiers.
    The edge tier calls nothing, or its signer on [finalKey], or its
    signer and then one fetch, and that fetch never carries a range.  The
    origin tiers call nothing, or the origin signer on [finalKey], or the
    signer and then one fetch, and that fetch carries the request's range
    exactly when the range tier is taken.  The route never reads the
    catalog sources and never writes the table. *)
Theorem stream_route_calls (key : string) (range : option string)
    (s : Handler W) :
  exists fromEdge fromOrigin,
    calls (h_io (snd (streamContent env net key range s)))
    = (calls (h_io s) ++ fromEdge ++ fromOrigin)%list
    /\ match decodeKey key with
       | OK finalKey =>
           edgeLog finalKey fromEdge
           /\ originLog finalKey (ranged (extensionOf env finalKey) range)
                fromOrigin
       | Throw _ => fromEdge = [] /\ fromOrigin = []
       end.
Proof.
  destruct (String.eqb_spec key "") as [->|Hk].
  - exists [], []. split.
    + unfold streamContent. cbn [String.eqb]. run_calls. cbn.
      now rewrite app_nil_r.
    + unfold edgeLog, originLog. destruct (decodeKey ""); auto.
  - destruct (decodeKey key) as [finalKey|e] eqn:D.
    + rewrite (streamContent_run env net range s Hk D).
      destruct (cloudFrontTier_log finalKey (extensionOf env finalKey)
                  (contentTypeOf (extensionOf env finalKey)) s) as (a & E & F).
      destruct (cloudFrontTier net finalKey (extensionOf env finalKey)
                  (contentTypeOf (extensionOf env finalKey)) s) as [[[|]|e] s1];
        cbn [snd] in E.
      * exists a, []. rewrite app_nil_r. unfold originLog. auto.
      * destruct (behindEdge_log finalKey range s1) as (b & E' & F').
        exists a, b. rewrite E', E, <- app_assoc. auto.
      * destruct (behindEdge_log finalKey range s1) as (b & E' & F').
        exists a, b. rewrite E', E, <- app_assoc. auto.
    + rewrite (streamContent_malformed env net range s Hk D).
      destruct (failed_answers e s) as (s' & -> & H & _). exists [], [].
      cbn [snd]. rewrite H, app_nil_r. auto.
Qed.

End RouteCalls.

(* ================================================================== *)
(** * Concrete runs of the further facts *)

Lemma pass_survives_mirror_failures_witness :
  exists processedVideos,
    fst (buildCatalog (scripted mirrorDownListing)
           (ticked (scripted mirrorDownListing) (io cold))) = OK processedVideos
    /\ videosCache (snd (refreshCache (scripted mirrorDownListing) cold))
       = processedVideos
    /\ lastCacheRefresh (snd (refreshCache (scripted mirrorDownListing) cold))
       = 100000.
Proof.
  apply (@pass_survives_mirror_failures Z (scripted mirrorDownListing) cold
           [file "movies/1/film.mp4"; file "movies/2/film.mp4"] 100001 None 100001).
  - intros k w. reflexivity.
  - reflexivity.
  - reflexivity.
  - reflexivity.
Defined.

Lemma signer_failure_aborts_pass_witness :
  isOK (fst (getSignedVideoUrl (scripted oneKeyDown) "movies/1/film.mp4" 0)) = true
  /\ isOK (fst (buildCatalog (scripted oneKeyDown)
                  (ticked (scripted oneKeyDown) (io (stale shelf))))) = false
  /\ videosCache (snd (refreshCache (scripted oneKeyDown) (stale shelf))) = shelf
  /\ lastCacheRefresh (snd (refreshCache (scripted oneKeyDown) (stale shelf))) = 0.
Proof.
  split; [reflexivity|].
  eapply (@signer_failure_aborts_pass Z (scripted oneKeyDown) (stale shelf)
            [file "movies/1/film.mp4"; file "movies/2/film.mp4";
             file "movies/3/film.mp4"] 100001 None 100001 _ _
            "movies/2/film.mp4").
  - intros w. reflexivity.
  - reflexivity.
  - reflexivity.
  - reflexivity.
  - right. left. reflexivity.
  - reflexivity.
  - reflexivity.
Defined.

Lemma empty_snapshot_always_rescans_witness :
  exists rest,
    calls (io (snd (refreshCache (scripted bothSources) cold)))
    = (calls (io cold) ++ ListVideos "movies/" :: rest)%list.
Proof.
  apply (@empty_snapshot_always_rescans Z (scripted bothSources) cold).
  reflexivity.
Defined.

Lemma second_refresh_is_idle_witness :
  calls (io (snd (refreshCache (scripted bothSources)
                    (snd (refreshCache (scripted bothSources) cold)))))
  = calls (io (snd (refreshCache (scripted bothSources) cold)))
  /\ videosCache (snd (refreshCache (scripted bothSources)
                         (snd (refreshCache (scripted bothSources) cold))))
     = bothSourcesCatalog
  /\ lastCacheRefresh (snd (refreshCache (scripted bothSources)
                              (snd (refreshCache (scripted bothSources) cold))))
     = 100000.
Proof.
  apply (@second_refresh_is_idle Z (scripted bothSources) cold bothSourcesCatalog
           bothSourcesIO).
  - reflexivity.
  - vm_compute. reflexivity.
  - discriminate.
  - vm_compute. reflexivity.
Defined.

Lemma recommendations_cover_snapshot_witness :
  exists out,
    fst (getRecommendedVideos (scripted bothSources) 7 (warm shelf)) = OK out
    /\ map (@vm_video) out
       = map toVideo
           (videosCache (snd (refreshCache (scripted bothSources) (warm shelf))))
    /\ Forall (fun e => 70 <= vm_match e <= 99) out.
Proof.
  apply (@recommendations_cover_snapshot Z (scripted bothSources) 7 (warm shelf)).
  intros n w H. cbn. apply N.mod_lt. lia.
Defined.

Lemma ingest_needs_signed_url_witness :
  requestTranscodeJob (scripted signerDown) "Two" "Again" "movies/2/film.mp4"
    (warm shelf)
  = (Throw (Error "signer unavailable"),
     withIO (warm shelf)
       {| world := 100000; calls := [GetSignedVideoUrl "movies/2/film.mp4"] |})
  /\ videosCache (snd (requestTranscodeJob (scripted signerDown) "Two" "Again"
                         "movies/2/film.mp4" (warm shelf))) = shelf
  /\ tr_videoId processedInDevelopment = None.
Proof.
  apply (@ingest_needs_signed_url Z (scripted signerDown) "Two" "Again"
           "movies/2/film.mp4" (warm shelf) "2" (io (warm shelf))
           (Error "signer unavailable")
           {| world := 100000; calls := [GetSignedVideoUrl "movies/2/film.mp4"] |}).
  - reflexivity.
  - reflexivity.
Defined.

Lemma ingest_duplicates_ids_witness :
  count_occ string_dec
    (map id (videosCache (snd (requestTranscodeJob (scripted bothSources) "Two"
                                 "Again" "movies/2/film.mp4" (warm shelf))))) "2"
  = 2%nat
  /\ ~ NoDup (map id (videosCache
                        (snd (requestTranscodeJob (scripted bothSources) "Two"
                                "Again" "movies/2/film.mp4" (warm shelf))))).
Proof.
  destruct (@ingest_duplicates_ids Z (scripted bothSources) "Two" "Again"
              "movies/2/film.mp4" (warm shelf) "2" (io (warm shelf))
              (Some "https://signed/movies/2/film.mp4")
              {| world := 100000; calls := [GetSignedVideoUrl "movies/2/film.mp4"] |}
              eq_refl eq_refl) as (Hc & Hn).
  split.
  - rewrite Hc. reflexivity.
  - apply Hn. left. reflexivity.
Defined.

Lemma ingest_then_read_witness :
  exists out,
    fst (getRecommendedVideos (scripted bothSources) 7
           (snd (requestTranscodeJob (scripted bothSources) "Two" "Again"
                   "movies/2/film.mp4" (warm shelf)))) = OK out
    /\ List.length out = 3%nat.
Proof.
  destruct (@ingest_then_read Z (scripted bothSources) "Two" "Again"
              "movies/2/film.mp4" (warm shelf) "2" (io (warm shelf))
              (Some "https://signed/movies/2/film.mp4")
              {| world := 100000; calls := [GetSignedVideoUrl "movies/2/film.mp4"] |}
              7 eq_refl eq_refl) as (Hf & _).
  destruct (Hf eq_refl) as (out & E & Hm). exists out. split; [exact E|].
  rewrite <- (length_map (@vm_video) out), Hm. reflexivity.
Defined.

Lemma transcode_route_outcomes_witness :
  a_res (snd (transcodeRoute (scripted (mirrorDown "production")) (Some "Two")
                (Some "Again") (Some "movies/2/film.mp4") (api (warm shelf))))
  = {| api_status := 500;
       api_body := Some (ApiMessage "Failed to start transcode job") |}
  /\ List.length
       (videosCache
          (a_service
             (snd (transcodeRoute (scripted (mirrorDown "production")) (Some "Two")
                     (Some "Again") (Some "movies/2/film.mp4") (api (warm shelf))))))
     = 3%nat.
Proof.
  destruct (@transcode_route_outcomes Z (scripted (mirrorDown "production"))
              (Some "Two") (Some "Again") (Some "movies/2/film.mp4")
              (api (warm shelf))) as (_ & H).
  destruct (H "Two" "Again" "movies/2/film.mp4" "2" (io (warm shelf))
              (Some "https://signed/movies/2/film.mp4")
              {| world := 100000; calls := [GetSignedVideoUrl "movies/2/film.mp4"] |}
              (Error "table unavailable") 100002
              eq_refl eq_refl eq_refl eq_refl eq_refl eq_refl eq_refl) as (Hr & Hc).
  split; [exact Hr|]. rewrite Hc. reflexivity.
Defined.

Lemma watch_writes_follow_mode_witness :
  addToWatchlist (scripted (mirrorDown "production")) watchDown 7 3 (io cold)
  = (Throw (Error "table unavailable"),
     {| world := 100001;
        calls := [PutWatchItem "Watchlist"
                    {| wi_userId := 7; wi_videoId := 3; wi_at := 100000;
                       wi_progress := None |}] |}).
Proof.
  destruct (@watch_writes_follow_mode Z (scripted (mirrorDown "production"))
              watchDown 7 3 (io cold)) as (_ & H & _).
  destruct (H eq_refl) as (E & _). rewrite E. reflexivity.
Defined.

Lemma extension_follows_last_dot_witness :
  extensionOf (scripted bothSources) "movies/1/film.final.MP4" = "mp4".
Proof.
  destruct (@extension_follows_last_dot Z (scripted bothSources)
              "movies/1/film.final" "MP4" eq_refl) as (_ & _ & H).
  exact (H eq_refl).
Defined.

Lemma video_type_ignores_query_witness :
  getVideoType (fun s => s)
    "https://signed/movies/1/film.MP4?X-Amz-Signature=abc.def"
  = "video/mp4"
  /\ getVideoType (fun s => s) "https://signed/movies/1/film.MP4" = "video/mp4".
Proof.
  apply (@video_type_ignores_query (fun s => s) "https://signed/movies/1/film"
           "MP4" "X-Amz-Signature=abc.def" "video/mp4"); reflexivity.
Defined.

Lemma unusable_key_is_refused_witness :
  h_io (snd (streamContent (scripted bothSources) (edge edgeSigner (OK denied))
               "movies%2F1%2Ffilm%E0%A4%A.mp4" None request)) = h_io request
  /\ statusCode (res (snd (streamContent (scripted bothSources)
                             (edge edgeSigner (OK denied))
                             "movies%2F1%2Ffilm%E0%A4%A.mp4" None request))) = 500
  /\ sent (res (snd (streamContent (scripted bothSources)
                       (edge edgeSigner (OK denied))
                       "movies%2F1%2Ffilm%E0%A4%A.mp4" None request)))
     = Some (Json "Failed to stream content" (Some "URIError: URI malformed")).
Proof.
  destruct (@unusable_key_is_refused Z (scripted bothSources)
              (edge edgeSigner (OK denied)) "movies%2F1%2Ffilm%E0%A4%A.mp4" None
              request) as (_ & H).
  apply (H URIError); [discriminate | vm_compute; reflexivity].
Defined.

Lemma edge_skipped_is_origin_witness :
  streamContent (scripted bothSources) (edge edgeSigner (OK denied))
    "movies%2F1%2Fposter.png" None request
  = behindEdge (scripted bothSources) (edge edgeSigner (OK denied))
      "movies/1/poster.png" None request.
Proof.
  apply (@edge_skipped_is_origin Z (scripted bothSources)
           (edge edgeSigner (OK denied)) "movies%2F1%2Fposter.png"
           "movies/1/poster.png" None request).
  - discriminate.
  - vm_compute. reflexivity.
  - reflexivity.
Defined.

Lemma origin_without_url_witness :
  behindEdge (scripted oneKeyDown) (noEdge (OK partial)) "movies/2/film.mp4"
    (Some "bytes=0-99") request
  = (OK tt,
     {| h_io := {| world := 0; calls := [GetSignedVideoUrl "movies/2/film.mp4"] |};
        res := {| statusCode := 500;
                  headers := [];
                  sent := Some (Json "Failed to stream content"
                                  (Some "AccessDenied: not allowed to sign")) |} |}).
Proof.
  destruct (@origin_without_url Z (scripted oneKeyDown) (noEdge (OK partial))
              "movies/2/film.mp4" (Some "bytes=0-99") request) as (_ & H).
  apply (H (Failure "AccessDenied" "not allowed to sign")). reflexivity.
Defined.

Lemma full_tier_outcomes_witness :
  statusCode (res (snd (behindEdge (scripted bothSources) (noEdge (OK unreadable))
                          "movies/1/poster.png" (Some "bytes=0-99") request))) = 500
  /\ sent (res (snd (behindEdge (scripted bothSources) (noEdge (OK unreadable))
                       "movies/1/poster.png" (Some "bytes=0-99") request)))
     = Some (Json "Error streaming content" (Some "FetchError: Premature close")).
Proof.
  destruct (@full_tier_outcomes Z (scripted bothSources) (noEdge (OK unreadable))
              "movies/1/poster.png" (Some "bytes=0-99") request
              (Some "https://signed/movies/1/poster.png")
              "https://signed/movies/1/poster.png"
              {| world := 0; calls := [GetSignedVideoUrl "movies/1/poster.png"] |}
              eq_refl eq_refl eq_refl) as (_ & H & _).
  destruct (H unreadable 0 eq_refl eq_refl) as ((H1 & H2) & _).
  split; [exact H1 | exact H2].
Defined.

Lemma range_tier_outcomes_witness :
  statusCode (res (snd (behindEdge (scripted bothSources) (noEdge (OK partial))
                          "movies/1/film.mp4" (Some "bytes=0-99") request))) = 206
  /\ JS.get "Content-Range"
       (headers (res (snd (behindEdge (scripted bothSources) (noEdge (OK partial))
                             "movies/1/film.mp4" (Some "bytes=0-99") request))))
     = Some "bytes 0-99/1000"
  /\ calls (h_io (snd (behindEdge (scripted bothSources) (noEdge (OK partial))
                         "movies/1/film.mp4" (Some "bytes=0-99") request)))
     = [GetSignedVideoUrl "movies/1/film.mp4";
        Fetch "https://signed/movies/1/film.mp4" (Some "bytes=0-99")].
Proof.
  destruct (@range_tier_outcomes Z (scripted bothSources) (noEdge (OK partial))
              "movies/1/film.mp4" (Some "bytes=0-99") "bytes=0-99" request
              (Some "https://signed/movies/1/film.mp4")
              "https://signed/movies/1/film.mp4"
              {| world := 0; calls := [GetSignedVideoUrl "movies/1/film.mp4"] |}
              eq_refl eq_refl eq_refl) as (_ & H & Hc).
  destruct (H partial 0 "first hundred bytes" eq_refl eq_refl)
    as (H1 & _ & _ & H4 & _).
  split; [exact H1|]. split; [exact H4 | exact Hc].
Defined.
